(** * Client-side data-window management: a shallow embedding

    The development embeds, function by function, the client-side core of the
    data grid:

    - the range bookkeeping of [dataGridSlice] ([isRangeLoaded],
      [mergeRanges], the shift applied at eviction),
    - the store reducers and the two data thunks of [dataGridSlice],
    - the windowing hook [useVirtualScroll] with its frame-gated scroll
      handler,
    - the row-group calculator [useRowSpanning],
    - the cancellation scopes of [dataService].

    JavaScript numbers that hold offsets, lengths and pixel positions are
    modelled as [Z] (they are integral in every use below); array indices that
    are loop counters are [nat].  Cell values are strings, integers, [null],
    or [undefined] (the result of reading past the end of a row). *)

From Stdlib Require Import ZArith String Ascii List Bool Sorted Lia.
From stdpp Require Import base decidable option list sorting gmap.

Import ListNotations.
Local Open Scope Z_scope.

(* ===================================================================== *)
(** * Definitions                                                          *)
(* ===================================================================== *)

(** ** Cells and rows *)

Module Data.

(** [string | number | null], plus [undefined] for out-of-range reads.
    Numeric cells are integers here; [NaN], the one value that strict
    equality separates from itself, is outside the model. *)
Inductive Cell : Type :=
| CStr (s : string)
| CNum (n : Z)
| CNull
| CUndefined.

#[export] Instance Cell_eq_dec : EqDecision Cell.
Proof. solve_decision. Defined.

Definition Row : Type := list Cell.

(** [row[idx]] *)
Definition rowGet (row : Row) (idx : nat) : Cell :=
  match row !! idx with
  | Some v => v
  | None => CUndefined
  end.

(** [data[r]?.[c]] *)
Definition cellAt (data : list Row) (r c : nat) : Cell :=
  match data !! r with
  | Some row => rowGet row c
  | None => CUndefined
  end.

(** Strict inequality [a !== b] on cells. *)
Definition strictNe (a b : Cell) : bool := negb (bool_decide (a = b)).

End Data.

(** ** RangeTracker: the helper functions of the slice *)

Module RangeTracker.

Record Range : Type := mkRange { start : Z; end_ : Z }.

#[export] Instance Range_eq_dec : EqDecision Range.
Proof. solve_decision. Defined.

(** [ranges.some(range => range.start <= offset && range.end >= requestEnd)] *)
Definition isRangeLoaded (ranges : list Range) (offset limit : Z) : bool :=
  let requestEnd := offset + limit in
  existsb (fun range => (start range <=? offset) && (end_ range >=? requestEnd)) ranges.

(** [[...ranges].sort((a, b) => a.start - b.start)]: a stable sort on
    [start], written as insertion into a sorted list. *)
Fixpoint insertByStart (r : Range) (l : list Range) : list Range :=
  match l with
  | [] => [r]
  | x :: l' => if start r <=? start x then r :: x :: l' else x :: insertByStart r l'
  end.

Definition sortByStart (l : list Range) : list Range :=
  foldr insertByStart [] l.

(** The [for] loop of [mergeRanges]: [last] is [merged[merged.length - 1]],
    the ranges already pushed before it are emitted in front. *)
Fixpoint mergeLoop (last : Range) (rest : list Range) : list Range :=
  match rest with
  | [] => [last]
  | current :: rest' =>
      if start current <=? end_ last + 1
      then mergeLoop (mkRange (start last) (Z.max (end_ last) (end_ current))) rest'
      else last :: mergeLoop current rest'
  end.

Definition mergeRanges (ranges : list Range) : list Range :=
  match sortByStart ranges with
  | [] => []
  | first :: rest => mergeLoop first rest
  end.

(** [state.loadedRanges.push({start, end}); mergeRanges(state.loadedRanges)] *)
Definition addRange (ranges : list Range) (s e : Z) : list Range :=
  mergeRanges (ranges ++ [mkRange s e]).

(** The adjustment of the loaded ranges at eviction:
    [map(range => ({start: max(0, start - excess), end: max(0, end - excess)}))
     .filter(range => range.end > range.start)]. *)
Definition shiftRanges (excessRows : Z) (ranges : list Range) : list Range :=
  List.filter (fun range => end_ range >? start range)
    (List.map (fun range => mkRange (Z.max 0 (start range - excessRows))
                                 (Z.max 0 (end_ range - excessRows))) ranges).

(** The merge step as the specification words it: a range is folded into
    its predecessor exactly when [current.start <= previous.end]. *)
Fixpoint mergeLoop_spec (last : Range) (rest : list Range) : list Range :=
  match rest with
  | [] => [last]
  | current :: rest' =>
      if start current <=? end_ last
      then mergeLoop_spec (mkRange (start last) (Z.max (end_ last) (end_ current))) rest'
      else last :: mergeLoop_spec current rest'
  end.

Definition mergeRanges_spec (ranges : list Range) : list Range :=
  match sortByStart ranges with
  | [] => []
  | first :: rest => mergeLoop_spec first rest
  end.

(** A server offset is covered by the union of a family of ranges. *)
Definition covered (ranges : list Range) (x : Z) : Prop :=
  Exists (fun r => start r <= x < end_ r) ranges.

Definition byStart (a b : Range) : Prop := start a <= start b.

(** [outer] contains [inner] as an interval. *)
Definition contains (outer inner : Range) : Prop :=
  start outer <= start inner /\ end_ inner <= end_ outer.

(** Neither overlapping nor touching: at least two offsets lie between them. *)
Definition apart (a b : Range) : Prop := end_ a + 1 < start b.

End RangeTracker.

(** ** Windowing Engine: [useVirtualScroll] *)

Module Windowing.

(** [Math.floor(a / b)] and [Math.ceil(a / b)] on integral pixel values,
    for a positive divisor. *)
Definition floorDiv (a b : Z) : Z := a / b.
Definition ceilDiv (a b : Z) : Z := - ((- a) / b).

Record VirtualScrollConfig : Type := mkConfig {
  totalRows : Z;
  rowHeight : Z;
  containerHeight : Z;
  overscan : option Z   (* [overscan?: number], default 10 *)
}.

Record VirtualScrollResult : Type := mkResult {
  startIndex : Z;
  endIndex : Z;
  visibleRows : Z;
  offsetTop : Z;
  totalHeight : Z
}.

Definition overscanOf (cfg : VirtualScrollConfig) : Z := default 10 (overscan cfg).

(** The body of the hook for the current value of the [scrollTop] state. *)
Definition useVirtualScroll (cfg : VirtualScrollConfig) (scrollTop : Z) : VirtualScrollResult :=
  let visibleCount := ceilDiv (containerHeight cfg) (rowHeight cfg) in
  let start := Z.max 0 (floorDiv scrollTop (rowHeight cfg) - overscanOf cfg) in
  let end_ := Z.min (totalRows cfg)
                (ceilDiv (scrollTop + containerHeight cfg) (rowHeight cfg) + overscanOf cfg) in
  {| startIndex := start;
     endIndex := end_;
     visibleRows := visibleCount;
     offsetTop := start * rowHeight cfg;
     totalHeight := totalRows cfg * rowHeight cfg |}.

(** Row [i] occupies the pixels [[i * rowHeight, (i + 1) * rowHeight)]. *)
Definition rowIntersects (rowHeight scrollTop containerHeight i : Z) : Prop :=
  i * rowHeight < scrollTop + containerHeight /\ scrollTop < (i + 1) * rowHeight.

(** *** The frame-gated scroll handler

    The hook keeps the [scrollTop] state and a [tickingRef]; the callbacks
    handed to [requestAnimationFrame] wait in [frameQueue], each one
    holding the [newScrollTop] it closed over. *)
Record HookState : Type := mkHook {
  scrollTop : Z;
  ticking : bool;
  frameQueue : list Z
}.

Definition initialHook : HookState :=
  {| scrollTop := 0; ticking := false; frameQueue := [] |}.

Definition handleScroll (newScrollTop : Z) (st : HookState) : HookState :=
  if ticking st then st
  else {| scrollTop := scrollTop st;
          ticking := true;
          frameQueue := frameQueue st ++ [newScrollTop] |}.

(** One queued callback: [setScrollTop(newScrollTop); tickingRef.current = false]. *)
Definition frameCallback (st : HookState) (newScrollTop : Z) : HookState :=
  {| scrollTop := newScrollTop; ticking := false; frameQueue := frameQueue st |}.

(** The animation frame fires: the queued callbacks run in order. *)
Definition animationFrame (st : HookState) : HookState :=
  fold_left frameCallback (frameQueue st)
    {| scrollTop := scrollTop st; ticking := ticking st; frameQueue := [] |}.

Inductive Event : Type :=
| Scroll (newScrollTop : Z)
| Frame.

Definition step (st : HookState) (e : Event) : HookState :=
  match e with
  | Scroll v => handleScroll v st
  | Frame => animationFrame st
  end.

Definition run (st : HookState) (es : list Event) : HookState := fold_left step es st.

(** The window rendered for a hook state. *)
Definition window (cfg : VirtualScrollConfig) (st : HookState) : VirtualScrollResult :=
  useVirtualScroll cfg (scrollTop st).

End Windowing.

(** ** Row-Group Calculator: [useRowSpanning] *)

Module RowSpan.
Import Data.

Definition SPANNING_COLUMNS : list string :=
  ["principal_category"; "main_category"; "category"; "sub_category"]%string.

(** [toLowerCase] on the ASCII letters; other bytes are left alone. *)
Definition lowerAscii (a : ascii) : ascii :=
  let n := nat_of_ascii a in
  if ((65 <=? n) && (n <=? 90))%nat then ascii_of_nat (n + 32) else a.

Fixpoint toLowerCase (s : string) : string :=
  match s with
  | EmptyString => EmptyString
  | String a s' => String (lowerAscii a) (toLowerCase s')
  end.

Definition includes (l : list string) (s : string) : bool :=
  existsb (String.eqb s) l.

(** [columnNames.forEach((name, index) => ...)] from position [index] on;
    the [Set] keeps insertion order, which is ascending index order. *)
Fixpoint spanningFrom (index dimensionCount : nat) (names : list string) : list nat :=
  match names with
  | [] => []
  | name :: names' =>
      if includes SPANNING_COLUMNS (toLowerCase name) && (index <? dimensionCount)%nat
      then index :: spanningFrom (S index) dimensionCount names'
      else spanningFrom (S index) dimensionCount names'
  end.

Definition spanningColIndices (columnNames : list string) (dimensionCount : nat) : list nat :=
  spanningFrom 0 dimensionCount columnNames.

(** [spanningColIndices.has(c)] *)
Definition has (cols : list nat) (c : nat) : bool := bool_decide (c ∈ cols).

Definition checkPrevSpanningColumnsMatch
    (data : list Row) (row1 row2 upToCol : nat) (cols : list nat) : bool :=
  forallb (fun c => if has cols c
                    then negb (strictNe (cellAt data row1 c) (cellAt data row2 c))
                    else true)
          (seq 0 upToCol).

Record GroupInfo : Type := mkGroup { value : Cell; startRow : nat; rowCount : nat }.
Record RowSpanInfo : Type := mkSpan { rowIndex : nat; colIndex : nat; span : nat }.

(** The scan shared by the two memoised maps: the loop state is
    [(groupStart, currentValue, map)], and [onBreak groupStart currentValue
    rowIndex] is the block run when a group ends at [rowIndex]. *)
Section Scan.
Context {M : Type}.
Variable data : list Row.
Variable cols : list nat.
Variable col : nat.
Variable onBreak : nat -> Cell -> nat -> M -> M.

Definition scanStep (st : nat * Cell * M) (rowIndex : nat) : nat * Cell * M :=
  let '(groupStart, currentValue, map) := st in
  let value := if (rowIndex <? length data)%nat then cellAt data rowIndex col else CNull in
  let prevColumnsMatch :=
    checkPrevSpanningColumnsMatch data groupStart rowIndex col cols in
  if strictNe value currentValue || negb prevColumnsMatch || (rowIndex =? length data)%nat
  then (rowIndex, value, onBreak groupStart currentValue rowIndex map)
  else (groupStart, currentValue, map).

(** [for (let rowIndex = 1; rowIndex <= data.length; rowIndex++)] *)
Definition scanColumn (map : M) : M :=
  snd (fold_left scanStep (seq 1 (length data)) (0%nat, cellAt data 0 col, map)).
End Scan.

(** Keys [`${r}-${colIndex}`] are modelled by the pair [(r, colIndex)]. *)
Definition storeGroup (col groupStart : nat) (currentValue : Cell) (rowIndex : nat)
    (map : gmap (nat * nat) GroupInfo) : gmap (nat * nat) GroupInfo :=
  fold_left (fun m r => <[(r, col) := mkGroup currentValue groupStart (rowIndex - groupStart)]> m)
            (seq groupStart (rowIndex - groupStart)) map.

Definition storeSpan (col spanStart : nat) (currentValue : Cell) (rowIndex : nat)
    (map : gmap (nat * nat) RowSpanInfo) : gmap (nat * nat) RowSpanInfo :=
  let span := (rowIndex - spanStart)%nat in
  if (1 <? span)%nat then <[(spanStart, col) := mkSpan spanStart col span]> map else map.

Definition groupMapOf (data : list Row) (cols : list nat) : gmap (nat * nat) GroupInfo :=
  if (length data =? 0)%nat || (length cols =? 0)%nat then ∅
  else fold_left (fun m col => scanColumn data cols col (storeGroup col) m) cols ∅.

Definition spanMapOf (data : list Row) (cols : list nat) : gmap (nat * nat) RowSpanInfo :=
  if (length data =? 0)%nat || (length cols =? 0)%nat then ∅
  else fold_left (fun m col => scanColumn data cols col (storeSpan col) m) cols ∅.

Record RowSpanConfig : Type := mkRowSpanConfig {
  data : list Row;
  dimensionCount : nat;
  columnNames : list string
}.

Definition groupMap (cfg : RowSpanConfig) : gmap (nat * nat) GroupInfo :=
  groupMapOf (data cfg) (spanningColIndices (columnNames cfg) (dimensionCount cfg)).

Definition spanMap (cfg : RowSpanConfig) : gmap (nat * nat) RowSpanInfo :=
  spanMapOf (data cfg) (spanningColIndices (columnNames cfg) (dimensionCount cfg)).

Definition isGroupingColumn (cfg : RowSpanConfig) (c : nat) : bool :=
  has (spanningColIndices (columnNames cfg) (dimensionCount cfg)) c.

Definition getGroupInfo (cfg : RowSpanConfig) (r c : nat) : option GroupInfo :=
  groupMap cfg !! (r, c).

Definition shouldRender (cfg : RowSpanConfig) (r c : nat) : bool :=
  if negb (isGroupingColumn cfg c) then true
  else if (dimensionCount cfg <=? c)%nat then true
  else match groupMap cfg !! (r, c) with
       | Some groupInfo => (r =? startRow groupInfo)%nat
       | None => true
       end.

(** [spanInfo?.span || 1] *)
Definition getRowSpan (cfg : RowSpanConfig) (r c : nat) : nat :=
  if negb (isGroupingColumn cfg c) then 1%nat
  else match spanMap cfg !! (r, c) with
       | Some spanInfo => if (span spanInfo =? 0)%nat then 1%nat else span spanInfo
       | None => 1%nat
       end.

(** Two rows agree in column [c] and in every groupable column left of it. *)
Definition sameGroup (data : list Row) (cols : list nat) (c r1 r2 : nat) : Prop :=
  cellAt data r1 c = cellAt data r2 c /\
  forall c', (c' < c)%nat -> c' ∈ cols -> cellAt data r1 c' = cellAt data r2 c'.

(** The groups a scan of one column goes through, as
    [(groupStart, currentValue, rowIndex)] triples in the order in which the
    scan closes them. *)
Definition Run : Type := (nat * Cell * nat)%type.

Definition recordRun (groupStart : nat) (currentValue : Cell) (rowIndex : nat)
    (acc : list Run) : list Run :=
  acc ++ [(groupStart, currentValue, rowIndex)].

Definition runsOf (data : list Row) (cols : list nat) (col : nat) : list Run :=
  scanColumn data cols col recordRun [].

(** [RunsFrom data cols c s runs]: [runs] cuts the rows from [s] to the end
    of the buffer into consecutive maximal groups of column [c]. *)
Inductive RunsFrom (data : list Row) (cols : list nat) (c : nat) : nat -> list Run -> Prop :=
| RunsFrom_end : RunsFrom data cols c (length data) []
| RunsFrom_run s e rest :
    (s < e <= length data)%nat ->
    (forall r, (s <= r < e)%nat -> sameGroup data cols c s r) ->
    (e = length data \/ ~ sameGroup data cols c s e) ->
    RunsFrom data cols c e rest ->
    RunsFrom data cols c s ((s, cellAt data s c, e) :: rest).

End RowSpan.

(** ** Data Window Store: [dataGridSlice] *)

Module Store.
Import Data.
Export RangeTracker.

Definition BATCH_SIZE : Z := 2000.
Definition MAX_CACHED_ROWS : Z := 10000.

Inductive FilterValue : Type :=
| FVString (s : string)
| FVNumber (n : Z)
| FVBool (b : bool)
| FVList (l : list (string + Z))
| FVNull.

Record Filter : Type := mkFilter {
  filterColumn : string; filterOperator : string; filterValue : FilterValue }.
Record SortConfig : Type := mkSort { sortColumn : string; sortDirection : string }.
Record DateRange : Type := mkDateRange { rangeStart : string; rangeEnd : string }.
Record ComparisonConfig : Type := mkComparison {
  currentPeriod : DateRange; comparisonPeriod : DateRange }.

Record DimensionColumn : Type := mkDimension {
  dimName : string; dimLabel : string; dimType : string }.
Record MetricColumn : Type := mkMetric {
  metricName : string; metricLabel : string; metricType : string; aggregation : string }.
Record TableMetadata : Type := mkMetadata {
  tableName : string; dimensions : list DimensionColumn; metrics : list MetricColumn }.

Record QueryRequest : Type := mkRequest {
  reqDimensions : list string;
  reqMetrics : list string;
  reqFilters : list Filter;
  reqSort : list SortConfig;
  reqOffset : Z;
  reqLimit : Z;
  reqSearch : option string;
  reqComparison : option ComparisonConfig
}.

Record ColumnarQueryResponse : Type := mkResponse {
  respColumns : list string;
  respColumnTypes : list string;
  respData : list Row;
  respTotalRows : Z;
  respQueryTimeMs : Z;
  respCached : bool
}.

Record PrefetchState : Type := mkState {
  selectedDimensions : list string;
  selectedMetrics : list string;
  filters : list Filter;
  sort : list SortConfig;
  searchText : string;
  comparison : option ComparisonConfig;
  isLoading : bool;
  error : option string;
  metadata : option TableMetadata;
  columns : list string;
  columnTypes : list string;
  data : list Row;
  totalRows : Z;
  cached : bool;
  queryTimeMs : Z;
  allColumns : list string;
  allColumnTypes : list string;
  allData : list Row;
  visibleColumns : list string;
  visibleColumnTypes : list string;
  loadedRanges : list Range;
  isPrefetching : bool;
  lastScrollPosition : Z;
  currentQueryId : Z;
  needsDataRefresh : bool
}.

Definition initialState : PrefetchState :=
  {| selectedDimensions := ["master_brand_id"%string];
     selectedMetrics := ["ads_spend"; "ads_sale"; "gross_sale"]%string;
     filters := [];
     sort := [mkSort "ads_spend" "desc"];
     searchText := ""%string;
     comparison := None;
     isLoading := false;
     error := None;
     metadata := None;
     columns := [];
     columnTypes := [];
     data := [];
     totalRows := 0;
     cached := false;
     queryTimeMs := 0;
     allColumns := [];
     allColumnTypes := [];
     allData := [];
     visibleColumns := [];
     visibleColumnTypes := [];
     loadedRanges := [];
     isPrefetching := false;
     lastScrollPosition := 0;
     currentQueryId := 0;
     needsDataRefresh := true |}.

(** *** Field assignments on the draft state, [state.f = v] *)

Notation "s |> f" := (f s) (at level 45, left associativity, only parsing).

Definition set_selectedDimensions (v : list string) (s : PrefetchState) : PrefetchState :=
  mkState v (selectedMetrics s) (filters s) (sort s) (searchText s)
    (comparison s) (isLoading s) (error s) (metadata s) (columns s) (columnTypes s) (data s)
    (totalRows s) (cached s) (queryTimeMs s) (allColumns s) (allColumnTypes s) (allData s)
    (visibleColumns s) (visibleColumnTypes s) (loadedRanges s) (isPrefetching s)
    (lastScrollPosition s) (currentQueryId s) (needsDataRefresh s).

Definition set_selectedMetrics (v : list string) (s : PrefetchState) : PrefetchState :=
  mkState (selectedDimensions s) v (filters s) (sort s) (searchText s)
    (comparison s) (isLoading s) (error s) (metadata s) (columns s) (columnTypes s) (data s)
    (totalRows s) (cached s) (queryTimeMs s) (allColumns s) (allColumnTypes s) (allData s)
    (visibleColumns s) (visibleColumnTypes s) (loadedRanges s) (isPrefetching s)
    (lastScrollPosition s) (currentQueryId s) (needsDataRefresh s).

Definition set_isLoading (v : bool) (s : PrefetchState) : PrefetchState :=
  mkState (selectedDimensions s) (selectedMetrics s) (filters s) (sort s) (searchText s)
    (comparison s) v (error s) (metadata s) (columns s) (columnTypes s) (data s)
    (totalRows s) (cached s) (queryTimeMs s) (allColumns s) (allColumnTypes s) (allData s)
    (visibleColumns s) (visibleColumnTypes s) (loadedRanges s) (isPrefetching s)
    (lastScrollPosition s) (currentQueryId s) (needsDataRefresh s).

Definition set_error (v : option string) (s : PrefetchState) : PrefetchState :=
  mkState (selectedDimensions s) (selectedMetrics s) (filters s) (sort s) (searchText s)
    (comparison s) (isLoading s) v (metadata s) (columns s) (columnTypes s) (data s)
    (totalRows s) (cached s) (queryTimeMs s) (allColumns s) (allColumnTypes s) (allData s)
    (visibleColumns s) (visibleColumnTypes s) (loadedRanges s) (isPrefetching s)
    (lastScrollPosition s) (currentQueryId s) (needsDataRefresh s).

Definition set_metadata (v : option TableMetadata) (s : PrefetchState) : PrefetchState :=
  mkState (selectedDimensions s) (selectedMetrics s) (filters s) (sort s) (searchText s)
    (comparison s) (isLoading s) (error s) v (columns s) (columnTypes s) (data s)
    (totalRows s) (cached s) (queryTimeMs s) (allColumns s) (allColumnTypes s) (allData s)
    (visibleColumns s) (visibleColumnTypes s) (loadedRanges s) (isPrefetching s)
    (lastScrollPosition s) (currentQueryId s) (needsDataRefresh s).

Definition set_columns (v : list string) (s : PrefetchState) : PrefetchState :=
  mkState (selectedDimensions s) (selectedMetrics s) (filters s) (sort s) (searchText s)
    (comparison s) (isLoading s) (error s) (metadata s) v (columnTypes s) (data s)
    (totalRows s) (cached s) (queryTimeMs s) (allColumns s) (allColumnTypes s) (allData s)
    (visibleColumns s) (visibleColumnTypes s) (loadedRanges s) (isPrefetching s)
    (lastScrollPosition s) (currentQueryId s) (needsDataRefresh s).

Definition set_columnTypes (v : list string) (s : PrefetchState) : PrefetchState :=
  mkState (selectedDimensions s) (selectedMetrics s) (filters s) (sort s) (searchText s)
    (comparison s) (isLoading s) (error s) (metadata s) (columns s) v (data s)
    (totalRows s) (cached s) (queryTimeMs s) (allColumns s) (allColumnTypes s) (allData s)
    (visibleColumns s) (visibleColumnTypes s) (loadedRanges s) (isPrefetching s)
    (lastScrollPosition s) (currentQueryId s) (needsDataRefresh s).

Definition set_data (v : list Row) (s : PrefetchState) : PrefetchState :=
  mkState (selectedDimensions s) (selectedMetrics s) (filters s) (sort s) (searchText s)
    (comparison s) (isLoading s) (error s) (metadata s) (columns s) (columnTypes s) v
    (totalRows s) (cached s) (queryTimeMs s) (allColumns s) (allColumnTypes s) (allData s)
    (visibleColumns s) (visibleColumnTypes s) (loadedRanges s) (isPrefetching s)
    (lastScrollPosition s) (currentQueryId s) (needsDataRefresh s).

Definition set_totalRows (v : Z) (s : PrefetchState) : PrefetchState :=
  mkState (selectedDimensions s) (selectedMetrics s) (filters s) (sort s) (searchText s)
    (comparison s) (isLoading s) (error s) (metadata s) (columns s) (columnTypes s) (data s)
    v (cached s) (queryTimeMs s) (allColumns s) (allColumnTypes s) (allData s)
    (visibleColumns s) (visibleColumnTypes s) (loadedRanges s) (isPrefetching s)
    (lastScrollPosition s) (currentQueryId s) (needsDataRefresh s).

Definition set_cached (v : bool) (s : PrefetchState) : PrefetchState :=
  mkState (selectedDimensions s) (selectedMetrics s) (filters s) (sort s) (searchText s)
    (comparison s) (isLoading s) (error s) (metadata s) (columns s) (columnTypes s) (data s)
    (totalRows s) v (queryTimeMs s) (allColumns s) (allColumnTypes s) (allData s)
    (visibleColumns s) (visibleColumnTypes s) (loadedRanges s) (isPrefetching s)
    (lastScrollPosition s) (currentQueryId s) (needsDataRefresh s).

Definition set_queryTimeMs (v : Z) (s : PrefetchState) : PrefetchState :=
  mkState (selectedDimensions s) (selectedMetrics s) (filters s) (sort s) (searchText s)
    (comparison s) (isLoading s) (error s) (metadata s) (columns s) (columnTypes s) (data s)
    (totalRows s) (cached s) v (allColumns s) (allColumnTypes s) (allData s)
    (visibleColumns s) (visibleColumnTypes s) (loadedRanges s) (isPrefetching s)
    (lastScrollPosition s) (currentQueryId s) (needsDataRefresh s).

Definition set_allColumns (v : list string) (s : PrefetchState) : PrefetchState :=
  mkState (selectedDimensions s) (selectedMetrics s) (filters s) (sort s) (searchText s)
    (comparison s) (isLoading s) (error s) (metadata s) (columns s) (columnTypes s) (data s)
    (totalRows s) (cached s) (queryTimeMs s) v (allColumnTypes s) (allData s)
    (visibleColumns s) (visibleColumnTypes s) (loadedRanges s) (isPrefetching s)
    (lastScrollPosition s) (currentQueryId s) (needsDataRefresh s).

Definition set_allColumnTypes (v : list string) (s : PrefetchState) : PrefetchState :=
  mkState (selectedDimensions s) (selectedMetrics s) (filters s) (sort s) (searchText s)
    (comparison s) (isLoading s) (error s) (metadata s) (columns s) (columnTypes s) (data s)
    (totalRows s) (cached s) (queryTimeMs s) (allColumns s) v (allData s)
    (visibleColumns s) (visibleColumnTypes s) (loadedRanges s) (isPrefetching s)
    (lastScrollPosition s) (currentQueryId s) (needsDataRefresh s).

Definition set_allData (v : list Row) (s : PrefetchState) : PrefetchState :=
  mkState (selectedDimensions s) (selectedMetrics s) (filters s) (sort s) (searchText s)
    (comparison s) (isLoading s) (error s) (metadata s) (columns s) (columnTypes s) (data s)
    (totalRows s) (cached s) (queryTimeMs s) (allColumns s) (allColumnTypes s) v
    (visibleColumns s) (visibleColumnTypes s) (loadedRanges s) (isPrefetching s)
    (lastScrollPosition s) (currentQueryId s) (needsDataRefresh s).

Definition set_loadedRanges (v : list Range) (s : PrefetchState) : PrefetchState :=
  mkState (selectedDimensions s) (selectedMetrics s) (filters s) (sort s) (searchText s)
    (comparison s) (isLoading s) (error s) (metadata s) (columns s) (columnTypes s) (data s)
    (totalRows s) (cached s) (queryTimeMs s) (allColumns s) (allColumnTypes s) (allData s)
    (visibleColumns s) (visibleColumnTypes s) v (isPrefetching s)
    (lastScrollPosition s) (currentQueryId s) (needsDataRefresh s).

Definition set_isPrefetching (v : bool) (s : PrefetchState) : PrefetchState :=
  mkState (selectedDimensions s) (selectedMetrics s) (filters s) (sort s) (searchText s)
    (comparison s) (isLoading s) (error s) (metadata s) (columns s) (columnTypes s) (data s)
    (totalRows s) (cached s) (queryTimeMs s) (allColumns s) (allColumnTypes s) (allData s)
    (visibleColumns s) (visibleColumnTypes s) (loadedRanges s) v
    (lastScrollPosition s) (currentQueryId s) (needsDataRefresh s).

Definition set_currentQueryId (v : Z) (s : PrefetchState) : PrefetchState :=
  mkState (selectedDimensions s) (selectedMetrics s) (filters s) (sort s) (searchText s)
    (comparison s) (isLoading s) (error s) (metadata s) (columns s) (columnTypes s) (data s)
    (totalRows s) (cached s) (queryTimeMs s) (allColumns s) (allColumnTypes s) (allData s)
    (visibleColumns s) (visibleColumnTypes s) (loadedRanges s) (isPrefetching s)
    (lastScrollPosition s) v (needsDataRefresh s).

Definition set_needsDataRefresh (v : bool) (s : PrefetchState) : PrefetchState :=
  mkState (selectedDimensions s) (selectedMetrics s) (filters s) (sort s) (searchText s)
    (comparison s) (isLoading s) (error s) (metadata s) (columns s) (columnTypes s) (data s)
    (totalRows s) (cached s) (queryTimeMs s) (allColumns s) (allColumnTypes s) (allData s)
    (visibleColumns s) (visibleColumnTypes s) (loadedRanges s) (isPrefetching s)
    (lastScrollPosition s) (currentQueryId s) v.

(** *** Helper functions *)

(** [l.indexOf(s)], [None] standing for [-1]. *)
Fixpoint indexOf (l : list string) (s : string) : option nat :=
  match l with
  | [] => None
  | x :: l' => if String.eqb x s then Some 0%nat else S <$> indexOf l' s
  end.

(** [l[idx]] on an array of strings; every read below is at an index that
    [indexOf] returned, the empty string stands for a read out of range. *)
Definition strAt (l : list string) (idx : nat) : string := default ""%string (l !! idx).

Record Visible : Type := mkVisible {
  visibleColumnsOf : list string;
  visibleData : list Row;
  columnIndices : list nat
}.

Definition filterVisibleData (allColumns : list string) (allData : list Row)
    (selectedDimensions selectedMetrics : list string) : Visible :=
  let visibleColumns := selectedDimensions ++ selectedMetrics in
  let columnIndices := omap (indexOf allColumns) visibleColumns in
  let visibleData := List.map (fun row => List.map (fun idx => rowGet row idx) columnIndices) allData in
  {| visibleColumnsOf := List.map (fun idx => strAt allColumns idx) columnIndices;
     visibleData := visibleData;
     columnIndices := columnIndices |}.

(** [visibleColumns.map(col => { idx = allColumns.indexOf(col);
      return idx >= 0 ? allColumnTypes[idx] : 'varchar' })] *)
Definition typesOf (allColumns allColumnTypes visibleColumns : list string) : list string :=
  List.map (fun col => match indexOf allColumns col with
                       | Some idx => strAt allColumnTypes idx
                       | None => "varchar"%string
                       end) visibleColumns.

(** The re-filtering block shared by the reducers: recompute [columns],
    [data] and [columnTypes] from the full buffer. *)
Definition refilter (selectedMetrics' : list string) (s : PrefetchState) : PrefetchState :=
  let v := filterVisibleData (allColumns s) (allData s) (selectedDimensions s) selectedMetrics' in
  s |> set_columns (visibleColumnsOf v)
    |> set_data (visibleData v)
    |> set_columnTypes (typesOf (allColumns s) (allColumnTypes s) (visibleColumnsOf v)).

(** *** Plain reducers *)

Definition setSelectedDimensions (payload : list string) (s : PrefetchState) : PrefetchState :=
  s |> set_selectedDimensions payload
    |> set_allData []
    |> set_loadedRanges []
    |> set_needsDataRefresh true.

Definition setSelectedMetrics (payload : list string) (s : PrefetchState) : PrefetchState :=
  let s1 := s |> set_selectedMetrics payload in
  if (0 <? length (allData s1))%nat then refilter payload s1 else s1.

Definition toggleMetric (payload : string) (s : PrefetchState) : PrefetchState :=
  let s1 :=
    match indexOf (selectedMetrics s) payload with
    | None => s |> set_selectedMetrics (selectedMetrics s ++ [payload])
    | Some index => s |> set_selectedMetrics (delete index (selectedMetrics s))
    end in
  if (0 <? length (allData s1))%nat then refilter (selectedMetrics s1) s1 else s1.

(** *** Async thunks

    A payload creator either returns, throws, or awaits one call of the
    query-execution collaborator [dataService.queryRaw] and then returns a
    value built from the response (a rejection of the call propagates). *)

Inductive Thunk (R : Type) : Type :=
| Return (r : R)
| Throw (message : string)
| AwaitQueryRaw (request : QueryRequest) (isPrefetch : bool)
                (k : ColumnarQueryResponse -> R).
Arguments Return {R} r.
Arguments Throw {R} message.
Arguments AwaitQueryRaw {R} request isPrefetch k.

Record Call : Type := mkCall { callRequest : QueryRequest; callIsPrefetch : bool }.

(** What the collaborator answers: a response, or a rejection carrying
    [error.message]. *)
Inductive QueryResult : Type :=
| QueryOk (response : ColumnarQueryResponse)
| QueryFailed (message : option string).

Definition Collaborator : Type := QueryRequest -> bool -> QueryResult.

Inductive Outcome (R : Type) : Type :=
| Fulfilled (payload : R)
| Rejected (message : option string).
Arguments Fulfilled {R} payload.
Arguments Rejected {R} message.

(** Run a payload creator against a collaborator; the second component
    lists the collaborator calls that were made. *)
Definition runThunk {R} (queryRaw : Collaborator) (t : Thunk R) : Outcome R * list Call :=
  match t with
  | Return r => (Fulfilled r, [])
  | Throw message => (Rejected (Some message), [])
  | AwaitQueryRaw request isPrefetch k =>
      (match queryRaw request isPrefetch with
       | QueryOk response => Fulfilled (k response)
       | QueryFailed message => Rejected message
       end, [mkCall request isPrefetch])
  end.

Definition metricNames (m : TableMetadata) : list string := List.map metricName (metrics m).

(** [searchText || undefined] *)
Definition searchOf (searchText : string) : option string :=
  if String.eqb searchText "" then None else Some searchText.

Record InitialPayload : Type := mkInitialPayload {
  ipResponse : ColumnarQueryResponse;
  allMetricNames : list string
}.

Definition fetchInitialData (s : PrefetchState) : Thunk InitialPayload :=
  match metadata s with
  | None => Throw "Metadata not loaded"
  | Some md =>
      let allMetricNames := metricNames md in
      let request :=
        {| reqDimensions := selectedDimensions s;
           reqMetrics := allMetricNames;
           reqFilters := filters s;
           reqSort := sort s;
           reqOffset := 0;
           reqLimit := BATCH_SIZE;
           reqSearch := searchOf (searchText s);
           reqComparison := comparison s |} in
      AwaitQueryRaw request false (fun response => mkInitialPayload response allMetricNames)
  end.

Record RangeParams : Type := mkParams {
  offset : Z;
  limit : option Z;
  isPrefetch : option bool
}.

Record RangePayload : Type := mkRangePayload {
  rpResponse : ColumnarQueryResponse;
  rpOffset : Z;
  rpIsPrefetch : bool
}.

Definition fetchDataRange (params : RangeParams) (s : PrefetchState)
    : Thunk (option RangePayload) :=
  match metadata s with
  | None => Throw "Metadata not loaded"
  | Some md =>
      let limit := default BATCH_SIZE (limit params) in
      if isRangeLoaded (loadedRanges s) (offset params) limit then Return None
      else
        let allMetricNames := metricNames md in
        let request :=
          {| reqDimensions := selectedDimensions s;
             reqMetrics := allMetricNames;
             reqFilters := filters s;
             reqSort := sort s;
             reqOffset := offset params;
             reqLimit := limit;
             reqSearch := searchOf (searchText s);
             reqComparison := comparison s |} in
        AwaitQueryRaw request (default false (isPrefetch params))
          (fun response =>
             Some (mkRangePayload response (offset params) (default false (isPrefetch params))))
  end.

(** *** Extra reducers *)

Definition fetchInitialData_pending (s : PrefetchState) : PrefetchState :=
  s |> set_isLoading true
    |> set_error None
    |> set_currentQueryId (currentQueryId s + 1).

Definition fetchInitialData_fulfilled (payload : InitialPayload) (s : PrefetchState)
    : PrefetchState :=
  let r := ipResponse payload in
  let s1 := s |> set_isLoading false
              |> set_needsDataRefresh false
              |> set_allColumns (respColumns r)
              |> set_allColumnTypes (respColumnTypes r)
              |> set_allData (respData r)
              |> set_totalRows (respTotalRows r)
              |> set_queryTimeMs (respQueryTimeMs r)
              |> set_cached (respCached r) in
  refilter (selectedMetrics s1) s1
    |> set_loadedRanges [mkRange 0 (Z.of_nat (length (respData r)))].

(** [if (errorMsg !== 'Request cancelled') state.error = errorMsg ?? fallback] *)
Definition isCancelled (errorMsg : option string) : bool :=
  match errorMsg with
  | Some m => String.eqb m "Request cancelled"
  | None => false
  end.

Definition fetchInitialData_rejected (errorMsg : option string) (s : PrefetchState)
    : PrefetchState :=
  let s1 := s |> set_isLoading false |> set_needsDataRefresh false in
  if negb (isCancelled errorMsg)
  then s1 |> set_error (Some (default "Failed to fetch data"%string errorMsg))
  else s1.

Definition fetchDataRange_pending (params : RangeParams) (s : PrefetchState) : PrefetchState :=
  if default false (isPrefetch params)
  then s |> set_isPrefetching true
  else s |> set_isLoading true.

(** The part of the fulfilled reducer up to the update of [totalRows]:
    append, re-filter, track the range. *)
Definition appendAndTrack (payload : RangePayload) (s : PrefetchState) : PrefetchState :=
  let s1 := if rpIsPrefetch payload
            then s |> set_isPrefetching false
            else s |> set_isLoading false in
  let newData := respData (rpResponse payload) in
  let offset := rpOffset payload in
  let s2 := s1 |> set_allData (allData s1 ++ newData) in
  let s3 := refilter (selectedMetrics s2) s2 in
  s3 |> set_loadedRanges
          (mergeRanges (loadedRanges s3 ++ [mkRange offset (offset + Z.of_nat (length newData))]))
     |> set_totalRows (respTotalRows (rpResponse payload)).

(** The eviction block that closes the fulfilled reducer. *)
Definition evict (s : PrefetchState) : PrefetchState :=
  if Z.of_nat (length (allData s)) >? MAX_CACHED_ROWS
  then
    let excessRows := Z.of_nat (length (allData s)) - MAX_CACHED_ROWS in
    let s1 := s |> set_allData (drop (Z.to_nat excessRows) (allData s)) in
    let filtered :=
      filterVisibleData (allColumns s1) (allData s1) (selectedDimensions s1) (selectedMetrics s1) in
    s1 |> set_data (visibleData filtered)
       |> set_loadedRanges (shiftRanges excessRows (loadedRanges s1))
  else s.

Definition fetchDataRange_fulfilled (payload : option RangePayload) (s : PrefetchState)
    : PrefetchState :=
  match payload with
  | None => s |> set_isPrefetching false
  | Some p => evict (appendAndTrack p s)
  end.

(** The rejected reducer only logs a failure that is not a cancellation. *)
Definition fetchDataRange_rejected (errorMsg : option string) (s : PrefetchState)
    : PrefetchState :=
  s |> set_isPrefetching false |> set_isLoading false.

(** *** Dispatch

    A plain action runs its reducer.  A thunk runs [pending], then its
    payload creator on the state it reads with [getState()], then
    [fulfilled] or [rejected]; [settle...] takes the state at the time the
    thunk settles, which is the state after [pending] when nothing else was
    dispatched in between. *)

Definition settleInitialData (o : Outcome InitialPayload) (s : PrefetchState) : PrefetchState :=
  match o with
  | Fulfilled p => fetchInitialData_fulfilled p s
  | Rejected m => fetchInitialData_rejected m s
  end.

Definition settleDataRange (o : Outcome (option RangePayload)) (s : PrefetchState)
    : PrefetchState :=
  match o with
  | Fulfilled p => fetchDataRange_fulfilled p s
  | Rejected m => fetchDataRange_rejected m s
  end.

Inductive Action : Type :=
| SetSelectedDimensions (payload : list string)
| SetSelectedMetrics (payload : list string)
| ToggleMetric (payload : string)
| FetchInitialData
| FetchDataRange (params : RangeParams).

Definition dispatch (queryRaw : Collaborator) (a : Action) (s : PrefetchState)
    : PrefetchState * list Call :=
  match a with
  | SetSelectedDimensions payload => (setSelectedDimensions payload s, [])
  | SetSelectedMetrics payload => (setSelectedMetrics payload s, [])
  | ToggleMetric payload => (toggleMetric payload s, [])
  | FetchInitialData =>
      let s1 := fetchInitialData_pending s in
      let '(o, calls) := runThunk queryRaw (fetchInitialData s1) in
      (settleInitialData o s1, calls)
  | FetchDataRange params =>
      let s1 := fetchDataRange_pending params s in
      let '(o, calls) := runThunk queryRaw (fetchDataRange params s1) in
      (settleDataRange o s1, calls)
  end.

(** The two actions that change the metric selection. *)
Definition isMetricAction (a : Action) : Prop :=
  match a with
  | SetSelectedMetrics _ | ToggleMetric _ => True
  | _ => False
  end.

(** [requestRange(offset, limit, isPrefetch)] of the specification. *)
Definition requestRange (queryRaw : Collaborator) (offset limit : Z) (isPrefetch : bool)
    (s : PrefetchState) : PrefetchState * list Call :=
  dispatch queryRaw (FetchDataRange (mkParams offset (Some limit) (Some isPrefetch))) s.

Definition selectHasMoreData (s : PrefetchState) : bool :=
  Z.of_nat (length (allData s)) <? totalRows s.

End Store.

(** ** Cancellation scopes: [dataService] *)

Module ApiService.

Inductive Scope : Type := InitialQuery | Prefetch | Search.

#[export] Instance Scope_eq_dec : EqDecision Scope.
Proof. solve_decision. Defined.

(** The three module-level [AbortController] variables.  A controller is
    identified by its creation rank; [aborted] lists the controllers whose
    [abort()] was called. *)
Record Controllers : Type := mkControllers {
  initialQueryController : option nat;
  prefetchController : option nat;
  searchController : option nat;
  aborted : list nat;
  created : nat
}.

Definition initialControllers : Controllers :=
  {| initialQueryController := None; prefetchController := None;
     searchController := None; aborted := []; created := 0 |}.

Definition controllerOf (scope : Scope) (st : Controllers) : option nat :=
  match scope with
  | InitialQuery => initialQueryController st
  | Prefetch => prefetchController st
  | Search => searchController st
  end.

(** [if (controller) controller.abort()] *)
Definition abortIfAny (c : option nat) (l : list nat) : list nat :=
  match c with
  | Some i => i :: l
  | None => l
  end.

(** The synchronous prefix of [queryRaw(request, isPrefetch)]: abort the
    previous controller of the branch taken, install a new one, and send
    the request with its signal.  The result is the controller of the
    request that was sent. *)
Definition queryRaw (isPrefetch : bool) (st : Controllers) : nat * Controllers :=
  if isPrefetch
  then (created st,
        {| initialQueryController := initialQueryController st;
           prefetchController := Some (created st);
           searchController := searchController st;
           aborted := abortIfAny (prefetchController st) (aborted st);
           created := S (created st) |})
  else (created st,
        {| initialQueryController := Some (created st);
           prefetchController := prefetchController st;
           searchController := searchController st;
           aborted := abortIfAny (initialQueryController st) (aborted st);
           created := S (created st) |}).

(** [fetchAllData] shares the controller of the initial query. *)
Definition fetchAllData (st : Controllers) : nat * Controllers := queryRaw false st.

Definition search (st : Controllers) : nat * Controllers :=
  (created st,
   {| initialQueryController := initialQueryController st;
      prefetchController := prefetchController st;
      searchController := Some (created st);
      aborted := abortIfAny (searchController st) (aborted st);
      created := S (created st) |}).

Definition startRequest (scope : Scope) (st : Controllers) : nat * Controllers :=
  match scope with
  | InitialQuery => queryRaw false st
  | Prefetch => queryRaw true st
  | Search => search st
  end.

Definition isAborted (id : nat) (st : Controllers) : bool := bool_decide (id ∈ aborted st).

(** The awaited [api.post] of [queryRaw] settles: a request whose signal
    was aborted rejects with a cancellation, which [queryRaw] rethrows as
    [Error('Request cancelled')]; otherwise the transport's answer goes
    through. *)
Definition settleQueryRaw (id : nat) (transport : Store.QueryResult) (st : Controllers)
    : Store.QueryResult :=
  if isAborted id st then Store.QueryFailed (Some "Request cancelled"%string) else transport.

(** Controllers are created one after the other, and a controller sits in
    one variable only. *)
Definition wellFormed (st : Controllers) : Prop :=
  (forall i, i ∈ aborted st -> (i < created st)%nat) /\
  (forall scope i, controllerOf scope st = Some i -> (i < created st)%nat) /\
  (forall scope scope' i,
      controllerOf scope st = Some i -> controllerOf scope' st = Some i -> scope = scope').

End ApiService.

(** ** The store wired to the service *)

Module Session.
Import Store.

Record System : Type := mkSystem {
  store : PrefetchState;
  api : ApiService.Controllers
}.

(** A range request waiting for its response: the controller of the call
    and the rest of the payload creator. *)
Record InFlight : Type := mkInFlight {
  controller : nat;
  resume : ColumnarQueryResponse -> option RangePayload
}.

(** [dispatch(fetchDataRange(params))] up to the first suspension. *)
Definition startDataRange (params : RangeParams) (sys : System) : System * option InFlight :=
  let s1 := fetchDataRange_pending params (store sys) in
  match fetchDataRange params s1 with
  | Return r => (mkSystem (fetchDataRange_fulfilled r s1) (api sys), None)
  | Throw message => (mkSystem (fetchDataRange_rejected (Some message) s1) (api sys), None)
  | AwaitQueryRaw _ isPrefetch k =>
      let '(id, api') := ApiService.queryRaw isPrefetch (api sys) in
      (mkSystem s1 api', Some (mkInFlight id k))
  end.

(** The transport answers the request [f]; the thunk settles and the
    matching reducer runs on the current store. *)
Definition completeDataRange (f : InFlight) (transport : QueryResult) (sys : System) : System :=
  match ApiService.settleQueryRaw (controller f) transport (api sys) with
  | QueryOk response =>
      mkSystem (fetchDataRange_fulfilled (resume f response) (store sys)) (api sys)
  | QueryFailed message =>
      mkSystem (fetchDataRange_rejected message (store sys)) (api sys)
  end.

End Session.

(** ** Shapes of tracked range sets *)

Module RangeShape.
Import RangeTracker.

(** A range whose bounds are in order; it may be empty. *)
Definition ordered (r : Range) : Prop := start r <= end_ r.

(** Ranges in order, and any two of them at least two offsets apart. *)
Definition canonical (ranges : list Range) : Prop :=
  StronglySorted apart ranges /\ Forall ordered ranges.

End RangeShape.

(** ** The remaining reducers of the slice, and its callers in [DataGrid] *)

Module Reducers.
Import Data.
Export Store.

Definition set_filters (v : list Filter) (s : PrefetchState) : PrefetchState :=
  mkState (selectedDimensions s) (selectedMetrics s) v (sort s) (searchText s)
    (comparison s) (isLoading s) (error s) (metadata s) (columns s) (columnTypes s) (data s)
    (totalRows s) (cached s) (queryTimeMs s) (allColumns s) (allColumnTypes s) (allData s)
    (visibleColumns s) (visibleColumnTypes s) (loadedRanges s) (isPrefetching s)
    (lastScrollPosition s) (currentQueryId s) (needsDataRefresh s).

Definition set_sort (v : list SortConfig) (s : PrefetchState) : PrefetchState :=
  mkState (selectedDimensions s) (selectedMetrics s) (filters s) v (searchText s)
    (comparison s) (isLoading s) (error s) (metadata s) (columns s) (columnTypes s) (data s)
    (totalRows s) (cached s) (queryTimeMs s) (allColumns s) (allColumnTypes s) (allData s)
    (visibleColumns s) (visibleColumnTypes s) (loadedRanges s) (isPrefetching s)
    (lastScrollPosition s) (currentQueryId s) (needsDataRefresh s).

Definition set_searchText (v : string) (s : PrefetchState) : PrefetchState :=
  mkState (selectedDimensions s) (selectedMetrics s) (filters s) (sort s) v
    (comparison s) (isLoading s) (error s) (metadata s) (columns s) (columnTypes s) (data s)
    (totalRows s) (cached s) (queryTimeMs s) (allColumns s) (allColumnTypes s) (allData s)
    (visibleColumns s) (visibleColumnTypes s) (loadedRanges s) (isPrefetching s)
    (lastScrollPosition s) (currentQueryId s) (needsDataRefresh s).

Definition set_comparison (v : option ComparisonConfig) (s : PrefetchState) : PrefetchState :=
  mkState (selectedDimensions s) (selectedMetrics s) (filters s) (sort s) (searchText s)
    v (isLoading s) (error s) (metadata s) (columns s) (columnTypes s) (data s)
    (totalRows s) (cached s) (queryTimeMs s) (allColumns s) (allColumnTypes s) (allData s)
    (visibleColumns s) (visibleColumnTypes s) (loadedRanges s) (isPrefetching s)
    (lastScrollPosition s) (currentQueryId s) (needsDataRefresh s).

Definition set_lastScrollPosition (v : Z) (s : PrefetchState) : PrefetchState :=
  mkState (selectedDimensions s) (selectedMetrics s) (filters s) (sort s) (searchText s)
    (comparison s) (isLoading s) (error s) (metadata s) (columns s) (columnTypes s) (data s)
    (totalRows s) (cached s) (queryTimeMs s) (allColumns s) (allColumnTypes s) (allData s)
    (visibleColumns s) (visibleColumnTypes s) (loadedRanges s) (isPrefetching s)
    v (currentQueryId s) (needsDataRefresh s).

(** The three assignments that every structural reducer ends with. *)
Definition resetData (s : PrefetchState) : PrefetchState :=
  s |> set_allData [] |> set_loadedRanges [] |> set_needsDataRefresh true.

(** [selectedDimensions.includes(payload)] *)
Definition includesName (l : list string) (s : string) : bool := existsb (String.eqb s) l.

Definition addDimension (payload : string) (s : PrefetchState) : PrefetchState :=
  if negb (includesName (selectedDimensions s) payload)
  then s |> set_selectedDimensions (selectedDimensions s ++ [payload]) |> resetData
  else s.

Definition removeDimension (payload : string) (s : PrefetchState) : PrefetchState :=
  s |> set_selectedDimensions
         (List.filter (fun d => negb (String.eqb d payload)) (selectedDimensions s))
    |> resetData.

Definition setFilters (payload : list Filter) (s : PrefetchState) : PrefetchState :=
  s |> set_filters payload |> resetData.

Definition addFilter (payload : Filter) (s : PrefetchState) : PrefetchState :=
  s |> set_filters (filters s ++ [payload]) |> resetData.

(** [l.splice(index, 1)] as a deletion: a negative index counts from the
    end (and stops at 0), an index past the end removes nothing. *)
Definition splice1 {A} (index : Z) (l : list A) : list A :=
  if index <? 0
  then delete (Z.to_nat (Z.max (Z.of_nat (length l) + index) 0)) l
  else delete (Z.to_nat index) l.

Definition removeFilter (payload : Z) (s : PrefetchState) : PrefetchState :=
  s |> set_filters (splice1 payload (filters s)) |> resetData.

Definition setSort (payload : list SortConfig) (s : PrefetchState) : PrefetchState :=
  s |> set_sort payload |> resetData.

Definition setSearchText (payload : string) (s : PrefetchState) : PrefetchState :=
  s |> set_searchText payload.

Definition setComparison (payload : option ComparisonConfig) (s : PrefetchState)
    : PrefetchState :=
  s |> set_comparison payload.

Definition clearError (s : PrefetchState) : PrefetchState := s |> set_error None.

Definition updateScrollPosition (payload : Z) (s : PrefetchState) : PrefetchState :=
  s |> set_lastScrollPosition payload.

Definition markRefreshComplete (s : PrefetchState) : PrefetchState :=
  s |> set_needsDataRefresh false.

(** The extra reducers of [fetchMetadata]. *)
Definition fetchMetadata_pending (s : PrefetchState) : PrefetchState :=
  s |> set_isLoading true |> set_error None.

Definition fetchMetadata_fulfilled (payload : TableMetadata) (s : PrefetchState)
    : PrefetchState :=
  s |> set_isLoading false |> set_metadata (Some payload).

Definition fetchMetadata_rejected (errorMsg : option string) (s : PrefetchState)
    : PrefetchState :=
  s |> set_isLoading false
    |> set_error (Some (default "Failed to fetch metadata"%string errorMsg)).

(** Every reducer of the slice that runs without a payload creator. *)
Inductive Plain : Type :=
| PSetSelectedDimensions (payload : list string)
| PAddDimension (payload : string)
| PRemoveDimension (payload : string)
| PSetSelectedMetrics (payload : list string)
| PToggleMetric (payload : string)
| PSetFilters (payload : list Filter)
| PAddFilter (payload : Filter)
| PRemoveFilter (payload : Z)
| PSetSort (payload : list SortConfig)
| PSetSearchText (payload : string)
| PSetComparison (payload : option ComparisonConfig)
| PClearError
| PUpdateScrollPosition (payload : Z)
| PMarkRefreshComplete
| PMetadataPending
| PMetadataFulfilled (payload : TableMetadata)
| PMetadataRejected (errorMsg : option string)
| PInitialPending
| PInitialFulfilled (payload : InitialPayload)
| PInitialRejected (errorMsg : option string)
| PRangePending (params : RangeParams)
| PRangeFulfilled (payload : option RangePayload)
| PRangeRejected (errorMsg : option string).

Definition reduce (a : Plain) (s : PrefetchState) : PrefetchState :=
  match a with
  | PSetSelectedDimensions payload => setSelectedDimensions payload s
  | PAddDimension payload => addDimension payload s
  | PRemoveDimension payload => removeDimension payload s
  | PSetSelectedMetrics payload => setSelectedMetrics payload s
  | PToggleMetric payload => toggleMetric payload s
  | PSetFilters payload => setFilters payload s
  | PAddFilter payload => addFilter payload s
  | PRemoveFilter payload => removeFilter payload s
  | PSetSort payload => setSort payload s
  | PSetSearchText payload => setSearchText payload s
  | PSetComparison payload => setComparison payload s
  | PClearError => clearError s
  | PUpdateScrollPosition payload => updateScrollPosition payload s
  | PMarkRefreshComplete => markRefreshComplete s
  | PMetadataPending => fetchMetadata_pending s
  | PMetadataFulfilled payload => fetchMetadata_fulfilled payload s
  | PMetadataRejected errorMsg => fetchMetadata_rejected errorMsg s
  | PInitialPending => fetchInitialData_pending s
  | PInitialFulfilled payload => fetchInitialData_fulfilled payload s
  | PInitialRejected errorMsg => fetchInitialData_rejected errorMsg s
  | PRangePending params => fetchDataRange_pending params s
  | PRangeFulfilled payload => fetchDataRange_fulfilled payload s
  | PRangeRejected errorMsg => fetchDataRange_rejected errorMsg s
  end.

(** The visible triple is the projection of the buffer. *)
Definition projected (s : PrefetchState) : Prop :=
  let v := filterVisibleData (allColumns s) (allData s) (selectedDimensions s)
             (selectedMetrics s) in
  columns s = visibleColumnsOf v /\
  data s = visibleData v /\
  columnTypes s = typesOf (allColumns s) (allColumnTypes s) (visibleColumnsOf v).

(** *** [DataGrid]: load-more and the refresh effect *)

(** [handleLoadMore]: idle unless a fetch is running or the buffer already
    holds [totalRows] rows; otherwise a foreground range fetch of one batch at
    the end of the buffer. *)
Definition handleLoadMore (queryRaw : Collaborator) (s : PrefetchState)
    : PrefetchState * list Call :=
  if isLoading s || isPrefetching s then (s, [])
  else
    let nextOffset := Z.of_nat (length (allData s)) in
    if nextOffset >=? totalRows s then (s, [])
    else dispatch queryRaw
           (FetchDataRange (mkParams nextOffset (Some 2000) (Some false))) s.

(** The effect that fetches when [needsDataRefresh] is raised:
    [if (metadata && needsDataRefresh && selectedDimensions.length > 0)
       dispatch(fetchInitialData())]. *)
Definition refreshEffect (queryRaw : Collaborator) (s : PrefetchState)
    : PrefetchState * list Call :=
  if bool_decide (is_Some (metadata s)) && needsDataRefresh s
     && (0 <? length (selectedDimensions s))%nat
  then dispatch queryRaw FetchInitialData s
  else (s, []).

End Reducers.

(** ** Which actions invalidate the buffer *)

Module Structural.
Import Reducers.

(** The reducers that end with [allData = []; loadedRanges = [];
    needsDataRefresh = true]; [addDimension] does so only for a dimension
    that is not selected yet. *)
Definition resets (a : Plain) (s : PrefetchState) : bool :=
  match a with
  | PSetSelectedDimensions _ | PRemoveDimension _ | PSetFilters _ | PAddFilter _
  | PRemoveFilter _ | PSetSort _ => true
  | PAddDimension payload => negb (includesName (selectedDimensions s) payload)
  | _ => false
  end.

End Structural.

(** ** [VirtualTable]: the rendered slice, the load-more trigger, labels *)

Module Viewport.
Import Data.

(** [l.slice(start, end)]: a negative bound counts from the end, both
    bounds are cut to the array, and an inverted pair gives nothing. *)
Definition slice {A} (l : list A) (start end_ : Z) : list A :=
  let len := Z.of_nat (length l) in
  let k := if start <? 0 then Z.max (len + start) 0 else Z.min start len in
  let final := if end_ <? 0 then Z.max (len + end_) 0 else Z.min end_ len in
  take (Z.to_nat (final - k)) (drop (Z.to_nat k) l).

(** The hook as the table calls it: [totalRows: data.length], the header
    and status bar subtracted from the container, [overscan: 10]. *)
Definition tableWindow (data : list Row) (rowHeight containerHeight scrollTop : Z)
    : Windowing.VirtualScrollResult :=
  Windowing.useVirtualScroll
    (Windowing.mkConfig (Z.of_nat (length data)) rowHeight (containerHeight - 48 - 36) (Some 10))
    scrollTop.

(** [visibleRows = data.slice(startIndex, endIndex)] *)
Definition visibleRows (data : list Row) (rowHeight containerHeight scrollTop : Z) : list Row :=
  let w := tableWindow data rowHeight containerHeight scrollTop in
  slice data (Windowing.startIndex w) (Windowing.endIndex w).

(** *** The scroll handler of the table *)

Record ScrollTarget : Type := mkTarget {
  targetScrollTop : Z;
  scrollHeight : Z;
  clientHeight : Z;
  targetScrollLeft : Z
}.

(** The props and hook results the handler closes over. *)
Record ScrollProps : Type := mkScrollProps {
  dataLength : nat;
  endIndex : Z;
  hasMoreData : bool;
  isLoadingMore : bool;
  isLoading : bool;
  onLoadMore : bool   (* whether the callback prop is given *)
}.

Inductive Effect : Type :=
| SetScrollLeft (left : Z)
| UpdateScrollState (scrollTop : Z)
| LoadMore.

(** [scrollProgress >= PREFETCH_THRESHOLD], with
    [scrollProgress = data.length > 0 ? endIndex / data.length : 0] and the
    threshold 0.7, compared exactly. *)
Definition progressReached (p : ScrollProps) : bool :=
  if (0 <? dataLength p)%nat
  then 7 * Z.of_nat (dataLength p) <=? 10 * endIndex p
  else false.

Definition mayLoadMore (p : ScrollProps) (triggered : bool) : bool :=
  hasMoreData p && negb (isLoadingMore p) && negb (isLoading p)
  && negb triggered && onLoadMore p.

(** [handleScroll]: [triggered] is [loadMoreTriggeredRef.current]; the
    result is the new value of the ref and the effects in call order (the
    optional [onScroll] and [onScrollProgress] notifications are left out). *)
Definition handleScroll (p : ScrollProps) (target : ScrollTarget) (triggered : bool)
    : bool * list Effect :=
  let effects0 := [SetScrollLeft (targetScrollLeft target);
                   UpdateScrollState (targetScrollTop target)] in
  let '(triggered1, effects1) :=
    if progressReached p && mayLoadMore p triggered
    then (true, effects0 ++ [LoadMore])
    else (triggered, effects0) in
  let distanceFromBottom := scrollHeight target - targetScrollTop target - clientHeight target in
  let threshold := 500 in
  if (distanceFromBottom <? threshold) && mayLoadMore p triggered1
  then (true, effects1 ++ [LoadMore])
  else (triggered1, effects1).

(** A run of scroll events under the same props and buffer length. *)
Fixpoint handleScrolls (p : ScrollProps) (targets : list ScrollTarget) (triggered : bool)
    : bool * list Effect :=
  match targets with
  | [] => (triggered, [])
  | t :: targets' =>
      let '(triggered1, effects1) := handleScroll p t triggered in
      let '(triggered2, effects2) := handleScrolls p targets' triggered1 in
      (triggered2, effects1 ++ effects2)
  end.

Definition loadMoreCalls (effects : list Effect) : nat :=
  length (List.filter (fun e => match e with LoadMore => true | _ => false end) effects).

(** *** The floating label ([StickyLabel]) *)

Record StickyLabelProps : Type := mkSticky {
  groupStartY : Z;
  groupEndY : Z;
  stickyScrollTop : Z;
  stickyRowHeight : Z;
  viewportHeight : Z
}.

(** [None] when the component returns [null], else the [top] of the label. *)
Definition stickyLabel (p : StickyLabelProps) : option Z :=
  let minY := groupStartY p in
  let maxY := groupEndY p - stickyRowHeight p in
  let stickyY := Z.max minY (Z.min (stickyScrollTop p) maxY) in
  if (groupEndY p <=? stickyScrollTop p)
     || (groupStartY p >=? stickyScrollTop p + viewportHeight p)
  then None
  else Some stickyY.

(** The label geometry pushed for a group:
    [groupStartY: startRow * rowHeight],
    [groupEndY: (startRow + rowCount) * rowHeight]. *)
Definition labelProps (g : RowSpan.GroupInfo) (rowHeight scrollTop viewportHeight : Z)
    : StickyLabelProps :=
  {| groupStartY := Z.of_nat (RowSpan.startRow g) * rowHeight;
     groupEndY := (Z.of_nat (RowSpan.startRow g) + Z.of_nat (RowSpan.rowCount g)) * rowHeight;
     stickyScrollTop := scrollTop;
     stickyRowHeight := rowHeight;
     viewportHeight := viewportHeight |}.

End Viewport.

(** ** [useDebouncedCallback] *)

Module Debounce.

(** [timer] is the timeout that is scheduled and neither fired nor cleared,
    with the arguments its closure holds. *)
Record State (A : Type) : Type := mkState { timer : option A }.
Arguments mkState {A} timer.
Arguments timer {A} s.

Inductive Event (A : Type) : Type :=
| Call (args : A)     (* the debounced function is called *)
| Elapse              (* the scheduled timeout fires *)
| Unmount.            (* the cleanup of the effect runs *)
Arguments Call {A} args.
Arguments Elapse {A}.
Arguments Unmount {A}.

(** One event: the new state and the calls of [callback] it causes. *)
Definition step {A} (st : State A) (e : Event A) : State A * list A :=
  match e with
  | Call args => (mkState (Some args), [])
  | Elapse =>
      match timer st with
      | Some args => (mkState None, [args])
      | None => (st, [])
      end
  | Unmount => (mkState None, [])
  end.

Fixpoint run {A} (st : State A) (es : list (Event A)) : State A * list A :=
  match es with
  | [] => (st, [])
  | e :: es' =>
      let '(st1, calls1) := step st e in
      let '(st2, calls2) := run st1 es' in
      (st2, calls1 ++ calls2)
  end.

End Debounce.

(** ** Observations on the table and the debounced callback *)

Module TableShape.

(** The gate of the scroll handler: a frame callback is queued exactly while
    [ticking] is set, and never more than one. *)
Definition gateInvariant (st : Windowing.HookState) : Prop :=
  (Windowing.ticking st = false /\ Windowing.frameQueue st = []) \/
  (Windowing.ticking st = true /\ exists v, Windowing.frameQueue st = [v]).

(** [distanceFromBottom < threshold] *)
Definition nearBottom (t : Viewport.ScrollTarget) : bool :=
  Viewport.scrollHeight t - Viewport.targetScrollTop t - Viewport.clientHeight t <? 500.

Definition isUpdateScrollState (e : Viewport.Effect) : bool :=
  match e with Viewport.UpdateScrollState _ => true | _ => false end.

(** The arguments of the calls made, in call order. *)
Definition callArgs {A} (es : list (Debounce.Event A)) : list A :=
  omap (fun e => match e with Debounce.Call a => Some a | _ => None end) es.

End TableShape.

(* ===================================================================== *)
(** * Theorems                                                             *)
(* ===================================================================== *)

(** ** RangeTracker *)

Section RangeTrackerFacts.
Import RangeTracker.

Lemma insertByStart_perm r l : insertByStart r l ≡ₚ r :: l.
Proof.
  induction l as [|x l IH]; simpl; [done|].
  destruct (start r <=? start x); [done|].
  rewrite IH. apply perm_swap.
Qed.

Lemma sortByStart_perm l : sortByStart l ≡ₚ l.
Proof.
  induction l as [|x l IH]; simpl; [done|].
  rewrite insertByStart_perm. by rewrite IH.
Qed.

Lemma insertByStart_sorted r l :
  StronglySorted byStart l -> StronglySorted byStart (insertByStart r l).
Proof.
  induction 1 as [|x l Hs IH Hall]; simpl.
  - repeat constructor.
  - destruct (Z.leb_spec (start r) (start x)) as [Hle|Hgt].
    + constructor; [by constructor|].
      constructor; [done|].
      eapply Forall_impl; [exact Hall|]. unfold byStart. intros; lia.
    + constructor; [done|].
      rewrite insertByStart_perm. constructor; [unfold byStart; lia | done].
Qed.

Lemma sortByStart_sorted l : StronglySorted byStart (sortByStart l).
Proof.
  induction l as [|x l IH]; simpl; [constructor|].
  by apply insertByStart_sorted.
Qed.

(** The head of the merged list keeps the start of the seed range. *)
Lemma mergeLoop_head last rest :
  exists e tl, mergeLoop last rest = mkRange (start last) e :: tl /\ end_ last <= e.
Proof.
  revert last. induction rest as [|c rest IH]; intros last; simpl.
  - exists (end_ last), []. by destruct last.
  - destruct (start c <=? end_ last + 1).
    + destruct (IH (mkRange (start last) (Z.max (end_ last) (end_ c)))) as (e & tl & -> & He).
      simpl in *. exists e, tl. split; [done | lia].
    + exists (end_ last), (mergeLoop c rest). by destruct last.
Qed.

(** Every range handed to the loop ends up inside one merged range. *)
Lemma mergeLoop_contains last rest :
  StronglySorted byStart (last :: rest) ->
  forall r, r ∈ last :: rest -> exists r', r' ∈ mergeLoop last rest /\ contains r' r.
Proof.
  revert last. induction rest as [|c rest IH]; intros last Hs r Hr; simpl.
  - apply list_elem_of_singleton in Hr as ->.
    exists last. split; [apply list_elem_of_singleton; done | unfold contains; lia].
  - inversion Hs as [|? ? Hs' Hall]; subst.
    inversion Hs' as [|? ? Hs'' Hall']; subst.
    inversion Hall as [|? ? Hlc Hall'']; subst.
    destruct (Z.leb_spec (start c) (end_ last + 1)) as [Hle|Hgt].
    + set (m := mkRange (start last) (Z.max (end_ last) (end_ c))).
      assert (Hsm : StronglySorted byStart (m :: rest)).
      { constructor; [done|]. eapply Forall_impl; [exact Hall''|]. done. }
      apply elem_of_cons in Hr as [->|Hr].
      * destruct (IH m Hsm m) as (r' & Hin & Hc); [left|].
        exists r'. split; [done|]. unfold contains in *. simpl in *. lia.
      * apply elem_of_cons in Hr as [->|Hr].
        -- destruct (IH m Hsm m) as (r' & Hin & Hc); [left|].
           exists r'. split; [done|]. unfold contains, byStart in *. simpl in *. lia.
        -- apply (IH m Hsm r). by right.
    + apply elem_of_cons in Hr as [->|Hr].
      * exists last. split; [left | unfold contains; lia].
      * destruct (IH c Hs' r Hr) as (r' & Hin & Hc).
        exists r'. split; [by right | done].
Qed.

Lemma mergeRanges_contains ranges r :
  r ∈ ranges -> exists r', r' ∈ mergeRanges ranges /\ contains r' r.
Proof.
  intros Hr. unfold mergeRanges.
  pose proof (sortByStart_sorted ranges) as Hs.
  pose proof (sortByStart_perm ranges) as Hp.
  rewrite <- Hp in Hr.
  destruct (sortByStart ranges) as [|first rest].
  - by apply elem_of_nil in Hr.
  - by apply mergeLoop_contains.
Qed.

(** Adjacent merged ranges are more than one offset apart. *)
Lemma mergeLoop_apart last rest : Sorted apart (mergeLoop last rest).
Proof.
  revert last. induction rest as [|c rest IH]; intros last; simpl.
  - repeat constructor.
  - destruct (Z.leb_spec (start c) (end_ last + 1)) as [Hle|Hgt]; [apply IH|].
    constructor; [apply IH|].
    destruct (mergeLoop_head c rest) as (e & tl & -> & _).
    constructor. unfold apart. simpl. lia.
Qed.

Lemma mergeRanges_apart ranges : Sorted apart (mergeRanges ranges).
Proof.
  unfold mergeRanges. destruct (sortByStart ranges); [constructor | apply mergeLoop_apart].
Qed.

(** A range that was added is reported as loaded. *)
Lemma isRangeLoaded_contains ranges r offset limit :
  r ∈ ranges -> start r <= offset -> offset + limit <= end_ r ->
  isRangeLoaded ranges offset limit = true.
Proof.
  intros Hr Hs He. unfold isRangeLoaded. apply existsb_exists.
  exists r. split; [by apply list_elem_of_In|].
  apply andb_true_intro. split; [lia|]. apply Z.geb_le. lia.
Qed.

Lemma isRangeLoaded_addRange ranges s n :
  isRangeLoaded (addRange ranges s (s + n)) s n = true.
Proof.
  unfold addRange.
  destruct (mergeRanges_contains (ranges ++ [mkRange s (s + n)]) (mkRange s (s + n)))
    as (r' & Hin & Hs & He).
  { apply elem_of_app. right. by apply list_elem_of_singleton. }
  simpl in *. by apply (isRangeLoaded_contains _ r').
Qed.

(** C1, at the input where the code leaves the specified algorithm.  With
    [0, 5) tracked, adding [6, 10) folds the two ranges into [0, 10)
    although they neither overlap nor touch ([6 <= 5] fails, the code
    tests [6 <= 5 + 1]); [isRangeLoaded] then answers true for the single
    offset 5, which no added range covers.  The merge as the specification
    words it keeps the two ranges and answers false.  In the store: after an
    initial load of five rows and a fulfilled range fetch of four rows at
    offset 6, a request for the row at offset 5 is skipped as already
    loaded. *)
Theorem mergeRanges_folds_across_gap :
  addRange [mkRange 0 5] 6 10 = [mkRange 0 10] /\
  isRangeLoaded (addRange [mkRange 0 5] 6 10) 5 1 = true /\
  ~ covered [mkRange 0 5; mkRange 6 10] 5 /\
  mergeRanges_spec ([mkRange 0 5] ++ [mkRange 6 10]) = [mkRange 0 5; mkRange 6 10] /\
  isRangeLoaded (mergeRanges_spec ([mkRange 0 5] ++ [mkRange 6 10])) 5 1 = false /\
  (let row := fun n => [Data.CNum n] in
   let first := Store.mkResponse ["ads_spend"%string] ["double"%string]
                  [row 0; row 1; row 2; row 3; row 4] 100 1 false in
   let more := Store.mkResponse ["ads_spend"%string] ["double"%string]
                 [row 6; row 7; row 8; row 9] 100 1 false in
   let s := Store.fetchDataRange_fulfilled (Some (Store.mkRangePayload more 6 false))
              (Store.fetchInitialData_fulfilled (Store.mkInitialPayload first [])
                 (Store.set_metadata (Some (Store.mkMetadata "t" [] [])) Store.initialState)) in
   Store.loadedRanges s = [mkRange 0 10] /\
   forall queryRaw, snd (Store.requestRange queryRaw 5 1 true s) = []).
Proof.
  split; [reflexivity|]. split; [reflexivity|]. split.
  { unfold covered. rewrite Exists_cons, Exists_cons, Exists_nil. simpl. lia. }
  split; [reflexivity|]. split; [reflexivity|].
  vm_compute. split; [reflexivity | intros _; reflexivity].
Qed.

End RangeTrackerFacts.

(** ** Windowing Engine *)

Section WindowingFacts.
Import Windowing.

Lemma floorDiv_spec a b :
  0 < b -> floorDiv a b * b <= a < (floorDiv a b + 1) * b.
Proof.
  intros Hb. unfold floorDiv.
  pose proof (Z.div_mod a b ltac:(lia)) as Hdm.
  pose proof (Z.mod_pos_bound a b Hb) as Hm. nia.
Qed.

Lemma ceilDiv_spec a b :
  0 < b -> (ceilDiv a b - 1) * b < a <= ceilDiv a b * b.
Proof.
  intros Hb. unfold ceilDiv.
  pose proof (Z.div_mod (- a) b ltac:(lia)) as Hdm.
  pose proof (Z.mod_pos_bound (- a) b Hb) as Hm. nia.
Qed.

(** The rows whose pixel span meets the viewport are those from
    [floor(scrollTop / rowHeight)] up to, and excluding,
    [ceil((scrollTop + containerHeight) / rowHeight)]. *)
Lemma rowIntersects_iff h s H i :
  0 < h ->
  rowIntersects h s H i <-> floorDiv s h <= i < ceilDiv (s + H) h.
Proof.
  intros Hh. unfold rowIntersects.
  pose proof (floorDiv_spec s h Hh) as Hf.
  pose proof (ceilDiv_spec (s + H) h Hh) as Hc.
  split; intros [H1 H2]; split; nia.
Qed.

(** C3, where the claim fails.  The interval is not always within
    [[0, totalRows]]: [startIndex] is only cut from below and [endIndex] only
    from above.
    - With no rows at all and the viewport scrolled to pixel 1000 (rows of 10
      pixels, overscan 10) the hook returns [startIndex = 90], neither 0 nor
      within [[0, totalRows]].
    - With 100 rows and a scroll position of -1000 it returns
      [endIndex = -80].
    - With a scroll position of 0 and a container height of -200 (the table
      passes its height minus 84) it returns [endIndex = -10].
    - With an overscan of -1 the window starts at row 1 although row 0 is in
      the viewport. *)
Lemma useVirtualScroll_not_clamped :
  let empty := mkConfig 0 10 500 (Some 10) in
  let full := mkConfig 100 10 100 (Some 10) in
  let flat := mkConfig 100 10 (-200) (Some 10) in
  let narrow := mkConfig 100 10 100 (Some (-1)) in
  (0 < rowHeight empty /\ totalRows empty = 0 /\
   startIndex (useVirtualScroll empty 1000) = 90 /\
   endIndex (useVirtualScroll empty 1000) = 0 /\
   ~ (0 <= startIndex (useVirtualScroll empty 1000) <= totalRows empty)) /\
  (endIndex (useVirtualScroll full (-1000)) = -80 /\
   ~ (0 <= endIndex (useVirtualScroll full (-1000)) <= totalRows full)) /\
  (endIndex (useVirtualScroll flat 0) = -10 /\
   ~ (0 <= endIndex (useVirtualScroll flat 0) <= totalRows flat)) /\
  (rowIntersects (rowHeight narrow) 0 (containerHeight narrow) 0 /\
   startIndex (useVirtualScroll narrow 0) = 1).
Proof.
  cbv zeta. vm_compute.
  repeat split; try reflexivity; intros [H1 H2]; (by apply H1) || (by apply H2).
Qed.

(** C3, as the code has it.  For a positive row height and a non-negative
    overscan, and any scroll position, container height and row count:
    - [startIndex] and [endIndex] are the two formulas of the claim;
    - every row of the buffer whose pixel span meets the viewport lies in
      [[startIndex, endIndex)];
    - the interval reaches exactly [overscan] rows before the first and after
      the last such row, unless cut at 0 or at [totalRows];
    - [0 <= startIndex] and [endIndex <= totalRows] always;
    - [startIndex <= totalRows] holds exactly when [totalRows] is not negative
      and [floor(scrollTop / rowHeight) - overscan <= totalRows], which is so
      whenever the scroll position lies within the scrollable height
      [totalRows * rowHeight];
    - [0 <= endIndex] holds exactly when [totalRows] is not negative and
      [ceil((scrollTop + containerHeight) / rowHeight) + overscan] is not
      negative, which is so whenever the scroll position and the container
      height are not negative;
    - with [totalRows = 0], [endIndex <= 0], and [startIndex = 0] exactly
      when [floor(scrollTop / rowHeight) <= overscan], [endIndex = 0] exactly
      when [ceil((scrollTop + containerHeight) / rowHeight) + overscan >= 0]:
      both are 0 at [scrollTop = 0] under a container that is not negative. *)
Theorem useVirtualScroll_window cfg scrollTop :
  0 < rowHeight cfg -> 0 <= overscanOf cfg ->
  let w := useVirtualScroll cfg scrollTop in
  let first := floorDiv scrollTop (rowHeight cfg) in
  let last := ceilDiv (scrollTop + containerHeight cfg) (rowHeight cfg) in
  startIndex w = Z.max 0 (first - overscanOf cfg) /\
  endIndex w = Z.min (totalRows cfg) (last + overscanOf cfg) /\
  (forall i, rowIntersects (rowHeight cfg) scrollTop (containerHeight cfg) i <->
             first <= i < last) /\
  (forall i, 0 <= i < totalRows cfg ->
             rowIntersects (rowHeight cfg) scrollTop (containerHeight cfg) i ->
             startIndex w <= i < endIndex w) /\
  (overscanOf cfg <= first -> first - startIndex w = overscanOf cfg) /\
  (last + overscanOf cfg <= totalRows cfg -> endIndex w - last = overscanOf cfg) /\
  0 <= startIndex w /\
  endIndex w <= totalRows cfg /\
  (startIndex w <= totalRows cfg <->
   0 <= totalRows cfg /\ first - overscanOf cfg <= totalRows cfg) /\
  (0 <= totalRows cfg -> scrollTop <= totalRows cfg * rowHeight cfg ->
   startIndex w <= totalRows cfg) /\
  (0 <= endIndex w <-> 0 <= totalRows cfg /\ 0 <= last + overscanOf cfg) /\
  (0 <= totalRows cfg -> 0 <= scrollTop -> 0 <= containerHeight cfg -> 0 <= endIndex w) /\
  (totalRows cfg = 0 ->
   endIndex w <= 0 /\
   (startIndex w = 0 <-> first <= overscanOf cfg) /\
   (endIndex w = 0 <-> 0 <= last + overscanOf cfg) /\
   (scrollTop = 0 -> 0 <= containerHeight cfg -> startIndex w = 0 /\ endIndex w = 0)).
Proof.
  intros Hh Ho w first last. subst w. simpl.
  fold first last.
  pose proof (floorDiv_spec scrollTop (rowHeight cfg) Hh) as Hf. fold first in Hf.
  pose proof (ceilDiv_spec (scrollTop + containerHeight cfg) (rowHeight cfg) Hh) as Hc.
  fold last in Hc.
  split; [done|]. split; [done|].
  split; [intros i; by apply rowIntersects_iff|].
  split.
  { intros i Hi Hint. apply rowIntersects_iff in Hint; [|done].
    fold first last in Hint. lia. }
  split; [lia|]. split; [lia|]. split; [lia|]. split; [lia|].
  split; [lia|].
  split; [intros Ht Hle; assert (first <= totalRows cfg) by nia; lia|].
  split; [lia|].
  split.
  { intros Ht Hs HH. assert (0 <= last) by nia. lia. }
  intros Hz. split; [lia|]. split; [lia|]. split; [lia|].
  intros -> HH.
  assert (first = 0) by (subst first; unfold floorDiv; by rewrite Z.div_0_l by lia).
  assert (0 <= last) by nia. lia.
Qed.

Lemma useVirtualScroll_window_witness :
  let cfg := mkConfig 100 10 95 None in
  (0 < rowHeight cfg /\ 0 <= overscanOf cfg) /\
  startIndex (useVirtualScroll cfg 205) = 10 /\
  endIndex (useVirtualScroll cfg 205) = 40 /\
  0 <= startIndex (useVirtualScroll cfg 205) /\
  endIndex (useVirtualScroll cfg 205) <= totalRows cfg.
Proof.
  cbv zeta. split; [split; [simpl; lia | unfold overscanOf; simpl; lia]|].
  pose proof (useVirtualScroll_window (mkConfig 100 10 95 None) 205
                ltac:(simpl; lia) ltac:(unfold overscanOf; simpl; lia)) as H.
  cbv zeta in H. destruct H as (H1 & H2 & _ & _ & _ & _ & H7 & H8 & _).
  split; [rewrite H1; reflexivity|]. split; [rewrite H2; reflexivity|].
  split; [exact H7 | exact H8].
Defined.

End WindowingFacts.

(** ** The frame-gated scroll handler *)

Section ScrollHandlerFacts.
Import Windowing.

(** While a frame is pending, scroll updates are dropped. *)
Lemma run_scrolls_ticking st vs :
  ticking st = true -> run st (List.map Scroll vs) = st.
Proof.
  intros Ht. induction vs as [|v vs IH]; [done|].
  change (run (handleScroll v st) (List.map Scroll vs) = st).
  unfold handleScroll. by rewrite Ht.
Qed.

(** C7, where the claim fails.  Two scroll updates, to 100 and then to 2000,
    arrive before the frame fires: the frame installs 100, the update to 2000
    is lost, and the window is the one of the earlier position. *)
Lemma handleScroll_keeps_first_update :
  let cfg := mkConfig 1000 10 100 (Some 0) in
  let st := run initialHook [Scroll 100; Scroll 2000; Frame] in
  scrollTop st = 100 /\
  scrollTop st <> 2000 /\
  window cfg st = useVirtualScroll cfg 100 /\
  window cfg st <> useVirtualScroll cfg 2000.
Proof.
  cbv zeta. repeat split; try reflexivity; vm_compute; discriminate.
Qed.

(** C7, as the code has it.  Starting with no frame pending, any burst of
    scroll updates followed by the animation frame leaves the hook with the
    FIRST position of the burst: the first update schedules the only frame
    callback and closes over its own value, the later ones are discarded.
    The window rendered after the frame is the one of that first position,
    and at most one callback was ever queued. *)
Theorem handleScroll_frame_reflects_first cfg st v vs :
  ticking st = false -> frameQueue st = [] ->
  let pending := run st (List.map Scroll (v :: vs)) in
  let st' := run pending [Frame] in
  frameQueue pending = [v] /\
  scrollTop st' = v /\ ticking st' = false /\ frameQueue st' = [] /\
  window cfg st' = useVirtualScroll cfg v.
Proof.
  intros Ht Hq pending st'.
  assert (Hp : pending = mkHook (scrollTop st) true [v]).
  { subst pending.
    change (run (handleScroll v st) (List.map Scroll vs) = mkHook (scrollTop st) true [v]).
    unfold handleScroll. rewrite Ht, Hq. simpl. by apply run_scrolls_ticking. }
  subst st'. rewrite Hp. by cbn.
Qed.

Lemma handleScroll_frame_reflects_first_witness :
  scrollTop (run (run initialHook (List.map Scroll [100; 2000; 300])) [Frame]) = 100.
Proof.
  pose proof (handleScroll_frame_reflects_first (mkConfig 1000 10 100 (Some 0))
                initialHook 100 [2000; 300] eq_refl eq_refl) as H.
  cbv zeta in H. exact (proj1 (proj2 H)).
Defined.

End ScrollHandlerFacts.

(** ** Data Window Store *)

Section StoreFacts.
Import Data Store.

(** *** The visible projection *)

Lemma indexOf_Some l s i : indexOf l s = Some i -> l !! i = Some s.
Proof.
  revert i. induction l as [|x l IH]; intros i; simpl; [done|].
  destruct (String.eqb_spec x s) as [->|Hne].
  - by intros [= <-].
  - destruct (indexOf l s) as [j|] eqn:Hj; simpl; [|done].
    intros [= <-]. simpl. by apply IH.
Qed.

Lemma indexOf_None l s : indexOf l s = None <-> s ∉ l.
Proof.
  induction l as [|x l IH]; simpl.
  - split; [intros _; apply not_elem_of_nil | done].
  - destruct (String.eqb_spec x s) as [->|Hne].
    + split; [done|]. intros H. exfalso. apply H. left.
    + destruct (indexOf l s) as [j|] eqn:Hj; simpl.
      * split; [done|]. intros H. exfalso.
        assert (s ∉ l) as Hn by (intros Hin; apply H; by right).
        apply IH in Hn. done.
      * split; [|done]. intros _ Hin.
        apply elem_of_cons in Hin as [->|Hin]; [done|].
        by apply (proj1 IH).
Qed.

(** The columns kept by [filterVisibleData] are the requested names, in
    order, that occur among the fetched columns. *)
Lemma filterVisibleData_columns allColumns allData dims ms :
  visibleColumnsOf (filterVisibleData allColumns allData dims ms) =
  List.filter (fun c => bool_decide (c ∈ allColumns)) (dims ++ ms).
Proof.
  unfold filterVisibleData. simpl.
  induction (dims ++ ms) as [|c l IH]; simpl; [done|].
  destruct (indexOf allColumns c) as [i|] eqn:Hi; simpl.
  - apply indexOf_Some in Hi as Hl.
    rewrite bool_decide_eq_true_2 by (by eapply list_elem_of_lookup_2).
    f_equal; [unfold strAt; by rewrite Hl | exact IH].
  - apply indexOf_None in Hi.
    rewrite bool_decide_eq_false_2 by done. done.
Qed.

(** Each kept index points at the column of the same position. *)
Lemma filterVisibleData_indices allColumns allData dims ms :
  let v := filterVisibleData allColumns allData dims ms in
  Forall2 (fun c idx => allColumns !! idx = Some c /\ indexOf allColumns c = Some idx)
          (visibleColumnsOf v) (columnIndices v).
Proof.
  unfold filterVisibleData. simpl.
  induction (dims ++ ms) as [|c l IH]; simpl; [constructor|].
  destruct (indexOf allColumns c) as [i|] eqn:Hi; simpl; [|done].
  constructor; [|done].
  apply indexOf_Some in Hi as Hl. unfold strAt. rewrite Hl. simpl. done.
Qed.

Lemma filterVisibleData_data allColumns allData dims ms :
  let v := filterVisibleData allColumns allData dims ms in
  length (visibleData v) = length allData /\
  forall r row, allData !! r = Some row ->
    visibleData v !! r = Some (List.map (rowGet row) (columnIndices v)).
Proof.
  unfold filterVisibleData. simpl. split.
  - by rewrite length_map.
  - intros r row Hr.
    change (List.map ?f allData) with (f <$> allData).
    rewrite list_lookup_fmap, Hr. done.
Qed.

Lemma indexOf_split l m i :
  indexOf l m = Some i ->
  exists l1 l2, l = l1 ++ m :: l2 /\ (m ∉ l1) /\ delete i l = l1 ++ l2.
Proof.
  revert i. induction l as [|x l IH]; intros i; simpl; [done|].
  destruct (String.eqb_spec x m) as [->|Hne].
  - intros [= <-]. exists [], l. split; [done|]. split; [apply not_elem_of_nil | done].
  - destruct (indexOf l m) as [j|] eqn:Hj; simpl; [|done].
    intros [= <-]. destruct (IH j eq_refl) as (l1 & l2 & -> & Hn & Hd).
    exists (x :: l1), l2. split; [done|]. split.
    + intros Hin. apply elem_of_cons in Hin as [->|Hin]; done.
    + simpl. by rewrite Hd.
Qed.

Lemma refilter_frame ms s :
  let s' := refilter ms s in
  selectedDimensions s' = selectedDimensions s /\ selectedMetrics s' = selectedMetrics s /\
  allColumns s' = allColumns s /\ allColumnTypes s' = allColumnTypes s /\
  allData s' = allData s /\ loadedRanges s' = loadedRanges s /\
  totalRows s' = totalRows s /\ isLoading s' = isLoading s /\
  isPrefetching s' = isPrefetching s /\ error s' = error s /\ metadata s' = metadata s.
Proof. by repeat split. Qed.

Lemma length_pos_nonempty {A} (l : list A) : l <> [] -> (0 <? length l)%nat = true.
Proof. destruct l; [done|]. intros _. done. Qed.

(** *** C6: changing the metric selection *)

(** The collaborator calls of the refresh effect depend on the state only
    through what the effect tests and what the request is built from. *)
Lemma refreshEffect_calls_frame queryRaw s s' :
  metadata s' = metadata s -> needsDataRefresh s' = needsDataRefresh s ->
  selectedDimensions s' = selectedDimensions s -> filters s' = filters s ->
  sort s' = sort s -> searchText s' = searchText s -> comparison s' = comparison s ->
  snd (Reducers.refreshEffect queryRaw s') = snd (Reducers.refreshEffect queryRaw s).
Proof.
  intros Hm Hn Hd Hf Hso Hse Hc. unfold Reducers.refreshEffect.
  rewrite Hm, Hn, Hd.
  destruct (bool_decide (is_Some (metadata s)) && needsDataRefresh s
            && (0 <? length (selectedDimensions s))%nat); [|done].
  assert (Hcalls : forall t, snd (dispatch queryRaw FetchInitialData t)
                    = snd (runThunk queryRaw (fetchInitialData (fetchInitialData_pending t)))).
  { intros t. unfold dispatch.
    by destruct (runThunk queryRaw (fetchInitialData (fetchInitialData_pending t))). }
  rewrite !Hcalls. f_equal. f_equal.
  unfold fetchInitialData, fetchInitialData_pending.
  change (metadata (s' |> set_isLoading true |> set_error None
                      |> set_currentQueryId (currentQueryId s' + 1))) with (metadata s').
  change (metadata (s |> set_isLoading true |> set_error None
                      |> set_currentQueryId (currentQueryId s + 1))) with (metadata s).
  rewrite Hm. destruct (metadata s); [|done].
  cbn [selectedDimensions filters sort searchText comparison
       set_isLoading set_error set_currentQueryId].
  by rewrite Hd, Hf, Hso, Hse, Hc.
Qed.

(** C6.  On a non-empty buffer, dispatching [setSelectedMetrics] or
    [toggleMetric] changes the metric selection and the visible projection
    and nothing else, and causes no fetch.
    - The dispatch itself makes no call of the query-execution collaborator.
    - The new selection is the payload (resp. the old selection with the
      metric appended when absent, or with its first occurrence removed).
    - The visible columns are the selected dimensions followed by the
      selected metrics, in selection order, restricted to the fetched column
      names; the visible data is, row by row, the slice of the buffered row
      at the positions of those columns; each visible column gets the
      fetched type at its position.
    - Every other field of the store is unchanged: the full buffer, the
      fetched columns and types, the loaded ranges, [totalRows], the flags,
      the error, the metadata, filters, sort, search text, comparison, and
      [needsDataRefresh].
    - Hence the refresh effect, which fetches on [needsDataRefresh], sees
      unchanged dependencies, and run on the new store it makes exactly the
      calls it would have made on the old one: none when no refresh was
      pending. *)
Theorem metric_selection_is_projection queryRaw a s :
  isMetricAction a -> allData s <> [] ->
  let s' := fst (dispatch queryRaw a s) in
  let v := filterVisibleData (allColumns s) (allData s) (selectedDimensions s)
             (selectedMetrics s') in
  snd (dispatch queryRaw a s) = [] /\
  (forall ms, a = SetSelectedMetrics ms -> selectedMetrics s' = ms) /\
  (forall m, a = ToggleMetric m ->
     (m ∉ selectedMetrics s -> selectedMetrics s' = selectedMetrics s ++ [m]) /\
     (m ∈ selectedMetrics s ->
      exists l1 l2, selectedMetrics s = l1 ++ m :: l2 /\ (m ∉ l1) /\
                    selectedMetrics s' = l1 ++ l2)) /\
  columns s' = List.filter (fun c => bool_decide (c ∈ allColumns s))
                 (selectedDimensions s ++ selectedMetrics s') /\
  Forall2 (fun c idx => allColumns s !! idx = Some c) (columns s') (columnIndices v) /\
  length (data s') = length (allData s) /\
  (forall r row, allData s !! r = Some row ->
     data s' !! r = Some (List.map (rowGet row) (columnIndices v))) /\
  Forall2 (fun idx t => t = strAt (allColumnTypes s) idx) (columnIndices v) (columnTypes s') /\
  (allData s' = allData s /\ allColumns s' = allColumns s /\
   allColumnTypes s' = allColumnTypes s /\
   selectedDimensions s' = selectedDimensions s /\
   loadedRanges s' = loadedRanges s /\ totalRows s' = totalRows s /\
   isLoading s' = isLoading s /\ isPrefetching s' = isPrefetching s /\
   error s' = error s /\ metadata s' = metadata s /\
   filters s' = filters s /\ sort s' = sort s /\ searchText s' = searchText s /\
   comparison s' = comparison s /\ cached s' = cached s /\
   queryTimeMs s' = queryTimeMs s /\ visibleColumns s' = visibleColumns s /\
   visibleColumnTypes s' = visibleColumnTypes s /\
   lastScrollPosition s' = lastScrollPosition s /\
   currentQueryId s' = currentQueryId s /\
   needsDataRefresh s' = needsDataRefresh s) /\
  (forall queryRaw',
     snd (Reducers.refreshEffect queryRaw' s') = snd (Reducers.refreshEffect queryRaw' s)) /\
  (needsDataRefresh s = false ->
   forall queryRaw', snd (Reducers.refreshEffect queryRaw' s') = []).
Proof.
  intros Ha Hne.
  assert (Hshape : exists ms,
    dispatch queryRaw a s = (refilter ms (set_selectedMetrics ms s), []) /\
    (forall ms', a = SetSelectedMetrics ms' -> ms = ms') /\
    (forall m, a = ToggleMetric m ->
       (m ∉ selectedMetrics s -> ms = selectedMetrics s ++ [m]) /\
       (m ∈ selectedMetrics s ->
        exists l1 l2, selectedMetrics s = l1 ++ m :: l2 /\ (m ∉ l1) /\ ms = l1 ++ l2))).
  { destruct a as [| ms | m | |]; simpl in Ha; try done.
    - exists ms. simpl. unfold setSelectedMetrics. simpl.
      rewrite (length_pos_nonempty _ Hne).
      split; [done|]. split; [by intros ? [= ->] | intros ? [=]].
    - simpl. unfold toggleMetric.
      destruct (indexOf (selectedMetrics s) m) as [i|] eqn:Hi; simpl;
        rewrite (length_pos_nonempty _ Hne).
      + exists (delete i (selectedMetrics s)). split; [done|].
        split; [intros ? [=]|]. intros ? [= <-].
        destruct (indexOf_split _ _ _ Hi) as (l1 & l2 & Hl & Hn & Hd).
        split; [|by exists l1, l2].
        intros Habs. exfalso. apply Habs. rewrite Hl.
        apply elem_of_app. right. left.
      + exists (selectedMetrics s ++ [m]). split; [done|].
        split; [intros ? [=]|]. intros ? [= <-].
        split; [done|]. intros Hin. by apply indexOf_None in Hi. }
  destruct Hshape as (ms & Hd & Hset & Htog).
  rewrite Hd. cbn [fst snd].
  assert (Hsel : selectedMetrics (refilter ms (set_selectedMetrics ms s)) = ms) by done.
  rewrite Hsel.
  assert (Hframe :
    metadata (refilter ms (set_selectedMetrics ms s)) = metadata s /\
    needsDataRefresh (refilter ms (set_selectedMetrics ms s)) = needsDataRefresh s /\
    selectedDimensions (refilter ms (set_selectedMetrics ms s)) = selectedDimensions s /\
    filters (refilter ms (set_selectedMetrics ms s)) = filters s /\
    sort (refilter ms (set_selectedMetrics ms s)) = sort s /\
    searchText (refilter ms (set_selectedMetrics ms s)) = searchText s /\
    comparison (refilter ms (set_selectedMetrics ms s)) = comparison s) by by repeat split.
  destruct Hframe as (F1 & F2 & F3 & F4 & F5 & F6 & F7).
  assert (Heff : forall queryRaw',
            snd (Reducers.refreshEffect queryRaw' (refilter ms (set_selectedMetrics ms s)))
            = snd (Reducers.refreshEffect queryRaw' s)).
  { intros q. by apply refreshEffect_calls_frame. }
  split; [done|]. split; [done|]. split; [done|].
  split; [apply filterVisibleData_columns|].
  split.
  { eapply Forall2_impl; [apply filterVisibleData_indices|]. by intros ? ? [? _]. }
  split; [apply filterVisibleData_data|].
  split; [apply filterVisibleData_data|].
  split.
  { change (columnTypes (refilter ms (set_selectedMetrics ms s)))
      with (typesOf (allColumns s) (allColumnTypes s)
              (visibleColumnsOf (filterVisibleData (allColumns s) (allData s)
                                   (selectedDimensions s) ms))).
    unfold typesOf. apply Forall2_fmap_r.
    pose proof (filterVisibleData_indices (allColumns s) (allData s)
                  (selectedDimensions s) ms) as Hidx.
    apply Forall2_flip. eapply Forall2_impl; [exact Hidx|].
    intros c idx [Hc Hi]. simpl. by rewrite Hi. }
  split; [by repeat split|].
  split; [done|].
  intros Hno q. rewrite Heff. unfold Reducers.refreshEffect.
  by rewrite Hno, andb_false_r.
Qed.

Lemma metric_selection_is_projection_witness :
  let s := initialState
             |> set_allColumns ["master_brand_id"; "ads_spend"; "ads_sale"]%string
             |> set_allData [[CStr "b1"; CNum 10; CNum 20]] in
  (isMetricAction (ToggleMetric "ads_spend"%string) /\ allData s <> []) /\
  columns (fst (dispatch (fun _ _ => QueryFailed None) (ToggleMetric "ads_spend"%string) s))
    = ["master_brand_id"; "ads_sale"]%string.
Proof.
  cbv zeta. split; [split; [exact I | discriminate]|].
  pose proof (metric_selection_is_projection (fun _ _ => QueryFailed None)
                (ToggleMetric "ads_spend"%string)
                (initialState
                   |> set_allColumns ["master_brand_id"; "ads_spend"; "ads_sale"]%string
                   |> set_allData [[CStr "b1"; CNum 10; CNum 20]])
                I ltac:(discriminate)) as H.
  cbv zeta in H. destruct H as (_ & _ & _ & Hc & _).
  rewrite Hc. vm_compute. reflexivity.
Defined.

End StoreFacts.

(** *** C8: rejected fetches *)

Section RejectedFacts.
Import Data Store.

Lemma isCancelled_iff msg :
  isCancelled msg = true <-> msg = Some "Request cancelled"%string.
Proof.
  destruct msg as [m|]; simpl; [|done].
  destruct (String.eqb_spec m "Request cancelled") as [->|Hne]; [done|].
  split; [done|]. by intros [= ->].
Qed.

(** C8, where the claim fails.  A range fetch rejected with a transport
    failure (not a cancellation) leaves [error] as it was, empty here, while
    the same failure of the initial fetch is stored. *)
Lemma fetchDataRange_rejected_keeps_error :
  isCancelled (Some "Network Error"%string) = false /\
  error initialState = None /\
  error (fetchDataRange_rejected (Some "Network Error"%string) initialState) = None /\
  error (fetchInitialData_rejected (Some "Network Error"%string) initialState)
    = Some "Network Error"%string.
Proof. by repeat split. Qed.

(** C8, as the code has it.  A rejected initial fetch stores an error (the
    message, or the fallback text when there is none) exactly when the cause
    is not ["Request cancelled"], and leaves [error] alone otherwise; a
    rejected range fetch never touches [error], whatever the cause.  Both
    clear the loading flags and leave the buffer, the loaded ranges,
    [totalRows] and the visible projection, hence the spans computed from it,
    unchanged. *)
Theorem rejected_fetch_effects msg s :
  let s1 := fetchInitialData_rejected msg s in
  let s2 := fetchDataRange_rejected msg s in
  error s1 = (if isCancelled msg then error s
              else Some (default "Failed to fetch data"%string msg)) /\
  error s2 = error s /\
  (allData s1 = allData s /\ loadedRanges s1 = loadedRanges s /\
   totalRows s1 = totalRows s /\ data s1 = data s /\ columns s1 = columns s) /\
  (allData s2 = allData s /\ loadedRanges s2 = loadedRanges s /\
   totalRows s2 = totalRows s /\ data s2 = data s /\ columns s2 = columns s) /\
  (forall dimensionCount,
     RowSpan.spanMap (RowSpan.mkRowSpanConfig (data s1) dimensionCount (columns s1)) =
     RowSpan.spanMap (RowSpan.mkRowSpanConfig (data s) dimensionCount (columns s)) /\
     RowSpan.spanMap (RowSpan.mkRowSpanConfig (data s2) dimensionCount (columns s2)) =
     RowSpan.spanMap (RowSpan.mkRowSpanConfig (data s) dimensionCount (columns s))) /\
  isLoading s1 = false /\ isLoading s2 = false /\ isPrefetching s2 = false.
Proof.
  cbv zeta. unfold fetchInitialData_rejected, fetchDataRange_rejected.
  destruct (isCancelled msg); simpl; by repeat split.
Qed.

End RejectedFacts.

(** *** C2: a request for a range that is already loaded *)

Section LoadedRangeFacts.
Import Data Store.

(** What [requestRange] does on a loaded range: no collaborator call, and the
    store after [pending] and [fulfilled(null)]. *)
Lemma requestRange_loaded queryRaw offset limit isPrefetch s md :
  metadata s = Some md ->
  isRangeLoaded (loadedRanges s) offset limit = true ->
  requestRange queryRaw offset limit isPrefetch s =
  (if isPrefetch then s |> set_isPrefetching false
   else s |> set_isLoading true |> set_isPrefetching false, []).
Proof.
  intros Hmd Hl. unfold requestRange, dispatch, fetchDataRange, fetchDataRange_pending.
  destruct isPrefetch; simpl; rewrite Hmd; simpl; rewrite Hl; reflexivity.
Qed.

(** On a loaded range nothing but the two flags can change. *)
Lemma requestRange_loaded_frame queryRaw offset limit isPrefetch s md :
  metadata s = Some md ->
  isRangeLoaded (loadedRanges s) offset limit = true ->
  let r := requestRange queryRaw offset limit isPrefetch s in
  snd r = [] /\
  allData (fst r) = allData s /\ loadedRanges (fst r) = loadedRanges s /\
  totalRows (fst r) = totalRows s /\ data (fst r) = data s /\
  columns (fst r) = columns s /\ error (fst r) = error s /\
  isPrefetching (fst r) = false /\
  isLoading (fst r) = (if isPrefetch then isLoading s else true).
Proof.
  intros Hmd Hl. cbv zeta. rewrite (requestRange_loaded _ _ _ _ _ _ Hmd Hl).
  destruct isPrefetch; cbn; repeat split; reflexivity.
Qed.

(** C2, at the input where the code leaves the claim.  After an initial load
    of two rows the range [0, 2) is tracked and no flag is set.  A foreground
    [requestRange(0, 2, false)] makes no collaborator call and leaves buffer,
    ranges and [totalRows] alone, but [pending] has raised [isLoading] and the
    [fulfilled] branch for the skipped fetch only lowers [isPrefetching]:
    [isLoading] stays true.  The same request as a prefetch restores the
    state. *)
Theorem requestRange_loaded_leaves_isLoading queryRaw :
  let response := mkResponse ["master_brand_id"; "ads_spend"]%string ["varchar"; "double"]%string
                    [[CStr "a"; CNum 1]; [CStr "b"; CNum 2]] 2 5 false in
  let s := fetchInitialData_fulfilled (mkInitialPayload response ["ads_spend"%string])
             (initialState |> set_metadata (Some (mkMetadata "t" [] []))) in
  isRangeLoaded (loadedRanges s) 0 2 = true /\
  isLoading s = false /\ isPrefetching s = false /\
  snd (requestRange queryRaw 0 2 false s) = [] /\
  allData (fst (requestRange queryRaw 0 2 false s)) = allData s /\
  loadedRanges (fst (requestRange queryRaw 0 2 false s)) = loadedRanges s /\
  totalRows (fst (requestRange queryRaw 0 2 false s)) = totalRows s /\
  isLoading (fst (requestRange queryRaw 0 2 false s)) = true /\
  requestRange queryRaw 0 2 true s = (s, []).
Proof. vm_compute. repeat (split; [reflexivity|]). reflexivity. Qed.

End LoadedRangeFacts.

(** *** C10 and C5: a fulfilled range fetch, append then eviction *)

Section FulfilledFacts.
Import Data Store.

Lemma appendAndTrack_allData p s :
  allData (appendAndTrack p s) = allData s ++ respData (rpResponse p).
Proof. unfold appendAndTrack. by destruct (rpIsPrefetch p). Qed.

Lemma appendAndTrack_loadedRanges p s :
  loadedRanges (appendAndTrack p s) =
  addRange (loadedRanges s) (rpOffset p)
    (rpOffset p + Z.of_nat (length (respData (rpResponse p)))).
Proof. unfold appendAndTrack. by destruct (rpIsPrefetch p). Qed.

Lemma appendAndTrack_frame p s :
  allColumns (appendAndTrack p s) = allColumns s /\
  selectedDimensions (appendAndTrack p s) = selectedDimensions s /\
  selectedMetrics (appendAndTrack p s) = selectedMetrics s.
Proof. unfold appendAndTrack. by destruct (rpIsPrefetch p). Qed.

Lemma evict_below s :
  Z.of_nat (length (allData s)) <= MAX_CACHED_ROWS -> evict s = s.
Proof.
  intros H. unfold evict.
  destruct (Z.gtb_spec (Z.of_nat (length (allData s))) MAX_CACHED_ROWS); [lia | done].
Qed.

Lemma evict_above s :
  Z.of_nat (length (allData s)) > MAX_CACHED_ROWS ->
  let excessRows := Z.of_nat (length (allData s)) - MAX_CACHED_ROWS in
  allData (evict s) = drop (Z.to_nat excessRows) (allData s) /\
  loadedRanges (evict s) = shiftRanges excessRows (loadedRanges s) /\
  data (evict s) =
    visibleData (filterVisibleData (allColumns s) (drop (Z.to_nat excessRows) (allData s))
                   (selectedDimensions s) (selectedMetrics s)).
Proof.
  intros H. unfold evict.
  destruct (Z.gtb_spec (Z.of_nat (length (allData s))) MAX_CACHED_ROWS); [done | lia].
Qed.

Lemma shiftRanges_elem e l r' :
  r' ∈ shiftRanges e l <->
  exists r, r ∈ l /\
            r' = mkRange (Z.max 0 (start r - e)) (Z.max 0 (end_ r - e)) /\
            start r' < end_ r'.
Proof.
  unfold shiftRanges. rewrite list_elem_of_In, filter_In, in_map_iff. split.
  - intros [(r & <- & Hr) Hlt]. exists r. rewrite list_elem_of_In.
    split; [done|]. split; [done|]. simpl in *. lia.
  - intros (r & Hr & -> & Hlt). rewrite list_elem_of_In in Hr. split.
    + by exists r.
    + simpl in *. lia.
Qed.

Lemma shiftRanges_bounds e l :
  Forall (fun r => 0 <= start r < end_ r) (shiftRanges e l).
Proof.
  apply Forall_forall. intros r' Hr'.
  apply shiftRanges_elem in Hr' as (r & _ & -> & Hlt). simpl in *. lia.
Qed.

(** C10, where the claim fails.  A buffer of 10000 rows tracked as
    [[0, 10000)] receives 2 rows for offset 10000.  In the store the reducer
    returns, the two rows stand at the indices 9998 and 9999, not at 10000 and
    10001, and the tracked range is [[0, 10000)]: the requested range
    [[10000, 10002)] is not reported loaded. *)
Lemma fulfilled_tail_moves_with_eviction :
  let p := mkRangePayload (mkResponse [] [] [[CNum 7]; [CNum 8]] 20000 1 false) 10000 false in
  let s := initialState |> set_allData (repeat [CNum 1] (Z.to_nat 10000))
                        |> set_loadedRanges [mkRange 0 10000] in
  let s' := fetchDataRange_fulfilled (Some p) s in
  Z.of_nat (length (allData s)) = 10000 /\
  allData s' !! Z.to_nat 10000 = None /\ allData s' !! Z.to_nat 10001 = None /\
  allData s' !! Z.to_nat 9998 = Some [CNum 7] /\ allData s' !! Z.to_nat 9999 = Some [CNum 8] /\
  loadedRanges s' = [mkRange 0 10000] /\
  isRangeLoaded (loadedRanges s') 10000 2 = false.
Proof.
  cbv zeta. vm_compute. repeat (split; [reflexivity|]). reflexivity.
Qed.

(** C10, as the code has it.  Let [excess] be the number of rows by which
    the buffer with the received rows appended exceeds [MAX_CACHED_ROWS] (0
    when it does not).  In the store that a fulfilled range fetch with data
    returns:
    - the buffer is what is left of the old buffer after dropping [excess]
      rows from its front, followed by the received rows (short of those
      that the eviction reached): the received rows are at the tail whatever
      the requested offset was;
    - the received row [i] stands at the index [bufferLength + i - excess],
      and the old row [i] at [i - excess];
    - the tracked ranges are the old ones with
      [[offset, offset + received.length)] merged in and, when rows were
      evicted, shifted down by [excess]; the request is then recorded as
      [[max(0, offset - excess), offset + received.length - excess)];
    - when nothing is evicted these are the indices
      [[bufferLength, bufferLength + received.length)] and the range
      [[offset, offset + received.length)] of the claim;
    - the index of a received row equals its server offset only when
      [offset = bufferLength - excess]. *)
Theorem fulfilled_appends_at_tail p s :
  let newData := respData (rpResponse p) in
  let n := Z.of_nat (length newData) in
  let len := length (allData s) in
  let excess := Z.to_nat (Z.of_nat (len + length newData) - MAX_CACHED_ROWS) in
  let merged := addRange (loadedRanges s) (rpOffset p) (rpOffset p + n) in
  let s' := fetchDataRange_fulfilled (Some p) s in
  allData s' = drop excess (allData s) ++ drop (excess - len) newData /\
  Z.of_nat (length (allData s')) = Z.min (Z.of_nat (len + length newData)) MAX_CACHED_ROWS /\
  (forall i, (i < length newData)%nat -> (excess <= len + i)%nat ->
     allData s' !! (len + i - excess)%nat = newData !! i) /\
  (forall i, (excess <= i < len)%nat -> allData s' !! (i - excess)%nat = allData s !! i) /\
  loadedRanges s' =
    (if decide (excess = 0%nat) then merged else shiftRanges (Z.of_nat excess) merged) /\
  (let a := Z.max 0 (rpOffset p - Z.of_nat excess) in
   let b := rpOffset p + n - Z.of_nat excess in
   (0 < excess)%nat -> a < b -> isRangeLoaded (loadedRanges s') a (b - a) = true) /\
  totalRows s' = respTotalRows (rpResponse p) /\
  (excess = 0%nat ->
   allData s' = allData s ++ newData /\
   (forall i, (i < length newData)%nat -> allData s' !! (len + i)%nat = newData !! i) /\
   loadedRanges s' = merged /\
   isRangeLoaded (loadedRanges s') (rpOffset p) n = true) /\
  (forall i : nat,
     Z.of_nat (len + i) - Z.of_nat excess = rpOffset p + Z.of_nat i <->
     rpOffset p = Z.of_nat len - Z.of_nat excess).
Proof.
  intros newData n len excess merged s'.
  assert (Hmid : allData (appendAndTrack p s) = allData s ++ newData)
    by apply appendAndTrack_allData.
  assert (Hranges : loadedRanges (appendAndTrack p s) = merged)
    by apply appendAndTrack_loadedRanges.
  assert (Htot : totalRows (appendAndTrack p s) = respTotalRows (rpResponse p)).
  { unfold appendAndTrack. by destruct (rpIsPrefetch p). }
  assert (Hlen : length (allData s ++ newData) = (len + length newData)%nat)
    by (by rewrite length_app).
  assert (Hstore :
    allData s' = drop excess (allData s ++ newData) /\
    loadedRanges s' =
      (if decide (excess = 0%nat) then merged else shiftRanges (Z.of_nat excess) merged) /\
    totalRows s' = respTotalRows (rpResponse p)).
  { subst s'. change (fetchDataRange_fulfilled (Some p) s) with (evict (appendAndTrack p s)).
    destruct (decide (excess = 0%nat)) as [Hz|Hnz].
    - rewrite evict_below by (rewrite Hmid, Hlen; unfold MAX_CACHED_ROWS in *; lia).
      rewrite Hz, drop_0. done.
    - assert (Hgt : Z.of_nat (length (allData (appendAndTrack p s))) > MAX_CACHED_ROWS)
        by (rewrite Hmid, Hlen; unfold MAX_CACHED_ROWS in *; lia).
      destruct (evict_above _ Hgt) as (Ha & Hr & _).
      rewrite Hmid, Hlen in Ha, Hr. fold excess in Ha.
      replace (Z.of_nat (len + length newData) - MAX_CACHED_ROWS)
        with (Z.of_nat excess) in Hr by (unfold MAX_CACHED_ROWS in *; lia).
      rewrite Hranges in Hr.
      split; [done|]. split; [done|].
      unfold evict.
      destruct (Z.gtb_spec (Z.of_nat (length (allData (appendAndTrack p s))))
                  MAX_CACHED_ROWS); [done | lia]. }
  destruct Hstore as (Ha & Hr & Ht).
  split; [by rewrite Ha, skipn_app|].
  split; [rewrite Ha, length_drop, Hlen; unfold MAX_CACHED_ROWS in *; lia|].
  split.
  { intros i Hi Hex. rewrite Ha, lookup_drop.
    replace (excess + (len + i - excess))%nat with (len + i)%nat by lia.
    by rewrite lookup_app_r, Nat.add_comm, Nat.add_sub by lia. }
  split.
  { intros i Hi. rewrite Ha, lookup_drop.
    replace (excess + (i - excess))%nat with i by lia.
    by rewrite lookup_app_l by lia. }
  split; [done|].
  split.
  { intros a b Hpos Hab. rewrite Hr. rewrite decide_False by lia.
    destruct (mergeRanges_contains (loadedRanges s ++ [mkRange (rpOffset p) (rpOffset p + n)])
                (mkRange (rpOffset p) (rpOffset p + n))) as (r & Hin & Hs & He).
    { apply elem_of_app. right. by apply list_elem_of_singleton. }
    simpl in Hs, He.
    apply (isRangeLoaded_contains _
             (mkRange (Z.max 0 (start r - Z.of_nat excess))
                      (Z.max 0 (end_ r - Z.of_nat excess)))).
    - apply shiftRanges_elem. exists r. split; [exact Hin|]. split; [done|].
      simpl. subst a b. lia.
    - simpl. subst a. lia.
    - simpl. subst a b. lia. }
  split; [done|].
  split.
  { intros Hz. rewrite Hz in Ha. rewrite drop_0 in Ha.
    rewrite Hr, decide_True by done.
    split; [done|].
    split; [intros i Hi; rewrite Ha; by rewrite lookup_app_r, Nat.add_comm, Nat.add_sub by lia|].
    split; [done|]. apply isRangeLoaded_addRange. }
  intros i. lia.
Qed.

(** A prefetch answered for offset 40 into a buffer of three rows: the rows
    land at the indices 3 and 4 and the tracked range is [[40, 42)]. *)
Lemma fulfilled_appends_at_tail_witness :
  let p := mkRangePayload (mkResponse [] [] [[CNum 7]; [CNum 8]] 50 1 false) 40 true in
  let s := initialState |> set_allData [[CNum 1]; [CNum 2]; [CNum 3]] in
  allData (fetchDataRange_fulfilled (Some p) s) !! 4%nat = Some [CNum 8] /\
  loadedRanges (fetchDataRange_fulfilled (Some p) s) = [mkRange 40 42].
Proof.
  cbv zeta.
  pose proof (fulfilled_appends_at_tail
                (mkRangePayload (mkResponse [] [] [[CNum 7]; [CNum 8]] 50 1 false) 40 true)
                (initialState |> set_allData [[CNum 1]; [CNum 2]; [CNum 3]])) as H.
  cbv zeta in H. destruct H as (_ & _ & _ & _ & _ & _ & _ & Hfin & _).
  destruct Hfin as (_ & Hrow & Hr & _); [vm_compute; reflexivity|].
  split; [exact (Hrow 1%nat ltac:(simpl; lia)) | rewrite Hr; reflexivity].
Defined.

(** C5.  When the append makes the buffer longer than [MAX_CACHED_ROWS], the
    fulfilled reducer drops exactly [excess = length - MAX_CACHED_ROWS] rows
    from the front, so that the buffer has [MAX_CACHED_ROWS] rows and the row
    that stood at index [j >= excess] now stands at [j - excess] (the rows
    just received fill the tail as long as they are not more than the ceiling
    themselves); the tracked ranges are the merged ranges with [excess]
    subtracted from both bounds, clamped at 0, the ranges with
    [end <= start] removed; every range left has [0 <= start < end]. *)
Theorem eviction_trims_head p s :
  let newData := respData (rpResponse p) in
  let buffer := allData s ++ newData in
  let excess := Z.of_nat (length buffer) - MAX_CACHED_ROWS in
  let merged := addRange (loadedRanges s) (rpOffset p)
                  (rpOffset p + Z.of_nat (length newData)) in
  let s' := fetchDataRange_fulfilled (Some p) s in
  Z.of_nat (length buffer) > MAX_CACHED_ROWS ->
  allData s' = drop (Z.to_nat excess) buffer /\
  Z.of_nat (length (allData s')) = MAX_CACHED_ROWS /\
  (forall j, (Z.to_nat excess <= j)%nat -> allData s' !! (j - Z.to_nat excess)%nat = buffer !! j) /\
  (Z.of_nat (length newData) <= MAX_CACHED_ROWS ->
   forall i, allData s' !! (Z.to_nat MAX_CACHED_ROWS - length newData + i)%nat = newData !! i) /\
  loadedRanges s' = shiftRanges excess merged /\
  (forall r', r' ∈ loadedRanges s' <->
     exists r, r ∈ merged /\
               r' = mkRange (Z.max 0 (start r - excess)) (Z.max 0 (end_ r - excess)) /\
               start r' < end_ r') /\
  Forall (fun r => 0 <= start r < end_ r) (loadedRanges s') /\
  data s' = visibleData (filterVisibleData (allColumns s) (allData s')
                           (selectedDimensions s) (selectedMetrics s)).
Proof.
  intros newData buffer excess merged s' Hgt.
  assert (Hbuf : allData (appendAndTrack p s) = buffer) by apply appendAndTrack_allData.
  assert (Hgt' : Z.of_nat (length (allData (appendAndTrack p s))) > MAX_CACHED_ROWS)
    by (by rewrite Hbuf).
  destruct (evict_above _ Hgt') as (Ha & Hr & Hd).
  rewrite Hbuf in Ha, Hr, Hd. fold excess in Ha, Hr, Hd.
  rewrite appendAndTrack_loadedRanges in Hr. fold newData merged in Hr.
  destruct (appendAndTrack_frame p s) as (Hc & Hdim & Hmet).
  rewrite Hc, Hdim, Hmet in Hd.
  change (fetchDataRange_fulfilled (Some p) s) with (evict (appendAndTrack p s)) in s'.
  fold s' in Ha, Hr, Hd.
  assert (Hlen : Z.of_nat (length (allData s')) = MAX_CACHED_ROWS).
  { rewrite Ha, length_drop. unfold MAX_CACHED_ROWS in *. lia. }
  split; [done|]. split; [done|].
  split.
  { intros j Hj. rewrite Ha, lookup_drop. f_equal. lia. }
  split.
  { intros Hn i. rewrite Ha, lookup_drop.
    assert (Hl : length buffer = (length (allData s) + length newData)%nat)
      by (subst buffer; by rewrite length_app).
    subst buffer. rewrite lookup_app_r by (unfold MAX_CACHED_ROWS in *; lia).
    f_equal. unfold MAX_CACHED_ROWS in *. lia. }
  split; [done|].
  split; [intros r'; rewrite Hr; apply shiftRanges_elem|].
  split; [rewrite Hr; apply shiftRanges_bounds|].
  by rewrite Hd, Ha.
Qed.

Lemma eviction_trims_head_witness :
  let p := mkRangePayload (mkResponse [] [] [[CNum 7]; [CNum 8]] 20000 1 false) 10000 false in
  let s := initialState |> set_allData (repeat [CNum 1] (Z.to_nat 10000))
                        |> set_loadedRanges [mkRange 0 10000] in
  Z.of_nat (length (allData (fetchDataRange_fulfilled (Some p) s))) = MAX_CACHED_ROWS /\
  loadedRanges (fetchDataRange_fulfilled (Some p) s) = [mkRange 0 10000].
Proof.
  cbv zeta.
  pose proof (eviction_trims_head
                (mkRangePayload (mkResponse [] [] [[CNum 7]; [CNum 8]] 20000 1 false) 10000 false)
                (initialState |> set_allData (repeat [CNum 1] (Z.to_nat 10000))
                              |> set_loadedRanges [mkRange 0 10000])) as H.
  cbv zeta in H. destruct H as (_ & Hlen & _ & _ & Hr & _); [vm_compute; reflexivity|].
  split; [exact Hlen|]. rewrite Hr. vm_compute. reflexivity.
Defined.

End FulfilledFacts.

(** ** Cancellation scopes *)

Section CancellationFacts.
Import Store ApiService Session.

Lemma elem_of_abortIfAny id c l : id ∈ abortIfAny c l <-> c = Some id \/ id ∈ l.
Proof.
  destruct c as [i|]; simpl.
  - rewrite elem_of_cons. split; intros [H|H]; subst; auto. by injection H as ->; left.
  - split; [auto | by intros [?|?]].
Qed.

(** Starting a request aborts the previous controller of its own scope and
    nothing else. *)
Lemma startRequest_aborted scope st id :
  id ∈ aborted (snd (startRequest scope st)) <->
  id ∈ aborted st \/ controllerOf scope st = Some id.
Proof. destruct scope; simpl; rewrite elem_of_abortIfAny; tauto. Qed.

Lemma startRequest_controllerOf scope scope' st :
  controllerOf scope' (snd (startRequest scope st)) =
  if decide (scope' = scope) then Some (created st) else controllerOf scope' st.
Proof. by destruct scope, scope'. Qed.

Lemma startRequest_fresh scope st :
  fst (startRequest scope st) = created st /\
  created (snd (startRequest scope st)) = S (created st).
Proof. by destruct scope. Qed.

Lemma wellFormed_initial : wellFormed initialControllers.
Proof.
  split; [|split].
  - intros i Hi. by apply elem_of_nil in Hi.
  - by intros [] i.
  - by intros [] [] i.
Qed.

Lemma startRequest_wellFormed scope st :
  wellFormed st -> wellFormed (snd (startRequest scope st)).
Proof.
  intros (Ha & Hc & Hd).
  destruct (startRequest_fresh scope st) as [_ Hn].
  split; [|split].
  - intros i Hi. rewrite Hn. apply startRequest_aborted in Hi as [Hi|Hi].
    + specialize (Ha i Hi). lia.
    + specialize (Hc _ _ Hi). lia.
  - intros sc i. rewrite Hn, startRequest_controllerOf.
    case_decide; [intros [= <-]; lia|]. intros Hi. specialize (Hc _ _ Hi). lia.
  - intros sc sc' i. rewrite !startRequest_controllerOf.
    repeat case_decide; subst; try done.
    + intros [= <-] Hi. specialize (Hc _ _ Hi). lia.
    + intros Hi [= <-]. specialize (Hc _ _ Hi). lia.
    + apply Hd.
Qed.

(** A request in flight in another scope is left alone. *)
Lemma startRequest_other_scope scope scope' st id :
  wellFormed st -> scope <> scope' ->
  controllerOf scope' st = Some id -> isAborted id st = false ->
  isAborted id (snd (startRequest scope st)) = false /\
  controllerOf scope' (snd (startRequest scope st)) = Some id.
Proof.
  intros (_ & _ & Hd) Hne Hc Hna. split.
  - unfold isAborted in *. apply bool_decide_eq_false in Hna. apply bool_decide_eq_false.
    rewrite startRequest_aborted. intros [Hin|Hown]; [done|].
    apply Hne. by apply (Hd _ _ id).
  - rewrite startRequest_controllerOf. case_decide; [by subst | done].
Qed.

(** The previous request of the same scope is aborted. *)
Lemma startRequest_same_scope scope st id :
  controllerOf scope st = Some id ->
  isAborted id (snd (startRequest scope st)) = true.
Proof.
  intros Hc. unfold isAborted. apply bool_decide_eq_true.
  apply startRequest_aborted. by right.
Qed.

(** What [startDataRange] leaves behind when the fetch is really issued. *)
Lemma startDataRange_inFlight params sys sys1 f :
  startDataRange params sys = (sys1, Some f) ->
  let isP := default false (isPrefetch params) in
  controller f = created (api sys) /\
  api sys1 = snd (ApiService.queryRaw isP (api sys)) /\
  store sys1 = fetchDataRange_pending params (store sys) /\
  resume f = (fun response => Some (mkRangePayload response (offset params) isP)).
Proof.
  unfold startDataRange, fetchDataRange.
  destruct (metadata (fetchDataRange_pending params (store sys))); [|by intros [=]].
  destruct (isRangeLoaded _ _ _); simpl; [by intros [=]|].
  destruct (ApiService.queryRaw _ _) as [id api'] eqn:Hq.
  intros [= <- <-]. simpl.
  destruct (default false (isPrefetch params)); simpl in Hq; by injection Hq as <- <-.
Qed.

Lemma completeDataRange_api f t sys : api (completeDataRange f t sys) = api sys.
Proof. unfold completeDataRange. by destruct (settleQueryRaw _ _ _). Qed.

Lemma completeDataRange_live f response sys :
  isAborted (controller f) (api sys) = false ->
  store (completeDataRange f (QueryOk response) sys) =
  fetchDataRange_fulfilled (resume f response) (store sys).
Proof. intros H. unfold completeDataRange, settleQueryRaw. by rewrite H. Qed.

Lemma completeDataRange_aborted f t sys :
  isAborted (controller f) (api sys) = true ->
  store (completeDataRange f t sys) =
  fetchDataRange_rejected (Some "Request cancelled"%string) (store sys).
Proof. intros H. unfold completeDataRange, settleQueryRaw. by rewrite H. Qed.

Lemma not_aborted_fresh st : wellFormed st -> created st ∉ aborted st.
Proof. intros (Ha & _) Hin. specialize (Ha _ Hin). lia. Qed.

(** C9.  The three controllers form three scopes: [queryRaw] with
    [isPrefetch] (prefetch), [queryRaw] without (foreground and initial
    loads), and [search].  Starting a request aborts exactly the previous
    controller of its own scope; a request in flight in another scope stays
    un-aborted and stays the controller of its scope.  In particular, when a
    prefetch is started, then a foreground fetch, and the foreground fetch
    settles (with any answer), the prefetch's response is still applied by
    the fulfilled reducer, in either order of completion; it is turned into a
    silent rejection only if another prefetch was started meanwhile. *)
Theorem cancellation_scopes_independent :
  (forall scope st id,
     id ∈ aborted (snd (startRequest scope st)) <->
     id ∈ aborted st \/ controllerOf scope st = Some id) /\
  (forall scope scope' st id,
     wellFormed st -> scope <> scope' ->
     controllerOf scope' st = Some id -> isAborted id st = false ->
     isAborted id (snd (startRequest scope st)) = false /\
     controllerOf scope' (snd (startRequest scope st)) = Some id) /\
  wellFormed initialControllers /\
  (forall scope st, wellFormed st -> wellFormed (snd (startRequest scope st))) /\
  (forall sys paramsP paramsF sys1 sys2 fP fF tF rP,
     wellFormed (api sys) ->
     isPrefetch paramsP = Some true ->
     default false (isPrefetch paramsF) = false ->
     startDataRange paramsP sys = (sys1, Some fP) ->
     startDataRange paramsF sys1 = (sys2, Some fF) ->
     let applied := fun s =>
       fetchDataRange_fulfilled (Some (mkRangePayload rP (offset paramsP) true)) s in
     let afterF := completeDataRange fF tF sys2 in
     store (completeDataRange fP (QueryOk rP) afterF) = applied (store afterF) /\
     store (completeDataRange fP (QueryOk rP) sys2) = applied (store sys2) /\
     (forall paramsP' sys3 fP',
        isPrefetch paramsP' = Some true ->
        startDataRange paramsP' sys2 = (sys3, Some fP') ->
        store (completeDataRange fP (QueryOk rP) sys3) =
        fetchDataRange_rejected (Some "Request cancelled"%string) (store sys3))).
Proof.
  split; [apply startRequest_aborted|].
  split; [apply startRequest_other_scope|].
  split; [apply wellFormed_initial|].
  split; [apply startRequest_wellFormed|].
  intros sys paramsP paramsF sys1 sys2 fP fF tF rP Hwf HP HF H1 H2 applied afterF.
  apply startDataRange_inFlight in H1 as (HcP & Hapi1 & _ & HkP).
  apply startDataRange_inFlight in H2 as (HcF & Hapi2 & _ & _).
  cbv zeta in Hapi1, HkP, Hapi2.
  rewrite HP in Hapi1, HkP. rewrite HF in Hapi2.
  change (default false (Some true)) with true in Hapi1, HkP.
  change (ApiService.queryRaw true (api sys)) with (startRequest Prefetch (api sys)) in Hapi1.
  change (ApiService.queryRaw false (api sys1)) with (startRequest InitialQuery (api sys1))
    in Hapi2.
  assert (Hwf1 : wellFormed (api sys1)) by (rewrite Hapi1; by apply startRequest_wellFormed).
  assert (HctlP : controllerOf Prefetch (api sys1) = Some (controller fP)).
  { rewrite Hapi1, startRequest_controllerOf, HcP. by case_decide. }
  assert (HliveP1 : isAborted (controller fP) (api sys1) = false).
  { unfold isAborted. apply bool_decide_eq_false. rewrite Hapi1, startRequest_aborted, HcP.
    intros [Hin|Hown]; [by apply (not_aborted_fresh _ Hwf)|].
    destruct Hwf as (_ & Hc & _). specialize (Hc _ _ Hown). lia. }
  assert (HliveP2 : isAborted (controller fP) (api sys2) = false /\
                    controllerOf Prefetch (api sys2) = Some (controller fP)).
  { rewrite Hapi2. by apply startRequest_other_scope. }
  destruct HliveP2 as [HliveP2 HctlP2].
  split; [|split].
  - rewrite completeDataRange_live; [by rewrite HkP|].
    subst afterF. by rewrite completeDataRange_api.
  - rewrite completeDataRange_live; [by rewrite HkP | done].
  - intros paramsP' sys3 fP' HP' H3.
    apply startDataRange_inFlight in H3 as (_ & Hapi3 & _ & _).
    cbv zeta in Hapi3. rewrite HP' in Hapi3.
    change (default false (Some true)) with true in Hapi3.
    change (ApiService.queryRaw true (api sys2)) with (startRequest Prefetch (api sys2))
      in Hapi3.
    apply completeDataRange_aborted. rewrite Hapi3. by apply startRequest_same_scope.
Qed.

Lemma cancellation_scopes_independent_witness :
  let sys := mkSystem (initialState |> set_metadata (Some (mkMetadata "t" [] [])))
               initialControllers in
  let response := mkResponse [] [] [[Data.CNum 7]] 9 1 false in
  let r1 := startDataRange (mkParams 0 None (Some true)) sys in
  let r2 := startDataRange (mkParams 2000 None None) (fst r1) in
  match snd r1, snd r2 with
  | Some fP, Some fF =>
      allData (store (completeDataRange fP (QueryOk response)
                        (completeDataRange fF (QueryFailed None) (fst r2))))
      = [[Data.CNum 7]]
  | _, _ => False
  end.
Proof.
  cbv zeta.
  destruct (startDataRange (mkParams 0 None (Some true))
              (mkSystem (initialState |> set_metadata (Some (mkMetadata "t" [] [])))
                 initialControllers)) as [sys1 [fP|]] eqn:H1;
    [|vm_compute in H1; discriminate].
  cbn [fst snd].
  destruct (startDataRange (mkParams 2000 None None) sys1) as [sys2 [fF|]] eqn:H2;
    [|vm_compute in H1; injection H1 as <- <-; vm_compute in H2; discriminate].
  cbn [fst snd].
  destruct cancellation_scopes_independent as (_ & _ & Hwf & _ & Hscenario).
  destruct (Hscenario
              (mkSystem (initialState |> set_metadata (Some (mkMetadata "t" [] [])))
                 initialControllers)
              (mkParams 0 None (Some true)) (mkParams 2000 None None) sys1 sys2 fP fF
              (QueryFailed None) (mkResponse [] [] [[Data.CNum 7]] 9 1 false)
              Hwf eq_refl eq_refl H1 H2)
    as (Happlied & _).
  rewrite Happlied.
  vm_compute in H1. injection H1 as <- <-.
  vm_compute in H2. injection H2 as <- <-.
  vm_compute. reflexivity.
Defined.

End CancellationFacts.

(** ** Row-Group Calculator *)

Section RowSpanFacts.
Import Data RowSpan.

Lemma sameGroup_refl data cols c r : sameGroup data cols c r r.
Proof. by split. Qed.

Lemma sameGroup_sym data cols c r1 r2 :
  sameGroup data cols c r1 r2 -> sameGroup data cols c r2 r1.
Proof. intros [H1 H2]. split; [done|]. intros c' Hc Hin. symmetry. by apply H2. Qed.

Lemma sameGroup_trans data cols c r1 r2 r3 :
  sameGroup data cols c r1 r2 -> sameGroup data cols c r2 r3 -> sameGroup data cols c r1 r3.
Proof.
  intros [H1 H2] [H3 H4]. split; [congruence|].
  intros c' Hc Hin. rewrite H2 by done. by apply H4.
Qed.

Lemma strictNe_false a b : strictNe a b = false <-> a = b.
Proof.
  unfold strictNe. rewrite negb_false_iff. apply bool_decide_eq_true.
Qed.

Lemma checkPrevSpanningColumnsMatch_spec data r1 r2 c cols :
  checkPrevSpanningColumnsMatch data r1 r2 c cols = true <->
  forall c', (c' < c)%nat -> c' ∈ cols -> cellAt data r1 c' = cellAt data r2 c'.
Proof.
  unfold checkPrevSpanningColumnsMatch. rewrite forallb_forall. split.
  - intros H c' Hlt Hin. specialize (H c'). rewrite in_seq in H.
    specialize (H ltac:(lia)). unfold has in H.
    rewrite bool_decide_eq_true_2 in H by done.
    apply negb_true_iff, strictNe_false in H. done.
  - intros H c' Hc. apply in_seq in Hc. unfold has. case_bool_decide; [|done].
    apply negb_true_iff, strictNe_false. apply H; [lia | done].
Qed.

(** The scan closes a group at [rowIndex] exactly when the row leaves the
    group of [groupStart], or the buffer ends. *)
Lemma scan_continues data cols c gs k :
  (k < length data)%nat ->
  strictNe (cellAt data k c) (cellAt data gs c)
    || negb (checkPrevSpanningColumnsMatch data gs k c cols)
    || (k =? length data)%nat = false <->
  sameGroup data cols c gs k.
Proof.
  intros Hk. rewrite !orb_false_iff, strictNe_false, negb_false_iff,
    checkPrevSpanningColumnsMatch_spec, Nat.eqb_neq.
  unfold sameGroup. split.
  - intros [[H1 H2] _]. done.
  - intros [H1 H2]. split; [done | lia].
Qed.

(** The scan, for any [onBreak], replays [onBreak] over the groups of
    [runsOf]. *)
Lemma scan_replays {M} data cols c (onBreak : nat -> Cell -> nat -> M -> M) l gs cv m acc :
  let apply := fun m (run : Run) => onBreak run.1.1 run.1.2 run.2 m in
  exists news,
    fold_left (scanStep data cols c recordRun) l (gs, cv, acc) =
      ((fold_left (scanStep data cols c onBreak) l (gs, cv, m)).1, acc ++ news) /\
    (fold_left (scanStep data cols c onBreak) l (gs, cv, m)).2 = fold_left apply news m.
Proof.
  intros apply. revert gs cv m acc.
  induction l as [|k l IH]; intros gs cv m acc.
  - exists []. simpl. by rewrite app_nil_r.
  - simpl.
    destruct (strictNe _ cv || _ || _).
    + destruct (IH k (if (k <? length data)%nat then cellAt data k c else CNull)
                  (onBreak gs cv k m) (recordRun gs cv k acc)) as (news & H1 & H2).
      exists ((gs, cv, k) :: news). rewrite H1, H2. unfold recordRun.
      by rewrite <- app_assoc.
    + apply IH.
Qed.

Lemma scanColumn_replays {M} data cols c (onBreak : nat -> Cell -> nat -> M -> M) m :
  scanColumn data cols c onBreak m =
  fold_left (fun m (run : Run) => onBreak run.1.1 run.1.2 run.2 m) (runsOf data cols c) m.
Proof.
  unfold runsOf, scanColumn.
  destruct (scan_replays data cols c onBreak (seq 1 (length data)) 0%nat
              (cellAt data 0 c) m []) as (news & H1 & H2).
  rewrite H1. simpl. by rewrite H2.
Qed.

(** From row [k] on, with the rows of [[gs, k)] in the group of [gs], the
    scan closes the groups of a [RunsFrom gs]. *)
Lemma scan_runs data cols c n k gs acc :
  (k + n = length data + 1)%nat -> (gs < k <= length data)%nat ->
  (forall r, (gs <= r < k)%nat -> sameGroup data cols c gs r) ->
  exists runs,
    (fold_left (scanStep data cols c recordRun) (seq k n) (gs, cellAt data gs c, acc)).2
      = acc ++ runs /\
    RunsFrom data cols c gs runs.
Proof.
  revert k gs acc. induction n as [|n IH]; intros k gs acc Hn Hk Hsame; [lia|].
  simpl.
  destruct (decide (k = length data)) as [->|Hne].
  - (* the last iteration always closes the group *)
    rewrite Nat.eqb_refl, orb_true_r.
    assert (n = 0)%nat as -> by lia. simpl.
    exists [(gs, cellAt data gs c, length data)]. split; [done|].
    apply RunsFrom_run; [lia | done | by left | constructor].
  - assert (Hlt : (k < length data)%nat) by lia.
    rewrite (proj2 (Nat.ltb_lt _ _) Hlt).
    destruct (strictNe _ _ || _ || _) eqn:Hbreak.
    + destruct (IH (S k) k (recordRun gs (cellAt data gs c) k acc))
        as (runs & H1 & H2); [lia | lia | |].
      { intros r Hr. assert (r = k) as -> by lia. apply sameGroup_refl. }
      exists ((gs, cellAt data gs c, k) :: runs). split.
      * rewrite H1. unfold recordRun. by rewrite <- app_assoc.
      * apply RunsFrom_run; [lia | done | | done].
        right. intros Hs. apply (scan_continues _ _ _ _ _ Hlt) in Hs. congruence.
    + apply (scan_continues _ _ _ _ _ Hlt) in Hbreak.
      apply IH; [lia | lia |].
      intros r Hr. destruct (decide (r = k)) as [->|]; [done|]. apply Hsame. lia.
Qed.

Lemma runsOf_spec data cols c :
  data <> [] -> RunsFrom data cols c 0 (runsOf data cols c).
Proof.
  intros Hne. unfold runsOf, scanColumn.
  assert (0 < length data)%nat by (destruct data; simpl; [done | lia]).
  destruct (scan_runs data cols c (length data) 1 0 []) as (runs & H1 & H2); [lia | lia | |].
  { intros r Hr. assert (r = 0)%nat as -> by lia. apply sameGroup_refl. }
  unfold snd in H1 |- *. by rewrite H1.
Qed.

(** *** What the two stores write *)

Lemma insertRows_lookup {V} (g : V) (c a n : nat) (m : gmap (nat * nat) V) (r c' : nat) :
  fold_left (fun m r => <[(r, c) := g]> m) (seq a n) m !! (r, c') =
  if decide (c' = c /\ (a <= r < a + n)%nat) then Some g else m !! (r, c').
Proof.
  revert a m. induction n as [|n IH]; intros a m; simpl.
  - case_decide; [lia | done].
  - rewrite IH.
    destruct (decide (c' = c /\ (a <= r < a + S n)%nat)) as [[-> Hr]|Hout].
    + destruct (decide (r = a)) as [->|Hra].
      * rewrite lookup_insert_eq. by destruct (decide _).
      * rewrite decide_True by (split; [done | lia]). done.
    + rewrite decide_False by (intros [-> ?]; apply Hout; split; [done | lia]).
      rewrite lookup_insert_ne; [done|].
      intros [= -> ->]. apply Hout. split; [done | lia].
Qed.

Lemma storeGroup_lookup (c gs : nat) cv (e : nat) m (r c' : nat) :
  storeGroup c gs cv e m !! (r, c') =
  if decide (c' = c /\ (gs <= r < gs + (e - gs))%nat)
  then Some (mkGroup cv gs (e - gs)) else m !! (r, c').
Proof. apply insertRows_lookup. Qed.

Lemma storeSpan_lookup (c gs : nat) (cv : Cell) (e : nat) m (r c' : nat) :
  storeSpan c gs cv e m !! (r, c') =
  if decide (c' = c /\ r = gs /\ (1 < e - gs)%nat)
  then Some (mkSpan gs c (e - gs)) else m !! (r, c').
Proof.
  unfold storeSpan. destruct (Nat.ltb_spec 1 (e - gs)).
  - destruct (decide ((gs, c) = (r, c'))) as [[= -> ->]|Hne].
    + rewrite lookup_insert_eq. by rewrite decide_True.
    + rewrite lookup_insert_ne by done. rewrite decide_False; [done|].
      intros (-> & -> & _). done.
  - rewrite decide_False; [done | lia].
Qed.

(** *** The groups of one column *)

Lemma RunsFrom_le data cols c s runs : RunsFrom data cols c s runs -> (s <= length data)%nat.
Proof. destruct 1; lia. Qed.

(** The groups come in ascending order of their start rows. *)
Lemma RunsFrom_starts data cols c s runs :
  RunsFrom data cols c s runs ->
  forall s' v e', (s', v, e') ∈ runs -> (s <= s')%nat.
Proof.
  induction 1 as [|s e rest Hse _ _ Hrest IH]; intros s' v e' Hin.
  - by apply elem_of_nil in Hin.
  - apply elem_of_cons in Hin as [[= -> -> ->]|Hin]; [lia|].
    specialize (IH _ _ _ Hin). lia.
Qed.

Lemma RunsFrom_elems data cols c s runs :
  RunsFrom data cols c s runs ->
  (s = 0%nat \/ ~ sameGroup data cols c (s - 1) s) ->
  forall s' v e', (s', v, e') ∈ runs ->
    v = cellAt data s' c /\ (s <= s')%nat /\ (s' < e' <= length data)%nat /\
    (forall r, (s' <= r < e')%nat -> sameGroup data cols c s' r) /\
    (e' = length data \/ ~ sameGroup data cols c s' e') /\
    (s' = 0%nat \/ ~ sameGroup data cols c (s' - 1) s').
Proof.
  induction 1 as [|s e rest Hse Hsame Hend Hrest IH]; intros Hleft s' v e' Hin.
  - by apply elem_of_nil in Hin.
  - apply elem_of_cons in Hin as [[= -> -> ->]|Hin].
    + split; [done|]. split; [lia|]. split; [lia|]. done.
    + assert (He : e = 0%nat \/ ~ sameGroup data cols c (e - 1) e).
      { destruct Hend as [->|Hne].
        - inversion Hrest; subst; [by apply elem_of_nil in Hin | lia].
        - right. intros Hs. apply Hne.
          eapply sameGroup_trans; [apply (Hsame (e - 1)%nat); lia | done]. }
      destruct (IH He s' v e' Hin) as (? & ? & ? & ? & ? & ?).
      split; [done|]. split; [lia|]. done.
Qed.

Lemma RunsFrom_cover data cols c s runs :
  RunsFrom data cols c s runs ->
  forall r, (s <= r < length data)%nat ->
    exists s' v e', (s', v, e') ∈ runs /\ (s' <= r < e')%nat.
Proof.
  induction 1 as [|s e rest Hse Hsame Hend Hrest IH]; intros r Hr; [lia|].
  destruct (decide (r < e)%nat) as [Hlt|Hge].
  - exists s, (cellAt data s c), e. split; [left | lia].
  - destruct (IH r ltac:(lia)) as (s' & v & e' & Hin & Hr').
    exists s', v, e'. split; [by right | done].
Qed.

(** Keys outside the groups of the list are not written. *)
Lemma groupRuns_other (c : nat) (runs : list Run) (m : gmap (nat * nat) GroupInfo) (r c' : nat) :
  (forall s' v e', (s', v, e') ∈ runs -> ~ (c' = c /\ (s' <= r < e')%nat)) ->
  fold_left (fun m (run : Run) => storeGroup c run.1.1 run.1.2 run.2 m) runs m !! (r, c')
  = m !! (r, c').
Proof.
  revert m. induction runs as [|[[s v] e] runs IH]; intros m Hno; simpl; [done|].
  rewrite IH by (intros s' v' e' Hin; apply (Hno s' v' e'); by right).
  rewrite storeGroup_lookup. rewrite decide_False; [done|].
  intros [-> Hr]. apply (Hno s v e); [left | split; [done | lia]].
Qed.

Lemma spanRuns_other (c : nat) (runs : list Run) (m : gmap (nat * nat) RowSpanInfo) (r c' : nat) :
  (forall s' v e', (s', v, e') ∈ runs -> ~ (c' = c /\ s' = r /\ (1 < e' - s')%nat)) ->
  fold_left (fun m (run : Run) => storeSpan c run.1.1 run.1.2 run.2 m) runs m !! (r, c')
  = m !! (r, c').
Proof.
  revert m. induction runs as [|[[s v] e] runs IH]; intros m Hno; simpl; [done|].
  rewrite IH by (intros s' v' e' Hin; apply (Hno s' v' e'); by right).
  rewrite storeSpan_lookup. rewrite decide_False; [done|].
  intros (-> & -> & Hr). apply (Hno s v e); [left | done].
Qed.

(** Every row of a group carries the group's entry. *)
Lemma groupRuns_inside (data : list Row) (cols : list nat) (c s : nat) (runs : list Run)
    (m : gmap (nat * nat) GroupInfo) :
  RunsFrom data cols c s runs ->
  forall s' v e' r, (s', v, e') ∈ runs -> (s' <= r < e')%nat ->
    fold_left (fun m (run : Run) => storeGroup c run.1.1 run.1.2 run.2 m) runs m !! (r, c)
    = Some (mkGroup v s' (e' - s')).
Proof.
  intros Hruns. revert m.
  induction Hruns as [|s e rest Hse Hsame Hend Hrest IH]; intros m s' v e' r Hin Hr.
  - by apply elem_of_nil in Hin.
  - simpl. apply elem_of_cons in Hin as [[= -> -> ->]|Hin].
    + rewrite groupRuns_other.
      * rewrite storeGroup_lookup, decide_True; [done | split; [done | lia]].
      * intros s2 v2 e2 Hin2 [_ Hr2].
        pose proof (RunsFrom_starts _ _ _ _ _ Hrest _ _ _ Hin2). lia.
    + by apply IH.
Qed.

Lemma spanRuns_start (data : list Row) (cols : list nat) (c s : nat) (runs : list Run)
    (m : gmap (nat * nat) RowSpanInfo) :
  RunsFrom data cols c s runs ->
  forall s' v e', (s', v, e') ∈ runs -> (1 < e' - s')%nat ->
    fold_left (fun m (run : Run) => storeSpan c run.1.1 run.1.2 run.2 m) runs m !! (s', c)
    = Some (mkSpan s' c (e' - s')).
Proof.
  intros Hruns. revert m.
  induction Hruns as [|s e rest Hse Hsame Hend Hrest IH]; intros m s' v e' Hin Hlong.
  - by apply elem_of_nil in Hin.
  - simpl. apply elem_of_cons in Hin as [[= -> -> ->]|Hin].
    + rewrite spanRuns_other.
      * rewrite storeSpan_lookup, decide_True; done.
      * intros s2 v2 e2 Hin2 (_ & -> & _).
        pose proof (RunsFrom_starts _ _ _ _ _ Hrest _ _ _ Hin2). lia.
    + by eapply IH.
Qed.

Lemma RunsFrom_unique data cols c s runs :
  RunsFrom data cols c s runs ->
  forall s1 v1 e1 s2 v2 e2 r,
    (s1, v1, e1) ∈ runs -> (s2, v2, e2) ∈ runs ->
    (s1 <= r < e1)%nat -> (s2 <= r < e2)%nat -> (s1, v1, e1) = (s2, v2, e2).
Proof.
  induction 1 as [|s e rest Hse _ _ Hrest IH]; intros s1 v1 e1 s2 v2 e2 r H1 H2 Hr1 Hr2.
  - by apply elem_of_nil in H1.
  - apply elem_of_cons in H1 as [[= -> -> ->]|H1];
      apply elem_of_cons in H2 as [[= -> -> ->]|H2]; [done | | | by eapply IH].
    + pose proof (RunsFrom_starts _ _ _ _ _ Hrest _ _ _ H2). lia.
    + pose proof (RunsFrom_starts _ _ _ _ _ Hrest _ _ _ H1). lia.
Qed.

(** *** All the groupable columns *)

Lemma groupCols (data : list Row) (cols cols' : list nat) (m : gmap (nat * nat) GroupInfo) :
  data <> [] ->
  let m' := fold_left (fun m col => scanColumn data cols col (storeGroup col) m) cols' m in
  (forall r c, c ∉ cols' \/ (length data <= r)%nat -> m' !! (r, c) = m !! (r, c)) /\
  (forall c s' v e' r, c ∈ cols' -> (s', v, e') ∈ runsOf data cols c -> (s' <= r < e')%nat ->
     m' !! (r, c) = Some (mkGroup v s' (e' - s'))).
Proof.
  intros Hne. revert m. induction cols' as [|col0 rest IH]; intros m; simpl.
  - split; [done|]. intros c s' v e' r Hin. by apply elem_of_nil in Hin.
  - destruct (IH (scanColumn data cols col0 (storeGroup col0) m)) as [IHA IHB].
    pose proof (runsOf_spec data cols col0 Hne) as Hruns.
    split.
    + intros r c Hout. rewrite IHA.
      * rewrite scanColumn_replays. apply groupRuns_other.
        intros s' v e' Hin [-> Hr].
        destruct (RunsFrom_elems _ _ _ _ _ Hruns ltac:(by left) _ _ _ Hin) as (_ & _ & ? & _).
        destruct Hout as [Hout|Hout]; [apply Hout; left | lia].
      * destruct Hout as [Hout|Hout]; [left | by right].
        intros Hin. apply Hout. by right.
    + intros c s' v e' r Hc Hin Hr.
      destruct (decide (c ∈ rest)) as [Hrest|Hrest]; [by apply IHB|].
      apply elem_of_cons in Hc as [->|Hc]; [|done].
      rewrite IHA by (by left). rewrite scanColumn_replays.
      by eapply groupRuns_inside.
Qed.

Lemma spanCols (data : list Row) (cols cols' : list nat) (m : gmap (nat * nat) RowSpanInfo) :
  data <> [] ->
  let m' := fold_left (fun m col => scanColumn data cols col (storeSpan col) m) cols' m in
  (forall r c,
     c ∉ cols' \/
     (forall s' v e', (s', v, e') ∈ runsOf data cols c -> ~ (s' = r /\ (1 < e' - s')%nat)) ->
     m' !! (r, c) = m !! (r, c)) /\
  (forall c s' v e', c ∈ cols' -> (s', v, e') ∈ runsOf data cols c -> (1 < e' - s')%nat ->
     m' !! (s', c) = Some (mkSpan s' c (e' - s'))).
Proof.
  intros Hne. revert m. induction cols' as [|col0 rest IH]; intros m; simpl.
  - split; [done|]. intros c s' v e' Hin. by apply elem_of_nil in Hin.
  - destruct (IH (scanColumn data cols col0 (storeSpan col0) m)) as [IHA IHB].
    pose proof (runsOf_spec data cols col0 Hne) as Hruns.
    split.
    + intros r c Hout. rewrite IHA.
      * rewrite scanColumn_replays. apply spanRuns_other.
        intros s' v e' Hin (-> & -> & Hlong).
        destruct Hout as [Hout|Hout]; [apply Hout; left | by apply (Hout r v e')].
      * destruct Hout as [Hout|Hout]; [left | by right].
        intros Hin. apply Hout. by right.
    + intros c s' v e' Hc Hin Hlong.
      destruct (decide (c ∈ rest)) as [Hrest|Hrest]; [by eapply IHB|].
      apply elem_of_cons in Hc as [->|Hc]; [|done].
      rewrite IHA by (by left). rewrite scanColumn_replays.
      by eapply spanRuns_start.
Qed.

Lemma groupMapOf_fold (data : list Row) (cols : list nat) :
  data <> [] -> cols <> [] ->
  groupMapOf data cols =
    fold_left (fun m col => scanColumn data cols col (storeGroup col) m) cols ∅ /\
  spanMapOf data cols =
    fold_left (fun m col => scanColumn data cols col (storeSpan col) m) cols ∅.
Proof. unfold groupMapOf, spanMapOf. by destruct data, cols. Qed.

Lemma groupMapOf_empty (data : list Row) (cols : list nat) :
  data = [] \/ cols = [] -> groupMapOf data cols = ∅ /\ spanMapOf data cols = ∅.
Proof.
  unfold groupMapOf, spanMapOf. intros [-> | ->]; [done|].
  by rewrite orb_true_r.
Qed.

(** C4.  With [cols] the groupable columns of the configuration:
    - an empty buffer, or no groupable column, gives empty group and span
      maps;
    - otherwise every row [r] of the buffer has, for every groupable column
      [c], a group entry [g] whose rows [[startRow, startRow + rowCount)]
      contain [r], lie within the buffer, all carry that same entry, and all
      agree with the start row in column [c] and in every groupable column
      left of [c] (so the group never crosses a boundary of a parent column);
      [value] is the value of the start row; the group is maximal: the row
      before it, and the row after it, if any, differ from it in column [c]
      or in a groupable column to its left;
    - the span map holds [{rowIndex: startRow, colIndex: c, span: rowCount}]
      at the start row exactly when [rowCount > 1], and nothing at the other
      rows of the group;
    - nothing is recorded for other columns or beyond the buffer. *)
Theorem rowGroups_are_maximal_runs cfg :
  let d := data cfg in
  let cols := spanningColIndices (columnNames cfg) (dimensionCount cfg) in
  (d = [] \/ cols = [] -> groupMap cfg = ∅ /\ spanMap cfg = ∅) /\
  (forall c r, c ∈ cols -> (r < length d)%nat ->
     exists g,
       groupMap cfg !! (r, c) = Some g /\
       (startRow g <= r < startRow g + rowCount g)%nat /\
       (startRow g + rowCount g <= length d)%nat /\
       value g = cellAt d (startRow g) c /\
       (forall r', (startRow g <= r' < startRow g + rowCount g)%nat ->
          sameGroup d cols c (startRow g) r' /\ groupMap cfg !! (r', c) = Some g) /\
       (startRow g = 0%nat \/ ~ sameGroup d cols c (startRow g - 1) (startRow g)) /\
       ((startRow g + rowCount g)%nat = length d \/
        ~ sameGroup d cols c (startRow g) (startRow g + rowCount g)) /\
       spanMap cfg !! (startRow g, c) =
         (if (1 <? rowCount g)%nat then Some (mkSpan (startRow g) c (rowCount g)) else None) /\
       (r <> startRow g -> spanMap cfg !! (r, c) = None)) /\
  (forall c r, c ∉ cols \/ (length d <= r)%nat ->
     groupMap cfg !! (r, c) = None /\ spanMap cfg !! (r, c) = None).
Proof.
  intros d cols. unfold groupMap, spanMap. fold d cols.
  split; [apply groupMapOf_empty|]. split.
  - intros c r Hc Hr.
    assert (Hd : d <> []) by (intros E; rewrite E in Hr; simpl in Hr; lia).
    assert (Hcols : cols <> []) by (intros E; rewrite E in Hc; by apply elem_of_nil in Hc).
    destruct (groupMapOf_fold d cols Hd Hcols) as [-> ->].
    destruct (groupCols d cols cols ∅ Hd) as [_ HG].
    destruct (spanCols d cols cols ∅ Hd) as [HSo HS].
    pose proof (runsOf_spec d cols c Hd) as Hruns.
    destruct (RunsFrom_cover _ _ _ _ _ Hruns r ltac:(lia)) as (s' & v & e' & Hin & Hrin).
    destruct (RunsFrom_elems _ _ _ _ _ Hruns ltac:(by left) _ _ _ Hin)
      as (-> & _ & Hse & Hsame & Hright & Hleft).
    exists (mkGroup (cellAt d s' c) s' (e' - s')). simpl.
    replace (s' + (e' - s'))%nat with e' by lia.
    split; [by apply HG|]. split; [done|]. split; [lia|]. split; [done|].
    split; [intros r' Hr'; split; [by apply Hsame | by apply HG]|].
    split; [done|]. split; [done|]. split.
    + destruct (Nat.ltb_spec 1 (e' - s')) as [Hlong|Hshort].
      * by eapply HS.
      * rewrite HSo; [done|]. right. intros s2 v2 e2 Hin2 [-> Hlong].
        assert (Heq : (s', cellAt d s' c, e') = (s', v2, e2)).
        { eapply (RunsFrom_unique _ _ _ _ _ Hruns _ _ _ _ _ _ s'); [done | done | lia |].
          destruct (RunsFrom_elems _ _ _ _ _ Hruns ltac:(by left) _ _ _ Hin2)
            as (_ & _ & ? & _). lia. }
        injection Heq as _ <-. lia.
    + intros Hrs. rewrite HSo; [done|]. right. intros s2 v2 e2 Hin2 [-> Hlong].
      assert (Heq : (s', cellAt d s' c, e') = (r, v2, e2)).
      { eapply (RunsFrom_unique _ _ _ _ _ Hruns _ _ _ _ _ _ r); [done | done | lia |].
        destruct (RunsFrom_elems _ _ _ _ _ Hruns ltac:(by left) _ _ _ Hin2)
          as (_ & _ & ? & _). lia. }
      injection Heq as -> _ _. done.
  - intros c r Hout.
    destruct (decide (d = [] \/ cols = [])) as [He|Hne].
    { destruct (groupMapOf_empty d cols He) as [-> ->]. by rewrite !lookup_empty. }
    assert (Hd : d <> []) by tauto. assert (Hcols : cols <> []) by tauto.
    destruct (groupMapOf_fold d cols Hd Hcols) as [-> ->].
    destruct (groupCols d cols cols ∅ Hd) as [HGo _].
    destruct (spanCols d cols cols ∅ Hd) as [HSo _].
    split; [by rewrite HGo|].
    rewrite HSo; [done|].
    destruct Hout as [Hout|Hout]; [by left|]. right.
    intros s' v e' Hin [-> _].
    destruct (RunsFrom_elems _ _ _ _ _ (runsOf_spec d cols c Hd) ltac:(by left) _ _ _ Hin)
      as (_ & _ & ? & _). lia.
Qed.

(** The parent/child scenario of the specification: with both columns
    groupable, the ["X"] of row 2 starts a group of its own, and column 0
    gets the only span. *)
Lemma rowGroups_are_maximal_runs_witness :
  let cfg := mkRowSpanConfig
               [[CStr "A"; CStr "X"]; [CStr "A"; CStr "Y"]; [CStr "B"; CStr "X"]]
               2 ["category"; "sub_category"]%string in
  exists g, groupMap cfg !! (2%nat, 1%nat) = Some g /\ startRow g = 2%nat /\ rowCount g = 1%nat.
Proof.
  cbv zeta.
  destruct (rowGroups_are_maximal_runs
              (mkRowSpanConfig
                 [[CStr "A"; CStr "X"]; [CStr "A"; CStr "Y"]; [CStr "B"; CStr "X"]]
                 2 ["category"; "sub_category"]%string)) as (_ & Hrows & _).
  cbv zeta in Hrows.
  destruct (Hrows 1%nat 2%nat) as (g & Hg & _); [vm_compute; set_solver | simpl; lia |].
  exists g. split; [exact Hg|].
  vm_compute in Hg. injection Hg as <-. by split.
Defined.

End RowSpanFacts.

(** ** Worked examples from the specification *)

Section Examples.
Import Data.

(** Rows [["A",1],["A",2],["B",3]] with column 0 groupable: one span
    [{startRow: 0, colIndex: 0, span: 2}], and row 2 is its own group. *)
Example span_correctness :
  let cfg := RowSpan.mkRowSpanConfig
               [[CStr "A"; CNum 1]; [CStr "A"; CNum 2]; [CStr "B"; CNum 3]]
               1 ["category"; "ads_spend"]%string in
  map_to_list (RowSpan.spanMap cfg) = [((0%nat, 0%nat), RowSpan.mkSpan 0 0 2)] /\
  RowSpan.getGroupInfo cfg 2 0 = Some (RowSpan.mkGroup (CStr "B") 2 1) /\
  RowSpan.shouldRender cfg 1 0 = false /\
  RowSpan.getRowSpan cfg 0 0 = 2%nat.
Proof. vm_compute. by repeat split. Qed.

(** Changing row 1 to ["B"] breaks the run after row 0. *)
Example span_break :
  let cfg := RowSpan.mkRowSpanConfig
               [[CStr "A"; CNum 1]; [CStr "B"; CNum 2]; [CStr "B"; CNum 3]]
               1 ["category"; "ads_spend"]%string in
  RowSpan.getGroupInfo cfg 0 0 = Some (RowSpan.mkGroup (CStr "A") 0 1) /\
  RowSpan.getGroupInfo cfg 1 0 = Some (RowSpan.mkGroup (CStr "B") 1 2).
Proof. vm_compute. by split. Qed.

(** A column counts as groupable only among the dimensions, and by its
    lower-cased name. *)
Example spanning_columns :
  RowSpan.spanningColIndices ["Category"; "brand"; "sub_category"; "category"]%string 3
  = [0%nat; 2%nat].
Proof. reflexivity. Qed.

(** A range just added is loaded, and adding it again changes nothing. *)
Example add_then_loaded :
  RangeTracker.isRangeLoaded (RangeTracker.addRange [] 0 2000) 0 2000 = true /\
  RangeTracker.addRange (RangeTracker.addRange [] 0 2000) 500 700
    = RangeTracker.addRange [] 0 2000.
Proof. by split. Qed.

(** Unsorted, overlapping and touching ranges. *)
Example merge_example :
  RangeTracker.mergeRanges
    [RangeTracker.mkRange 30 40; RangeTracker.mkRange 0 10; RangeTracker.mkRange 10 20;
     RangeTracker.mkRange 5 8]
  = [RangeTracker.mkRange 0 20; RangeTracker.mkRange 30 40].
Proof. reflexivity. Qed.

(** A viewport in the middle of a long table. *)
Example window_example :
  let w := Windowing.useVirtualScroll (Windowing.mkConfig 5000 36 720 (Some 10)) 3600 in
  Windowing.startIndex w = 90 /\ Windowing.endIndex w = 130 /\
  Windowing.offsetTop w = 3240 /\ Windowing.totalHeight w = 180000.
Proof. by repeat split. Qed.

End Examples.

(* ===================================================================== *)
(** * Further properties of the code                                       *)
(* ===================================================================== *)

(** ** RangeTracker: merging *)

Section MergeFacts.
Import RangeTracker RangeShape.

Lemma isRangeLoaded_elim ranges offset limit :
  isRangeLoaded ranges offset limit = true ->
  exists r, r ∈ ranges /\ start r <= offset /\ offset + limit <= end_ r.
Proof.
  unfold isRangeLoaded. intros H. apply existsb_exists in H as (r & Hin & Hr).
  apply andb_prop in Hr as [H1 H2]. exists r.
  split; [by apply list_elem_of_In|]. apply Z.geb_le in H2. lia.
Qed.

(** Every merged range starts where some input range starts and reaches at
    least to that range's end. *)
Lemma mergeLoop_elems last rest x :
  x ∈ mergeLoop last rest ->
  exists r, r ∈ last :: rest /\ start x = start r /\ end_ r <= end_ x.
Proof.
  revert last. induction rest as [|c rest IH]; intros last Hx; simpl in Hx.
  - apply list_elem_of_singleton in Hx as ->. exists last. split; [left | lia].
  - destruct (Z.leb_spec (start c) (end_ last + 1)).
    + destruct (IH _ Hx) as (r & Hr & Hs & He).
      apply elem_of_cons in Hr as [->|Hr].
      * exists last. split; [left|]. simpl in *. lia.
      * exists r. split; [right; by right | done].
    + apply elem_of_cons in Hx as [->|Hx].
      * exists last. split; [left | lia].
      * destruct (IH _ Hx) as (r & Hr & Hs & He). exists r. split; [by right | done].
Qed.

Lemma mergeLoop_pairwise last rest :
  StronglySorted byStart (last :: rest) ->
  StronglySorted apart (mergeLoop last rest) /\
  StronglySorted byStart (mergeLoop last rest).
Proof.
  revert last. induction rest as [|c rest IH]; intros last Hs; simpl.
  - split; repeat constructor.
  - inversion Hs as [|? ? Hs' Hall]; subst.
    inversion Hall as [|? ? Hlc Hall']; subst.
    inversion Hs' as [|? ? Hs'' Hallc]; subst.
    destruct (Z.leb_spec (start c) (end_ last + 1)) as [Hle|Hgt].
    + apply IH. constructor; [done|]. eapply Forall_impl; [exact Hall'|]. done.
    + destruct (IH c Hs') as [IHa IHb].
      assert (Hfrom : forall x, x ∈ mergeLoop c rest -> start c <= start x).
      { intros x Hx. destruct (mergeLoop_elems _ _ _ Hx) as (r & Hr & -> & _).
        apply elem_of_cons in Hr as [->|Hr]; [lia|].
        rewrite Forall_forall in Hallc. by apply Hallc. }
      split; (constructor; [done|]); apply Forall_forall; intros x Hx;
        apply Hfrom in Hx; unfold apart, byStart in *; lia.
Qed.

Lemma mergeLoop_ordered last rest :
  Forall ordered (last :: rest) -> Forall ordered (mergeLoop last rest).
Proof.
  intros Ho. apply Forall_forall. intros x Hx.
  destruct (mergeLoop_elems _ _ _ Hx) as (r & Hr & Hs & He).
  rewrite Forall_forall in Ho. apply Ho in Hr.
  unfold ordered in *. lia.
Qed.

Lemma mergeRanges_shape ranges :
  Forall ordered ranges ->
  canonical (mergeRanges ranges) /\ StronglySorted byStart (mergeRanges ranges).
Proof.
  intros Ho. unfold mergeRanges, canonical.
  pose proof (sortByStart_sorted ranges) as Hs.
  assert (Ho' : Forall ordered (sortByStart ranges)) by (by rewrite sortByStart_perm).
  destruct (sortByStart ranges) as [|first rest]; [repeat split; constructor|].
  destruct (mergeLoop_pairwise first rest Hs). split; [split|]; try done.
  by apply mergeLoop_ordered.
Qed.

(** X1.  For ranges with ordered bounds, [mergeRanges] returns a canonical
    set: ascending starts, any two ranges at least two offsets apart (so they
    neither overlap nor touch), and each range with ordered bounds. *)
Theorem mergeRanges_canonical ranges :
  Forall ordered ranges ->
  canonical (mergeRanges ranges) /\ StronglySorted byStart (mergeRanges ranges).
Proof. apply mergeRanges_shape. Qed.

Lemma mergeRanges_canonical_witness :
  canonical (mergeRanges [mkRange 30 40; mkRange 0 10; mkRange 8 20]) /\
  mergeRanges [mkRange 30 40; mkRange 0 10; mkRange 8 20] = [mkRange 0 20; mkRange 30 40].
Proof.
  split; [|reflexivity].
  apply (mergeRanges_canonical [mkRange 30 40; mkRange 0 10; mkRange 8 20]).
  repeat constructor; unfold ordered; simpl; lia.
Defined.

(** X2.  Merging never forgets: a request that the tracked ranges report as
    loaded is still reported as loaded after [mergeRanges], and after adding
    any further range. *)
Theorem mergeRanges_keeps_loaded ranges offset limit :
  isRangeLoaded ranges offset limit = true ->
  isRangeLoaded (mergeRanges ranges) offset limit = true /\
  forall s e, isRangeLoaded (addRange ranges s e) offset limit = true.
Proof.
  intros H. apply isRangeLoaded_elim in H as (r & Hr & Hs & He).
  assert (Hgen : forall l, r ∈ l -> isRangeLoaded (mergeRanges l) offset limit = true).
  { intros l Hl. destruct (mergeRanges_contains l r Hl) as (r' & Hr' & Hc1 & Hc2).
    apply (isRangeLoaded_contains _ r'); [done | lia | lia]. }
  split; [by apply Hgen|]. intros s e. apply Hgen. apply elem_of_app. by left.
Qed.

Lemma mergeRanges_keeps_loaded_witness :
  isRangeLoaded (addRange [mkRange 0 2000] 2000 4000) 500 100 = true.
Proof.
  exact (proj2 (mergeRanges_keeps_loaded [mkRange 0 2000] 500 100 eq_refl) 2000 4000).
Defined.

Lemma mergeLoop_covers (L : list Range) last rest :
  (forall x, start last <= x < end_ last -> covered L x \/ exists r, r ∈ L /\ end_ r = x) ->
  (exists r, r ∈ L /\ end_ r = end_ last) ->
  (forall r, r ∈ rest -> r ∈ L) ->
  forall x, covered (mergeLoop last rest) x ->
    covered L x \/ exists r, r ∈ L /\ end_ r = x.
Proof.
  revert last. induction rest as [|c rest IH]; intros last P1 P2 Hsub x Hx; simpl in Hx.
  - unfold covered in Hx. rewrite Exists_cons, Exists_nil in Hx.
    destruct Hx as [Hx|[]]. by apply P1.
  - assert (Hc : c ∈ L) by (apply Hsub; left).
    assert (Hrest : forall r, r ∈ rest -> r ∈ L) by (intros r Hr; apply Hsub; by right).
    destruct (Z.leb_spec (start c) (end_ last + 1)) as [Hle|Hgt].
    + apply (IH (mkRange (start last) (Z.max (end_ last) (end_ c)))); try done.
      * simpl. intros y Hy.
        destruct (decide (y < end_ last)) as [Hlt|Hge]; [apply P1; lia|].
        destruct (decide (start c <= y)) as [Hin|Hout].
        -- left. apply Exists_exists. exists c.
           split; [done | lia].
        -- right. destruct P2 as (r & Hr & He). exists r. split; [done | lia].
      * simpl. destruct (Z.max_spec (end_ last) (end_ c)) as [[_ ->]|[_ ->]].
        -- by exists c.
        -- done.
    + unfold covered in Hx. rewrite Exists_cons in Hx. destruct Hx as [Hx|Hx].
      * by apply P1.
      * apply (IH c); try done.
        -- intros y Hy. left. apply Exists_exists. exists c.
           split; [done | done].
        -- by exists c.
Qed.

(** X3.  What [isRangeLoaded] can report after a merge: an offset covered by
    a merged range is covered by one of the input ranges, or it is the end
    offset of one of them (the single offset that the [+ 1] of the merge test
    bridges).  No other offset is ever reported without having been added. *)
Theorem mergeRanges_covers_inputs_or_ends ranges x :
  covered (mergeRanges ranges) x ->
  covered ranges x \/ exists r, r ∈ ranges /\ end_ r = x.
Proof.
  unfold mergeRanges. pose proof (sortByStart_perm ranges) as Hp.
  destruct (sortByStart ranges) as [|first rest] eqn:Hs.
  - intros Hx. unfold covered in Hx. by rewrite Exists_nil in Hx.
  - assert (Hin : forall r, r ∈ first :: rest -> r ∈ ranges)
      by (intros r Hr; by rewrite <- Hp).
    apply mergeLoop_covers.
    + intros y Hy. left. apply Exists_exists. exists first.
      split; [apply Hin; left | done].
    + exists first. split; [apply Hin; left | done].
    + intros r Hr. apply Hin. by right.
Qed.

Lemma mergeRanges_covers_inputs_or_ends_witness :
  covered [mkRange 0 5; mkRange 6 10] 7 \/
  exists r, r ∈ [mkRange 0 5; mkRange 6 10] /\ end_ r = 7.
Proof.
  apply (mergeRanges_covers_inputs_or_ends [mkRange 0 5; mkRange 6 10] 7).
  change (mergeRanges [mkRange 0 5; mkRange 6 10]) with [mkRange 0 10].
  left. simpl. lia.
Defined.

Lemma sortByStart_sorted_id l : StronglySorted byStart l -> sortByStart l = l.
Proof.
  induction 1 as [|x l Hs IH Hall]; simpl; [done|].
  rewrite IH. destruct l as [|y l]; simpl; [done|].
  inversion Hall; subst. unfold byStart in *.
  by rewrite (proj2 (Z.leb_le _ _)).
Qed.

Lemma mergeLoop_apart_id last rest :
  Sorted apart (last :: rest) -> mergeLoop last rest = last :: rest.
Proof.
  revert last. induction rest as [|c rest IH]; intros last Hs; simpl; [done|].
  inversion Hs as [|? ? Hs' Hhd]; subst. inversion Hhd; subst.
  unfold apart in *. rewrite (proj2 (Z.leb_gt _ _)) by lia.
  by rewrite IH.
Qed.

(** A canonically shaped set is left as it is. *)
Lemma mergeRanges_fixed l :
  StronglySorted byStart l -> Sorted apart l -> mergeRanges l = l.
Proof.
  intros Hs Ha. unfold mergeRanges. rewrite sortByStart_sorted_id by done.
  destruct l; [done|]. by apply mergeLoop_apart_id.
Qed.

Lemma mergeRanges_sortedStart ranges : StronglySorted byStart (mergeRanges ranges).
Proof.
  unfold mergeRanges. pose proof (sortByStart_sorted ranges) as Hs.
  destruct (sortByStart ranges) as [|first rest]; [constructor|].
  by apply mergeLoop_pairwise.
Qed.

(** X4.  [mergeRanges] is idempotent: merging a merged set changes
    nothing. *)
Theorem mergeRanges_idempotent ranges :
  mergeRanges (mergeRanges ranges) = mergeRanges ranges.
Proof.
  apply mergeRanges_fixed; [apply mergeRanges_sortedStart | apply mergeRanges_apart].
Qed.

End MergeFacts.

(** ** RangeTracker: adding covered ranges, exact coverage, shifting *)

Section RangeLaws.
Import RangeTracker RangeShape.

Lemma canonical_sortedStart l : canonical l -> StronglySorted byStart l.
Proof.
  intros [Ha Ho]. induction Ha as [|x l Ha IH Hall]; [constructor|].
  inversion Ho as [|? ? Hx Ho']; subst. constructor; [by apply IH|].
  eapply Forall_impl; [exact Hall|]. unfold apart, byStart, ordered in *. intros; lia.
Qed.

Lemma insertByStart_first x l : Forall (byStart x) l -> insertByStart x l = x :: l.
Proof.
  destruct l as [|y l]; [done|]. intros H. inversion H; subst. simpl.
  unfold byStart in *. by rewrite (proj2 (Z.leb_le _ _)).
Qed.

(** Sorting a sorted list with one more range at its end puts that range
    after the ranges that start no later than it. *)
Lemma sortByStart_snoc l n :
  StronglySorted byStart l ->
  exists l1 l2, l = l1 ++ l2 /\
    Forall (fun x => start x <= start n) l1 /\
    Forall (fun x => start n < start x) l2 /\
    sortByStart (l ++ [n]) = l1 ++ n :: l2.
Proof.
  unfold sortByStart. rewrite foldr_snoc. simpl.
  induction 1 as [|x l Hs IH Hall]; simpl.
  - exists [], []. by repeat split.
  - destruct IH as (l1 & l2 & -> & H1 & H2 & ->).
    destruct (decide (start x <= start n)) as [Hle|Hgt].
    + exists (x :: l1), l2. split; [done|]. split; [by constructor|]. split; [done|].
      simpl. apply insertByStart_first.
      apply Forall_app. apply Forall_app in Hall as [Hall1 Hall2].
      split; [done|]. constructor; [done | done].
    + assert (l1 = []) as ->.
      { destruct l1 as [|y l1]; [done|]. exfalso.
        inversion H1; subst. inversion Hall; subst. unfold byStart in *. lia. }
      exists [], (x :: l2). simpl. split; [done|]. split; [done|].
      split; [constructor; [lia | done]|].
      rewrite (proj2 (Z.leb_gt _ _)) by lia. f_equal. by apply insertByStart_first.
Qed.

Lemma mergeLoop_absorb_here r n l2 :
  start n <= end_ r + 1 -> end_ n <= end_ r -> Sorted apart (r :: l2) ->
  mergeLoop r (n :: l2) = r :: l2.
Proof.
  intros H1 H2 Hs. simpl. rewrite (proj2 (Z.leb_le _ _)) by done.
  rewrite Z.max_l by done.
  replace (mkRange (start r) (end_ r)) with r by (by destruct r).
  by apply mergeLoop_apart_id.
Qed.

Lemma mergeLoop_absorb l0 a r n l2 :
  start n <= end_ r + 1 -> end_ n <= end_ r -> Sorted apart (a :: l0 ++ r :: l2) ->
  mergeLoop a (l0 ++ r :: n :: l2) = a :: l0 ++ r :: l2.
Proof.
  intros H1 H2. revert a. induction l0 as [|b l0 IH]; intros a Hs; simpl in *.
  - inversion Hs as [|? ? Hs' Hhd]; subst. inversion Hhd; subst.
    unfold apart in *. rewrite (proj2 (Z.leb_gt _ _)) by lia.
    rewrite (proj2 (Z.leb_le _ _)) by done. rewrite Z.max_l by done.
    replace (mkRange (start r) (end_ r)) with r by (by destruct r).
    f_equal. by apply mergeLoop_apart_id.
  - inversion Hs as [|? ? Hs' Hhd]; subst. inversion Hhd; subst.
    unfold apart in *. rewrite (proj2 (Z.leb_gt _ _)) by lia.
    f_equal. by apply IH.
Qed.

(** X5.  Adding a range that a tracked range already contains leaves a
    canonical set unchanged. *)
Theorem addRange_covered_unchanged ranges r s e :
  canonical ranges -> r ∈ ranges ->
  start r <= s -> s <= e -> e <= end_ r ->
  addRange ranges s e = ranges.
Proof.
  intros Hcan Hr Hs Hse He. pose proof Hcan as [Ha Ho].
  unfold addRange, mergeRanges.
  destruct (sortByStart_snoc ranges (mkRange s e) (canonical_sortedStart _ Hcan))
    as (l1 & l2 & -> & H1 & H2 & ->). simpl in H1, H2.
  assert (Hr1 : r ∈ l1).
  { apply elem_of_app in Hr as [Hr|Hr]; [done|].
    rewrite Forall_forall in H2. specialize (H2 _ Hr). lia. }
  apply list_elem_of_split in Hr1 as (l0 & l1' & ->).
  assert (l1' = []) as ->.
  { destruct l1' as [|y l1']; [done|]. exfalso.
    assert (Hy : start y <= s).
    { rewrite Forall_forall in H1. apply H1. apply elem_of_app. right. right. left. }
    rewrite <- !app_assoc in Ha. apply StronglySorted_app_1_r in Ha.
    simpl in Ha. inversion Ha as [|? ? _ Hall]; subst. inversion Hall; subst.
    unfold apart in *. lia. }
  rewrite <- !app_assoc in *. cbn [app] in *.
  apply StronglySorted_Sorted in Ha.
  destruct l0 as [|a l0]; cbn [app] in *.
  - apply (mergeLoop_absorb_here r (mkRange s e) l2); simpl; [lia | lia | done].
  - apply (mergeLoop_absorb l0 a r (mkRange s e) l2); simpl; [lia | lia | done].
Qed.

Lemma addRange_covered_unchanged_witness :
  addRange [mkRange 0 2000; mkRange 4000 6000] 4500 5000
  = [mkRange 0 2000; mkRange 4000 6000].
Proof.
  apply (addRange_covered_unchanged [mkRange 0 2000; mkRange 4000 6000] (mkRange 4000 6000));
    simpl; try lia.
  - split; repeat constructor; unfold apart, ordered; simpl; lia.
  - right. left.
Defined.

Lemma StronglySorted_trichotomy {A} (R : A -> A -> Prop) l a b :
  StronglySorted R l -> a ∈ l -> b ∈ l -> a = b \/ R a b \/ R b a.
Proof.
  induction 1 as [|x l Hs IH Hall]; intros Ha Hb; [by apply elem_of_nil in Ha|].
  rewrite Forall_forall in Hall.
  apply elem_of_cons in Ha as [->|Ha]; apply elem_of_cons in Hb as [->|Hb]; auto.
Qed.

(** X6.  On a set whose ranges are pairwise apart, [isRangeLoaded] is exact
    for non-empty requests: it answers true precisely when every requested
    offset is covered by a tracked range. *)
Theorem isRangeLoaded_iff_covered ranges offset limit :
  StronglySorted apart ranges -> 0 < limit ->
  isRangeLoaded ranges offset limit = true <->
  forall x, offset <= x < offset + limit -> covered ranges x.
Proof.
  intros Hs Hpos. split.
  - intros H x Hx. apply isRangeLoaded_elim in H as (r & Hr & H1 & H2).
    apply Exists_exists. exists r. split; [done | lia].
  - intros Hall.
    destruct (proj1 (Exists_exists _ _) (Hall offset ltac:(lia))) as (r0 & Hr0 & H0).
    assert (Hk : forall k : nat, offset + Z.of_nat k < offset + limit ->
                   offset + Z.of_nat k < end_ r0).
    { induction k as [|k IH]; intros Hlt; [lia|].
      specialize (IH ltac:(lia)).
      destruct (proj1 (Exists_exists _ _) (Hall (offset + Z.of_nat (S k)) ltac:(lia)))
        as (r1 & Hr1 & H1).
      destruct (StronglySorted_trichotomy apart ranges r0 r1 Hs Hr0 Hr1) as [->|[Hap|Hap]];
        unfold apart in *; lia. }
    specialize (Hk (Z.to_nat (limit - 1)) ltac:(lia)).
    apply (isRangeLoaded_contains _ r0); [done | lia | lia].
Qed.

Lemma isRangeLoaded_iff_covered_witness :
  isRangeLoaded [mkRange 0 10; mkRange 20 30] 8 4 = false.
Proof.
  destruct (isRangeLoaded [mkRange 0 10; mkRange 20 30] 8 4) eqn:E; [|reflexivity].
  exfalso.
  pose proof (proj1 (isRangeLoaded_iff_covered [mkRange 0 10; mkRange 20 30] 8 4
                       ltac:(repeat constructor; unfold apart; simpl; lia) ltac:(lia)) E 10
                ltac:(lia)) as H.
  unfold covered in H. rewrite !Exists_cons, Exists_nil in H. simpl in H. lia.
Defined.

(** X7.  Shifting composes: evicting [b] rows and then [a >= 0] rows adjusts
    the ranges exactly as evicting [a + b] rows at once. *)
Theorem shiftRanges_compose a b ranges :
  0 <= a -> shiftRanges a (shiftRanges b ranges) = shiftRanges (a + b) ranges.
Proof.
  intros Ha. unfold shiftRanges.
  induction ranges as [|x l IH]; [done|].
  cbn [List.map List.filter start end_].
  destruct (Z.gtb_spec (Z.max 0 (end_ x - b)) (Z.max 0 (start x - b))) as [Hk|Hd];
    cbn [List.map List.filter start end_];
    destruct (Z.gtb_spec (Z.max 0 (end_ x - (a + b))) (Z.max 0 (start x - (a + b))))
      as [Hk'|Hd'].
  - destruct (Z.gtb_spec (Z.max 0 (Z.max 0 (end_ x - b) - a))
                (Z.max 0 (Z.max 0 (start x - b) - a))) as [Hk''|Hd'']; [|lia].
    rewrite IH. f_equal. f_equal; lia.
  - destruct (Z.gtb_spec (Z.max 0 (Z.max 0 (end_ x - b) - a))
                (Z.max 0 (Z.max 0 (start x - b) - a))) as [Hk''|Hd'']; [lia|].
    by rewrite IH.
  - lia.
  - by rewrite IH.
Qed.

Lemma shiftRanges_compose_witness :
  shiftRanges 3 (shiftRanges 4 [mkRange 0 5; mkRange 6 20]) = [mkRange 0 13].
Proof.
  rewrite (shiftRanges_compose 3 4 [mkRange 0 5; mkRange 6 20] ltac:(lia)). reflexivity.
Defined.

Lemma shiftRanges_apart d ranges :
  StronglySorted apart ranges -> StronglySorted apart (shiftRanges d ranges).
Proof.
  induction 1 as [|x l Hs IH Hall]; [constructor|].
  change (shiftRanges d (x :: l)) with
    (if Z.max 0 (end_ x - d) >? Z.max 0 (start x - d)
     then mkRange (Z.max 0 (start x - d)) (Z.max 0 (end_ x - d)) :: shiftRanges d l
     else shiftRanges d l).
  destruct (Z.gtb_spec (Z.max 0 (end_ x - d)) (Z.max 0 (start x - d))) as [Hk|Hd]; [|done].
  constructor; [done|]. apply Forall_forall. intros y' Hy'.
  apply shiftRanges_elem in Hy' as (y & Hy & -> & _).
  rewrite Forall_forall in Hall. specialize (Hall _ Hy).
  unfold apart in *. simpl. lia.
Qed.

(** X8.  The renormalisation law of eviction: after the ranges are shifted by
    [d], a non-empty request at a buffer offset [offset >= 0] is reported
    loaded exactly when the request at [offset + d] was loaded before. *)
Theorem isRangeLoaded_shiftRanges d ranges offset limit :
  0 <= offset -> 0 < limit ->
  isRangeLoaded (shiftRanges d ranges) offset limit = isRangeLoaded ranges (offset + d) limit.
Proof.
  intros Ho Hl. apply eq_true_iff_eq. split; intros H.
  - apply isRangeLoaded_elim in H as (r' & Hr' & H1 & H2).
    apply shiftRanges_elem in Hr' as (r & Hr & -> & _). simpl in *.
    apply (isRangeLoaded_contains _ r); [done | lia | lia].
  - apply isRangeLoaded_elim in H as (r & Hr & H1 & H2).
    apply (isRangeLoaded_contains _
             (mkRange (Z.max 0 (start r - d)) (Z.max 0 (end_ r - d)))); simpl; [|lia|lia].
    apply shiftRanges_elem. exists r. split; [done|]. split; [done|]. simpl. lia.
Qed.

Lemma isRangeLoaded_shiftRanges_witness :
  isRangeLoaded (shiftRanges 2000 [mkRange 0 12000]) 8000 2000 = true.
Proof.
  rewrite (isRangeLoaded_shiftRanges 2000 [mkRange 0 12000] 8000 2000 ltac:(lia) ltac:(lia)).
  reflexivity.
Defined.

End RangeLaws.

(** ** Data Window Store: invariants of the reducers *)

Section StoreInvariants.
Import Data RangeShape Reducers.

Lemma setSelectedMetrics_buffer ms s :
  allData (setSelectedMetrics ms s) = allData s /\
  loadedRanges (setSelectedMetrics ms s) = loadedRanges s /\
  needsDataRefresh (setSelectedMetrics ms s) = needsDataRefresh s.
Proof. unfold setSelectedMetrics. by destruct (_ <? _)%nat. Qed.

Lemma toggleMetric_buffer m s :
  allData (toggleMetric m s) = allData s /\
  loadedRanges (toggleMetric m s) = loadedRanges s /\
  needsDataRefresh (toggleMetric m s) = needsDataRefresh s.
Proof.
  unfold toggleMetric. destruct (indexOf _ _); simpl; by destruct (_ <? _)%nat.
Qed.

Lemma evict_loadedRanges s :
  loadedRanges (evict s) = loadedRanges s \/
  exists d, loadedRanges (evict s) = shiftRanges d (loadedRanges s).
Proof. unfold evict. destruct (_ >? _); [right; by eexists | by left]. Qed.

Lemma canonical_shift d l : StronglySorted apart l -> canonical (shiftRanges d l).
Proof.
  intros H. split; [by apply shiftRanges_apart|].
  eapply Forall_impl; [apply shiftRanges_bounds|]. unfold ordered. intros; simpl in *; lia.
Qed.

(** X9.  Every reducer of the slice keeps the tracked ranges canonical:
    starting from a canonical [loadedRanges] (the initial state has none),
    the ranges after any action are again in ascending order, pairwise at
    least two offsets apart, and none has inverted bounds. *)
Theorem loadedRanges_stay_canonical a s :
  canonical (loadedRanges s) -> canonical (loadedRanges (reduce a s)).
Proof.
  intros Hc.
  assert (Hnil : canonical []) by (split; constructor).
  destruct a; simpl; try done.
  - unfold addDimension. by destruct (negb _).
  - by rewrite (proj1 (proj2 (setSelectedMetrics_buffer _ _))).
  - by rewrite (proj1 (proj2 (toggleMetric_buffer _ _))).
  - split; repeat constructor. unfold ordered. simpl. lia.
  - unfold fetchInitialData_rejected. by destruct (negb _).
  - unfold fetchDataRange_pending. by destruct (default _ _).
  - destruct payload as [p|]; simpl; [|done].
    assert (Hm : canonical (loadedRanges (appendAndTrack p s))).
    { rewrite appendAndTrack_loadedRanges. unfold addRange. apply mergeRanges_shape.
      apply Forall_app. split; [apply Hc|]. repeat constructor. unfold ordered. simpl. lia. }
    destruct (evict_loadedRanges (appendAndTrack p s)) as [->|[d ->]]; [done|].
    apply canonical_shift, Hm.
Qed.

Lemma loadedRanges_stay_canonical_witness :
  canonical (loadedRanges
    (reduce (PRangeFulfilled
               (Some (mkRangePayload (mkResponse [] [] [[CNum 7]; [CNum 8]] 50 1 false) 1 true)))
       (reduce (PInitialFulfilled
                  (mkInitialPayload (mkResponse [] [] [[CNum 5]] 50 1 false) []))
          initialState))).
Proof.
  apply loadedRanges_stay_canonical, loadedRanges_stay_canonical.
  split; constructor.
Defined.

(** X10.  A fulfilled range fetch never leaves more than [MAX_CACHED_ROWS]
    rows in the buffer: the new length is the smaller of the appended length
    and the ceiling. *)
Theorem fulfilled_buffer_bounded p s :
  Z.of_nat (length (allData (fetchDataRange_fulfilled (Some p) s))) =
  Z.min (Z.of_nat (length (allData s) + length (respData (rpResponse p)))) MAX_CACHED_ROWS.
Proof.
  simpl. pose proof (appendAndTrack_allData p s) as Hb.
  assert (Hl : length (allData (appendAndTrack p s)) =
               (length (allData s) + length (respData (rpResponse p)))%nat)
    by (by rewrite Hb, length_app).
  destruct (Z_le_gt_dec (Z.of_nat (length (allData (appendAndTrack p s)))) MAX_CACHED_ROWS)
    as [Hle|Hgt].
  - rewrite evict_below by done. lia.
  - destruct (evict_above _ Hgt) as (-> & _). rewrite length_drop.
    unfold MAX_CACHED_ROWS in *. lia.
Qed.

Lemma visibleData_app allColumns a b dims ms :
  visibleData (filterVisibleData allColumns (a ++ b) dims ms) =
  visibleData (filterVisibleData allColumns a dims ms) ++
  visibleData (filterVisibleData allColumns b dims ms).
Proof. unfold filterVisibleData. simpl. apply map_app. Qed.

Lemma visibleData_drop allColumns a k dims ms :
  visibleData (filterVisibleData allColumns (drop k a) dims ms) =
  drop k (visibleData (filterVisibleData allColumns a dims ms)).
Proof. unfold filterVisibleData. simpl. symmetry. apply skipn_map. Qed.

Lemma typesOf_length allColumns allColumnTypes cols :
  length (typesOf allColumns allColumnTypes cols) = length cols.
Proof. unfold typesOf. apply length_map. Qed.

Lemma visible_row_lengths allColumns allData dims ms :
  let v := filterVisibleData allColumns allData dims ms in
  Forall (fun row => length row = length (visibleColumnsOf v)) (visibleData v).
Proof.
  unfold filterVisibleData. simpl. apply Forall_forall. intros row Hrow.
  apply list_elem_of_In, in_map_iff in Hrow as (r & <- & _). by rewrite !length_map.
Qed.

Lemma appendAndTrack_projected p s : projected (appendAndTrack p s).
Proof. unfold appendAndTrack, projected. by destruct (rpIsPrefetch p). Qed.

Lemma evict_projected s : projected s -> projected (evict s).
Proof.
  unfold evict, projected. destruct (_ >? _); [|done]. simpl. intros (Hc & _ & Ht).
  by repeat split.
Qed.

(** X11.  After a fulfilled initial load, and after a fulfilled range fetch
    that carried data (with or without eviction), the visible triple is the
    projection of the buffer as it then is: [columns], [data] and
    [columnTypes] are what [filterVisibleData] gives for the current buffer
    and selection, every visible row has exactly one cell per visible column,
    and there is one type per visible column. *)
Theorem fulfilled_fetch_reprojects (ip : InitialPayload) (p : RangePayload) s :
  let wellShaped := fun s' =>
    projected s' /\
    Forall (fun row => length row = length (columns s')) (data s') /\
    length (columnTypes s') = length (columns s') /\
    length (data s') = length (allData s') in
  wellShaped (fetchInitialData_fulfilled ip s) /\
  wellShaped (fetchDataRange_fulfilled (Some p) s).
Proof.
  assert (Hshape : forall s', projected s' ->
            projected s' /\
            Forall (fun row => length row = length (columns s')) (data s') /\
            length (columnTypes s') = length (columns s') /\
            length (data s') = length (allData s')).
  { intros s' Hp. split; [done|]. destruct Hp as (Hc & Hd & Ht).
    rewrite Hc, Hd, Ht. split; [apply visible_row_lengths|].
    split; [apply typesOf_length|]. apply filterVisibleData_data. }
  cbv zeta. split; apply Hshape.
  - by repeat split.
  - apply evict_projected, appendAndTrack_projected.
Qed.

(** X12.  The visible rows follow the buffer.  If [data] is the projection of
    the buffer, then after a fulfilled range fetch [data] is the old [data]
    with the projection of the received rows appended, and with the same
    number of rows dropped from the front as the eviction dropped from the
    buffer. *)
Theorem fulfilled_visible_rows p s :
  data s = visibleData (filterVisibleData (allColumns s) (allData s)
                          (selectedDimensions s) (selectedMetrics s)) ->
  let newData := respData (rpResponse p) in
  let excess := Z.of_nat (length (allData s) + length newData) - MAX_CACHED_ROWS in
  data (fetchDataRange_fulfilled (Some p) s) =
  drop (Z.to_nat excess)
    (data s ++ visibleData (filterVisibleData (allColumns s) newData
                              (selectedDimensions s) (selectedMetrics s))).
Proof.
  intros Hd newData excess. rewrite Hd, <- visibleData_app, <- visibleData_drop.
  pose proof (appendAndTrack_allData p s) as Hb. fold newData in Hb.
  destruct (appendAndTrack_frame p s) as (Hc & Hdim & Hmet).
  destruct (appendAndTrack_projected p s) as (_ & Hpd & _).
  rewrite Hb, Hc, Hdim, Hmet in Hpd.
  assert (Hl : length (allData (appendAndTrack p s)) = (length (allData s) + length newData)%nat)
    by (by rewrite Hb, length_app).
  simpl.
  destruct (Z_le_gt_dec (Z.of_nat (length (allData (appendAndTrack p s)))) MAX_CACHED_ROWS)
    as [Hle|Hgt].
  - rewrite evict_below by done. rewrite Hpd.
    replace (Z.to_nat excess) with 0%nat by (subst excess; lia). done.
  - destruct (evict_above _ Hgt) as (_ & _ & ->).
    rewrite Hb, Hc, Hdim, Hmet.
    replace (Z.to_nat excess)
      with (Z.to_nat (Z.of_nat (length (allData s ++ newData)) - MAX_CACHED_ROWS));
      [done|]. rewrite length_app. subst excess. lia.
Qed.

Lemma fulfilled_visible_rows_witness :
  let s := fetchInitialData_fulfilled
             (mkInitialPayload
                (mkResponse ["master_brand_id"; "ads_spend"; "clicks"]%string [] 
                   [[CStr "a"; CNum 1; CNum 9]] 9 1 false) [])
             initialState in
  let p := mkRangePayload (mkResponse [] [] [[CStr "b"; CNum 2; CNum 8]] 9 1 false) 1 false in
  data (fetchDataRange_fulfilled (Some p) s) = [[CStr "a"; CNum 1]; [CStr "b"; CNum 2]].
Proof.
  cbv zeta.
  rewrite (fulfilled_visible_rows
             (mkRangePayload (mkResponse [] [] [[CStr "b"; CNum 2; CNum 8]] 9 1 false) 1 false)
             (fetchInitialData_fulfilled
                (mkInitialPayload
                   (mkResponse ["master_brand_id"; "ads_spend"; "clicks"]%string []
                      [[CStr "a"; CNum 1; CNum 9]] 9 1 false) [])
                initialState) ltac:(vm_compute; reflexivity)).
  vm_compute. reflexivity.
Defined.

End StoreInvariants.

(** ** Data Window Store: structural changes, requests, load-more *)

Section StoreBehaviour.
Import Data RangeShape Reducers Structural.

(** X13.  A structural change (new dimension list, a dimension added or
    removed, filters set, added or removed, sort set) empties the buffer and
    the tracked ranges and raises [needsDataRefresh], so that no request is
    reported loaded any more; it does not touch the visible [data] and
    [columns], [totalRows], the flags or the error, which keep describing the
    previous result until the next load is fulfilled. *)
Theorem structural_change_resets a s :
  resets a s = true ->
  let s' := reduce a s in
  allData s' = [] /\ loadedRanges s' = [] /\ needsDataRefresh s' = true /\
  (forall offset limit, isRangeLoaded (loadedRanges s') offset limit = false) /\
  data s' = data s /\ columns s' = columns s /\ totalRows s' = totalRows s /\
  isLoading s' = isLoading s /\ isPrefetching s' = isPrefetching s /\ error s' = error s.
Proof.
  intros Hr. destruct a; simpl in Hr; try discriminate; cbv zeta; simpl;
    try (by repeat split).
  unfold addDimension. rewrite Hr. by repeat split.
Qed.

Lemma structural_change_resets_witness :
  let s := initialState |> set_allData [[CNum 1]] |> set_data [[CNum 1]]
                        |> set_loadedRanges [mkRange 0 1] in
  allData (reduce (PAddDimension "category"%string) s) = [] /\
  data (reduce (PAddDimension "category"%string) s) = [[CNum 1]] /\
  reduce (PAddDimension "master_brand_id"%string) s = s.
Proof.
  cbv zeta.
  pose proof (structural_change_resets (PAddDimension "category"%string)
                (initialState |> set_allData [[CNum 1]] |> set_data [[CNum 1]]
                              |> set_loadedRanges [mkRange 0 1]) eq_refl) as H.
  cbv zeta in H. destruct H as (Ha & _ & _ & _ & Hd & _).
  split; [exact Ha|]. split; [exact Hd | reflexivity].
Defined.

(** X14.  Changing the search text or the comparison period is not
    structural in this slice: the buffer, the tracked ranges and
    [needsDataRefresh] stay as they are, and every range request issued
    afterwards carries the new search text (resp. comparison) while the
    buffer still holds the rows of the previous query. *)
Theorem search_and_comparison_keep_buffer text cmp s :
  let s1 := setSearchText text s in
  let s2 := setComparison cmp s in
  (allData s1 = allData s /\ loadedRanges s1 = loadedRanges s /\
   needsDataRefresh s1 = needsDataRefresh s /\ data s1 = data s) /\
  (allData s2 = allData s /\ loadedRanges s2 = loadedRanges s /\
   needsDataRefresh s2 = needsDataRefresh s /\ data s2 = data s) /\
  (forall queryRaw params call,
     call ∈ snd (dispatch queryRaw (FetchDataRange params) s1) ->
     reqSearch (callRequest call) = searchOf text) /\
  (forall queryRaw params call,
     call ∈ snd (dispatch queryRaw (FetchDataRange params) s2) ->
     reqComparison (callRequest call) = cmp).
Proof.
  cbv zeta. split; [by repeat split|]. split; [by repeat split|].
  split; intros queryRaw params call; simpl; unfold fetchDataRange, fetchDataRange_pending;
    destruct (default false (isPrefetch params)); simpl;
    destruct (metadata s); simpl; try (intros H; by apply elem_of_nil in H);
    destruct (isRangeLoaded _ _ _); simpl; try (intros H; by apply elem_of_nil in H);
    intros H; apply list_elem_of_singleton in H; by subst.
Qed.

(** X15.  Deduplication is exact.  Dispatching [fetchDataRange] makes no
    collaborator call exactly when the metadata is missing or the requested
    range is reported loaded; otherwise it makes exactly one call, for the
    requested offset and limit (the batch size by default), in the prefetch
    or foreground scope as asked, with all the metrics of the metadata (not
    only the selected ones) and the selected dimensions. *)
Theorem fetchDataRange_calls_exactly queryRaw params s :
  let calls := snd (dispatch queryRaw (FetchDataRange params) s) in
  let limit' := default BATCH_SIZE (limit params) in
  (calls = [] <->
   metadata s = None \/ isRangeLoaded (loadedRanges s) (offset params) limit' = true) /\
  (length calls <= 1)%nat /\
  (forall call, call ∈ calls ->
     reqOffset (callRequest call) = offset params /\
     reqLimit (callRequest call) = limit' /\
     callIsPrefetch call = default false (isPrefetch params) /\
     reqDimensions (callRequest call) = selectedDimensions s /\
     Some (reqMetrics (callRequest call)) = metricNames <$> metadata s).
Proof.
  cbv zeta. simpl. unfold fetchDataRange, fetchDataRange_pending.
  assert (Hm : forall b : bool, metadata (if b then s |> set_isPrefetching true
                                   else s |> set_isLoading true) = metadata s)
    by (by intros []).
  assert (Hl : forall b : bool, loadedRanges (if b then s |> set_isPrefetching true
                                       else s |> set_isLoading true) = loadedRanges s)
    by (by intros []).
  rewrite Hm, Hl.
  destruct (metadata s) as [md|] eqn:Hmd; simpl.
  - destruct (isRangeLoaded _ _ _) eqn:Hld; simpl.
    + split; [split; [by right | done]|]. split; [lia|].
      intros call H. by apply elem_of_nil in H.
    + split; [split; [done | by intros [?|?]]|]. split; [lia|].
      intros call H. apply list_elem_of_singleton in H as ->. simpl.
      by destruct (default false (isPrefetch params)).
  - split; [split; [by left | done]|]. split; [lia|].
    intros call H. by apply elem_of_nil in H.
Qed.

(** X16.  Without metadata neither data thunk reaches the collaborator.  The
    initial load is rejected with ["Metadata not loaded"], which is stored in
    [error], and lowers [isLoading] and [needsDataRefresh]; the range fetch
    is rejected silently: both flags are lowered and [error] is untouched.
    The buffer and the ranges are unchanged in both cases. *)
Theorem fetch_without_metadata queryRaw params s :
  metadata s = None ->
  let s1 := fst (dispatch queryRaw FetchInitialData s) in
  let s2 := fst (dispatch queryRaw (FetchDataRange params) s) in
  snd (dispatch queryRaw FetchInitialData s) = [] /\
  snd (dispatch queryRaw (FetchDataRange params) s) = [] /\
  error s1 = Some "Metadata not loaded"%string /\
  isLoading s1 = false /\ needsDataRefresh s1 = false /\
  currentQueryId s1 = currentQueryId s + 1 /\
  allData s1 = allData s /\ loadedRanges s1 = loadedRanges s /\
  error s2 = error s /\ isLoading s2 = false /\ isPrefetching s2 = false /\
  allData s2 = allData s /\ loadedRanges s2 = loadedRanges s.
Proof.
  intros Hmd. cbv zeta. simpl. unfold fetchInitialData, fetchDataRange, fetchDataRange_pending.
  destruct (default false (isPrefetch params)); simpl; rewrite Hmd; simpl; by repeat split.
Qed.

Lemma fetch_without_metadata_witness :
  error (fst (dispatch (fun _ _ => QueryFailed None) FetchInitialData initialState))
  = Some "Metadata not loaded"%string.
Proof.
  exact (proj1 (proj2 (proj2 (fetch_without_metadata (fun _ _ => QueryFailed None)
                                (mkParams 0 None None) initialState eq_refl)))).
Defined.

Lemma indexOf_snoc l m : m ∉ l -> indexOf (l ++ [m]) m = Some (length l).
Proof.
  induction l as [|x l IH]; intros Hn; simpl.
  - by rewrite String.eqb_refl.
  - destruct (String.eqb_spec x m) as [->|Hne]; [exfalso; apply Hn; left|].
    rewrite IH; [done|]. intros H. apply Hn. by right.
Qed.

Lemma delete_snoc {A} (l : list A) (x : A) : delete (length l) (l ++ [x]) = l.
Proof. induction l as [|y l IH]; simpl; [done | by rewrite IH]. Qed.

Lemma refilter_overwrite ms ms' s :
  refilter ms (set_selectedMetrics ms (refilter ms' (set_selectedMetrics ms' s)))
  = refilter ms (set_selectedMetrics ms s).
Proof. reflexivity. Qed.

Lemma set_selectedMetrics_twice ms ms' s :
  set_selectedMetrics ms (set_selectedMetrics ms' s) = set_selectedMetrics ms s.
Proof. reflexivity. Qed.

Lemma set_selectedMetrics_id s : set_selectedMetrics (selectedMetrics s) s = s.
Proof. by destruct s. Qed.

Lemma refilter_id s : projected s -> refilter (selectedMetrics s) s = s.
Proof.
  destruct s. unfold projected, refilter. cbn [allColumns allData selectedDimensions selectedMetrics allColumnTypes columns data columnTypes].
  intros (-> & -> & ->). reflexivity.
Qed.

(** X17.  Toggling a metric on and off again is a round trip: for a metric
    that is not selected, two [toggleMetric] in a row give back the state
    they started from, provided the buffer is empty or the visible triple was
    the projection of the buffer. *)
Theorem toggleMetric_twice m s :
  m ∉ selectedMetrics s -> allData s = [] \/ projected s ->
  toggleMetric m (toggleMetric m s) = s.
Proof.
  intros Hm Hp.
  assert (H1 : toggleMetric m s =
               if (0 <? length (allData s))%nat
               then refilter (selectedMetrics s ++ [m])
                      (set_selectedMetrics (selectedMetrics s ++ [m]) s)
               else set_selectedMetrics (selectedMetrics s ++ [m]) s).
  { unfold toggleMetric. by rewrite (proj2 (indexOf_None _ _) Hm). }
  assert (H2 : forall t, selectedMetrics t = selectedMetrics s ++ [m] ->
                 toggleMetric m t =
                 if (0 <? length (allData t))%nat
                 then refilter (selectedMetrics s) (set_selectedMetrics (selectedMetrics s) t)
                 else set_selectedMetrics (selectedMetrics s) t).
  { intros t Ht. unfold toggleMetric. rewrite Ht, indexOf_snoc by done.
    by rewrite delete_snoc. }
  rewrite H1. destruct (0 <? length (allData s))%nat eqn:Hlen.
  - rewrite H2 by done.
    change (allData (refilter _ (set_selectedMetrics _ s))) with (allData s).
    rewrite Hlen, refilter_overwrite.
    destruct Hp as [Hp|Hp]; [rewrite Hp in Hlen; discriminate|].
    rewrite set_selectedMetrics_id. by apply refilter_id.
  - rewrite H2 by done.
    change (allData (set_selectedMetrics _ s)) with (allData s).
    rewrite Hlen. rewrite set_selectedMetrics_twice. apply set_selectedMetrics_id.
Qed.

Lemma toggleMetric_twice_witness :
  toggleMetric "clicks" (toggleMetric "clicks" initialState) = initialState.
Proof.
  apply toggleMetric_twice; [|by left].
  simpl. intros H. repeat (apply elem_of_cons in H as [H|H]; [discriminate|]).
  by apply elem_of_nil in H.
Defined.

(** X18.  A fulfilled initial load replaces the buffer by the received rows
    and tracks exactly the prefix [[0, received.length)]: a request is
    reported loaded precisely when it lies within that prefix.  More data is
    announced exactly when fewer rows were received than [totalRows]. *)
Theorem initial_load_tracks_prefix ip s :
  let s' := fetchInitialData_fulfilled ip s in
  let len := Z.of_nat (length (respData (ipResponse ip))) in
  allData s' = respData (ipResponse ip) /\
  loadedRanges s' = [mkRange 0 len] /\
  (forall offset limit,
     isRangeLoaded (loadedRanges s') offset limit = true <->
     0 <= offset /\ offset + limit <= len) /\
  selectHasMoreData s' = (len <? respTotalRows (ipResponse ip)) /\
  isLoading s' = false /\ needsDataRefresh s' = false /\ error s' = error s.
Proof.
  cbv zeta. split; [done|]. split; [done|]. split; [|by repeat split].
  intros offset limit. simpl. unfold isRangeLoaded. simpl.
  rewrite orb_false_r, andb_true_iff, Z.leb_le, Z.geb_le. lia.
Qed.

Lemma addRange_prefix (a n : nat) :
  addRange [mkRange 0 (Z.of_nat a)] (Z.of_nat a) (Z.of_nat a + Z.of_nat n)
  = [mkRange 0 (Z.of_nat a + Z.of_nat n)].
Proof.
  unfold addRange, mergeRanges. cbn [app sortByStart foldr insertByStart start end_].
  rewrite (proj2 (Z.leb_le 0 (Z.of_nat a))) by lia.
  cbn [mergeLoop start end_].
  rewrite (proj2 (Z.leb_le _ _)) by lia.
  f_equal. f_equal. lia.
Qed.

Lemma fulfilled_keeps_prefix p s :
  loadedRanges s = [mkRange 0 (Z.of_nat (length (allData s)))] ->
  rpOffset p = Z.of_nat (length (allData s)) ->
  let s' := fetchDataRange_fulfilled (Some p) s in
  loadedRanges s' = [mkRange 0 (Z.of_nat (length (allData s')))].
Proof.
  intros Hr Ho. cbv zeta. simpl.
  pose proof (appendAndTrack_allData p s) as Hb.
  pose proof (appendAndTrack_loadedRanges p s) as Hl.
  rewrite Hr, Ho, addRange_prefix in Hl.
  assert (Hlen : Z.of_nat (length (allData (appendAndTrack p s))) =
                 Z.of_nat (length (allData s)) + Z.of_nat (length (respData (rpResponse p))))
    by (rewrite Hb, length_app; lia).
  destruct (Z_le_gt_dec (Z.of_nat (length (allData (appendAndTrack p s)))) MAX_CACHED_ROWS)
    as [Hle|Hgt].
  - rewrite evict_below by done. by rewrite Hl, Hlen.
  - destruct (evict_above _ Hgt) as (Ha & -> & _). rewrite Ha, Hl, length_drop.
    unfold shiftRanges. cbn [List.map List.filter start end_].
    unfold MAX_CACHED_ROWS in *.
    destruct (Z.gtb_spec (Z.max 0 (Z.of_nat (length (allData s)) +
                                   Z.of_nat (length (respData (rpResponse p))) -
                                   (Z.of_nat (length (allData (appendAndTrack p s))) - 10000)))
                (Z.max 0 (0 - (Z.of_nat (length (allData (appendAndTrack p s))) - 10000))));
      [|lia].
    f_equal. f_equal; lia.
Qed.

Lemma fetchDataRange_pending_frame params s :
  allData (fetchDataRange_pending params s) = allData s /\
  loadedRanges (fetchDataRange_pending params s) = loadedRanges s.
Proof. unfold fetchDataRange_pending. by destruct (default false (isPrefetch params)). Qed.

(** The three ways a dispatched range fetch can settle. *)
Lemma dispatch_range_outcome queryRaw params s :
  let s1 := fetchDataRange_pending params s in
  let s' := fst (dispatch queryRaw (FetchDataRange params) s) in
  (exists msg, s' = fetchDataRange_rejected msg s1) \/
  s' = fetchDataRange_fulfilled None s1 \/
  (exists response,
     s' = fetchDataRange_fulfilled
            (Some (mkRangePayload response (offset params)
                     (default false (isPrefetch params)))) s1).
Proof.
  cbv zeta. unfold dispatch, fetchDataRange.
  destruct (metadata _); [|left; by exists None].
  destruct (isRangeLoaded _ _ _); [right; left; reflexivity|].
  unfold runThunk.
  destruct (queryRaw _ _) as [response|message];
    [right; right; by exists response | left; by exists message].
Qed.

(** X19.  Under [handleLoadMore] the tracker stays the single range
    [[0, bufferLength)]: if the tracked ranges are that prefix before the
    call, they are that prefix of the new buffer after it, whatever the
    collaborator answers and whether or not rows were evicted. *)
Theorem handleLoadMore_keeps_prefix queryRaw s :
  loadedRanges s = [mkRange 0 (Z.of_nat (length (allData s)))] ->
  let s' := fst (handleLoadMore queryRaw s) in
  loadedRanges s' = [mkRange 0 (Z.of_nat (length (allData s')))].
Proof.
  intros Hr. cbv zeta. unfold handleLoadMore.
  destruct (isLoading s || isPrefetching s); [done|].
  destruct (_ >=? _); [done|].
  destruct (fetchDataRange_pending_frame
              (mkParams (Z.of_nat (length (allData s))) (Some 2000) (Some false)) s)
    as (Hpa & Hpl).
  destruct (dispatch_range_outcome queryRaw
              (mkParams (Z.of_nat (length (allData s))) (Some 2000) (Some false)) s)
    as [[msg ->]|[->|[response ->]]].
  - change (loadedRanges (fetchDataRange_rejected msg ?t)) with (loadedRanges t).
    change (allData (fetchDataRange_rejected msg ?t)) with (allData t).
    by rewrite Hpa, Hpl.
  - change (loadedRanges (fetchDataRange_fulfilled None ?t)) with (loadedRanges t).
    change (allData (fetchDataRange_fulfilled None ?t)) with (allData t).
    by rewrite Hpa, Hpl.
  - apply fulfilled_keeps_prefix.
    + by rewrite Hpa, Hpl.
    + by rewrite Hpa.
Qed.

Lemma handleLoadMore_keeps_prefix_witness :
  let s := initialState |> set_metadata (Some (mkMetadata "t" [] []))
                        |> set_allData [[CNum 1]; [CNum 2]]
                        |> set_loadedRanges [mkRange 0 2] |> set_totalRows 5 in
  let queryRaw := fun _ _ => QueryOk (mkResponse [] [] [[CNum 3]; [CNum 4]] 5 1 false) in
  loadedRanges (fst (handleLoadMore queryRaw s)) = [mkRange 0 4].
Proof.
  cbv zeta.
  rewrite (handleLoadMore_keeps_prefix
             (fun _ _ => QueryOk (mkResponse [] [] [[CNum 3]; [CNum 4]] 5 1 false))
             (initialState |> set_metadata (Some (mkMetadata "t" [] []))
                           |> set_allData [[CNum 1]; [CNum 2]]
                           |> set_loadedRanges [mkRange 0 2] |> set_totalRows 5)
             ltac:(vm_compute; reflexivity)).
  vm_compute. reflexivity.
Defined.

(** X20.  [handleLoadMore] does nothing while a load or a prefetch is
    running or when the buffer already holds [totalRows] rows.  Otherwise,
    with the metadata loaded and the tracker at the prefix
    [[0, bufferLength)], it makes exactly one foreground call, for the 2000
    rows that start at the buffer length. *)
Theorem handleLoadMore_requests_tail queryRaw s :
  let len := Z.of_nat (length (allData s)) in
  (isLoading s || isPrefetching s = true \/ totalRows s <= len ->
   handleLoadMore queryRaw s = (s, [])) /\
  (forall md,
     metadata s = Some md -> loadedRanges s = [mkRange 0 len] ->
     isLoading s = false -> isPrefetching s = false -> len < totalRows s ->
     exists request,
       snd (handleLoadMore queryRaw s) = [mkCall request false] /\
       reqOffset request = len /\ reqLimit request = 2000 /\
       reqMetrics request = metricNames md).
Proof.
  cbv zeta. unfold handleLoadMore. split.
  - intros [->|Hle]; [done|]. destruct (_ || _); [done|].
    by rewrite (proj2 (Z.geb_le _ _)).
  - intros md Hmd Hr Hl Hp Hlt. rewrite Hl, Hp. simpl.
    destruct (Z.geb_spec (Z.of_nat (length (allData s))) (totalRows s)); [lia|].
    simpl. unfold fetchDataRange, fetchDataRange_pending. simpl. rewrite Hmd, Hr. simpl.
    unfold isRangeLoaded. simpl.
    replace (Z.of_nat (length (allData s)) >=? Z.of_nat (length (allData s)) + 2000)
      with false by (symmetry; rewrite Z.geb_leb; apply Z.leb_gt; lia).
    rewrite andb_false_r. simpl. eexists. split; [reflexivity|]. by repeat split.
Qed.

Lemma handleLoadMore_requests_tail_witness :
  let s := initialState |> set_allData [[CNum 1]; [CNum 2]] |> set_totalRows 2 in
  handleLoadMore (fun _ _ => QueryFailed None) s = (s, []).
Proof.
  cbv zeta.
  apply (proj1 (handleLoadMore_requests_tail (fun _ _ => QueryFailed None)
                  (initialState |> set_allData [[CNum 1]; [CNum 2]] |> set_totalRows 2))).
  right. simpl. lia.
Defined.

Lemma dispatch_initial_clears_refresh queryRaw s :
  needsDataRefresh (fst (dispatch queryRaw FetchInitialData s)) = false.
Proof.
  simpl. unfold fetchInitialData. simpl. destruct (metadata s); simpl.
  - destruct (queryRaw _ _); simpl; [done|].
    unfold fetchInitialData_rejected. by destruct (negb _).
  - done.
Qed.

(** X21.  The refresh effect fires once: after it has run, whatever the
    collaborator answered (success, failure, cancellation) or whether it had
    anything to do, running it again makes no collaborator call.  A failed
    initial load is therefore not retried by the effect. *)
Theorem refreshEffect_runs_once queryRaw queryRaw' s :
  snd (refreshEffect queryRaw' (fst (refreshEffect queryRaw s))) = [].
Proof.
  unfold refreshEffect at 2.
  destruct (bool_decide (is_Some (metadata s)) && needsDataRefresh s
            && (0 <? length (selectedDimensions s))%nat) eqn:Hc.
  - unfold refreshEffect. rewrite dispatch_initial_clears_refresh.
    by rewrite andb_false_r.
  - unfold refreshEffect. cbn [fst]. by rewrite Hc.
Qed.

End StoreBehaviour.

(** ** The table: rendered rows, scroll gate, triggers, labels *)

Section ViewportFacts.
Import Data Windowing TableShape.

Lemma slice_in_range {A} (l : list A) (a b : Z) :
  0 <= a -> 0 <= b <= Z.of_nat (length l) ->
  Viewport.slice l a b = take (Z.to_nat (b - a)) (drop (Z.to_nat a) l).
Proof.
  intros Ha Hb. unfold Viewport.slice.
  rewrite (proj2 (Z.ltb_ge a 0)) by lia. rewrite (proj2 (Z.ltb_ge b 0)) by lia.
  rewrite (Z.min_l b) by lia.
  destruct (Z.min_spec a (Z.of_nat (length l))) as [[Hlt ->]|[Hge ->]]; [done|].
  replace (Z.to_nat (b - Z.of_nat (length l))) with 0%nat by lia.
  replace (Z.to_nat (b - a)) with 0%nat by lia. done.
Qed.

Lemma ceilDiv_add_le a b h :
  0 < h -> ceilDiv (a + b) h - floorDiv a h <= ceilDiv b h + 1.
Proof.
  intros Hh.
  pose proof (ceilDiv_spec (a + b) h Hh). pose proof (floorDiv_spec a h Hh).
  pose proof (ceilDiv_spec b h Hh). nia.
Qed.

(** X22.  What the table renders.  For a positive row height, a
    non-negative scroll position and a container at least as high as header
    and status bar, the rendered rows are exactly the buffer rows
    [startIndex <= i < endIndex] in order; every buffer row whose pixel span
    meets the viewport is among them; and there are never more than
    [visibleRows + 2 * overscan + 1] of them, however long the buffer is. *)
Theorem visibleRows_are_window data rowHeight containerHeight scrollTop :
  0 < rowHeight -> 0 <= scrollTop -> 84 <= containerHeight ->
  let w := Viewport.tableWindow data rowHeight containerHeight scrollTop in
  let rows := Viewport.visibleRows data rowHeight containerHeight scrollTop in
  Z.of_nat (length rows) = Z.max 0 (endIndex w - startIndex w) /\
  (forall k, (k < length rows)%nat -> rows !! k = data !! (Z.to_nat (startIndex w) + k)%nat) /\
  (forall i row, data !! i = Some row ->
     rowIntersects rowHeight scrollTop (containerHeight - 48 - 36) (Z.of_nat i) ->
     rows !! (i - Z.to_nat (startIndex w))%nat = Some row) /\
  Z.of_nat (length rows) <= Windowing.visibleRows w + 2 * 10 + 1.
Proof.
  intros Hh Hs HH w rows.
  set (cfg := mkConfig (Z.of_nat (length data)) rowHeight (containerHeight - 48 - 36) (Some 10)).
  pose proof (floorDiv_spec scrollTop rowHeight Hh) as Hf.
  pose proof (ceilDiv_spec (scrollTop + (containerHeight - 48 - 36)) rowHeight Hh) as Hc.
  pose proof (ceilDiv_add_le scrollTop (containerHeight - 48 - 36) rowHeight Hh) as Hsz.
  assert (Hst : startIndex w = Z.max 0 (floorDiv scrollTop rowHeight - 10)) by done.
  assert (Hen : endIndex w = Z.min (Z.of_nat (length data))
                  (ceilDiv (scrollTop + (containerHeight - 48 - 36)) rowHeight + 10)) by done.
  assert (Hvis : Windowing.visibleRows w = ceilDiv (containerHeight - 48 - 36) rowHeight) by done.
  assert (H0f : 0 <= floorDiv scrollTop rowHeight) by nia.
  assert (H0c : 0 <= ceilDiv (scrollTop + (containerHeight - 48 - 36)) rowHeight) by nia.
  assert (Hrows : rows = take (Z.to_nat (endIndex w - startIndex w))
                           (drop (Z.to_nat (startIndex w)) data)).
  { subst rows. unfold Viewport.visibleRows. fold w. apply slice_in_range; lia. }
  assert (Hlen : Z.of_nat (length rows) = Z.max 0 (endIndex w - startIndex w)).
  { rewrite Hrows, length_take, length_drop. lia. }
  split; [done|]. split; [|split].
  - intros k Hk. rewrite Hrows, lookup_take_lt, lookup_drop; [done|]. lia.
  - intros i row Hi Hint. apply rowIntersects_iff in Hint; [|done].
    apply lookup_lt_Some in Hi as Hil.
    rewrite Hrows, lookup_take_lt, lookup_drop by lia.
    rewrite <- Hi. f_equal. lia.
  - pose proof (ceilDiv_spec (containerHeight - 48 - 36) rowHeight Hh) as Hv.
    assert (0 <= ceilDiv (containerHeight - 48 - 36) rowHeight) by nia.
    lia.
Qed.

Lemma visibleRows_are_window_witness :
  let data := [[CNum 0]; [CNum 1]; [CNum 2]] in
  (0 < 40 /\ 0 <= 0 /\ 84 <= 684) /\
  Z.of_nat (length (Viewport.visibleRows data 40 684 0))
  <= visibleRows (Viewport.tableWindow data 40 684 0) + 2 * 10 + 1.
Proof.
  cbv zeta. split; [lia|].
  exact (proj2 (proj2 (proj2
    (visibleRows_are_window [[CNum 0]; [CNum 1]; [CNum 2]] 40 684 0
       ltac:(lia) ltac:(lia) ltac:(lia))))).
Defined.

(** X23.  The window follows the scroll position monotonically: scrolling
    further down never moves [startIndex] or [endIndex] up. *)
Theorem useVirtualScroll_monotone cfg scrollTop scrollTop' :
  0 < rowHeight cfg -> scrollTop <= scrollTop' ->
  startIndex (useVirtualScroll cfg scrollTop) <= startIndex (useVirtualScroll cfg scrollTop') /\
  endIndex (useVirtualScroll cfg scrollTop) <= endIndex (useVirtualScroll cfg scrollTop').
Proof.
  intros Hh Hle. simpl.
  pose proof (floorDiv_spec scrollTop (rowHeight cfg) Hh).
  pose proof (floorDiv_spec scrollTop' (rowHeight cfg) Hh).
  pose proof (ceilDiv_spec (scrollTop + containerHeight cfg) (rowHeight cfg) Hh).
  pose proof (ceilDiv_spec (scrollTop' + containerHeight cfg) (rowHeight cfg) Hh).
  assert (floorDiv scrollTop (rowHeight cfg) <= floorDiv scrollTop' (rowHeight cfg)) by nia.
  assert (ceilDiv (scrollTop + containerHeight cfg) (rowHeight cfg)
          <= ceilDiv (scrollTop' + containerHeight cfg) (rowHeight cfg)) by nia.
  lia.
Qed.

Lemma useVirtualScroll_monotone_witness :
  (0 < rowHeight (mkConfig 100 10 50 None) /\ 300 <= 700) /\
  startIndex (useVirtualScroll (mkConfig 100 10 50 None) 300)
  <= startIndex (useVirtualScroll (mkConfig 100 10 50 None) 700).
Proof.
  split; [simpl; lia|].
  exact (proj1 (useVirtualScroll_monotone (mkConfig 100 10 50 None) 300 700
                  ltac:(simpl; lia) ltac:(lia))).
Defined.

Lemma step_gateInvariant st e : gateInvariant st -> gateInvariant (step st e).
Proof.
  intros [[Ht Hq]|[Ht [v Hq]]]; destruct e as [v'|]; simpl.
  - unfold handleScroll. rewrite Ht, Hq. right. simpl. eauto.
  - unfold animationFrame. rewrite Hq. simpl. by left.
  - unfold handleScroll. rewrite Ht. right. eauto.
  - unfold animationFrame. rewrite Hq. simpl. by left.
Qed.

Lemma step_scrollTop st e :
  scrollTop (step st e) = scrollTop st \/
  (e = Frame /\ exists v, v ∈ frameQueue st /\ scrollTop (step st e) = v).
Proof.
  destruct e as [v'|]; simpl.
  - left. unfold handleScroll. by destruct (ticking st).
  - unfold animationFrame.
    assert (H : forall q s0, scrollTop (fold_left frameCallback q s0) = scrollTop s0 \/
                exists v, v ∈ q /\ scrollTop (fold_left frameCallback q s0) = v).
    { induction q as [|x q IH]; intros s0; simpl; [by left|].
      destruct (IH (frameCallback s0 x)) as [->|(v & Hv & ->)].
      - right. exists x. split; [left | done].
      - right. exists v. split; [by right | done]. }
    destruct (H (frameQueue st) (mkHook (scrollTop st) (ticking st) [])) as [->|(v & Hv & Hs)].
    + by left.
    + right. split; [done|]. by exists v.
Qed.

(** X24.  The scroll handler as a throttle, over any interleaving of scroll
    updates and animation frames from the initial hook state: at most one
    frame callback is ever pending, one is pending exactly while
    [tickingRef] is set, and the [scrollTop] state is always 0 or a position
    that some scroll update carried. *)
Theorem scroll_gate_invariant es :
  let st := run initialHook es in
  gateInvariant st /\
  (length (frameQueue st) <= 1)%nat /\
  (scrollTop st = 0 \/ Scroll (scrollTop st) ∈ es) /\
  (forall v, v ∈ frameQueue st -> Scroll v ∈ es).
Proof.
  cbv zeta.
  assert (H : forall es st0 (seen : list Event),
            gateInvariant st0 ->
            (scrollTop st0 = 0 \/ Scroll (scrollTop st0) ∈ seen) ->
            (forall v, v ∈ frameQueue st0 -> Scroll v ∈ seen) ->
            gateInvariant (run st0 es) /\
            (scrollTop (run st0 es) = 0 \/ Scroll (scrollTop (run st0 es)) ∈ seen ++ es) /\
            (forall v, v ∈ frameQueue (run st0 es) -> Scroll v ∈ seen ++ es)).
  { clear es. induction es as [|e es IH]; intros st0 seen Hg Hs Hq.
    - rewrite app_nil_r. done.
    - change (run st0 (e :: es)) with (run (step st0 e) es).
      replace (seen ++ e :: es) with ((seen ++ [e]) ++ es) by (by rewrite <- app_assoc).
      apply IH.
      + by apply step_gateInvariant.
      + destruct (step_scrollTop st0 e) as [->|(_ & v & Hv & ->)].
        * destruct Hs as [Hs|Hs]; [by left | right; apply elem_of_app; by left].
        * right. apply elem_of_app. left. by apply Hq.
      + intros v Hv. destruct e as [v'|]; simpl in Hv.
        * unfold handleScroll in Hv. destruct (ticking st0); simpl in Hv.
          -- apply elem_of_app. left. by apply Hq.
          -- apply elem_of_app in Hv as [Hv|Hv].
             ++ apply elem_of_app. left. by apply Hq.
             ++ apply list_elem_of_singleton in Hv as ->. apply elem_of_app. right. left.
        * destruct (step_gateInvariant st0 Frame Hg) as [[_ Hq']|[Ht _]].
          -- simpl in Hq'. rewrite Hq' in Hv. by apply elem_of_nil in Hv.
          -- simpl in Ht. unfold animationFrame in Ht.
             destruct Hg as [[_ Hq0]|[_ [w Hq0]]]; rewrite Hq0 in Ht; simpl in Ht;
               [|discriminate].
             unfold animationFrame in Hv. rewrite Hq0 in Hv. simpl in Hv.
             by apply elem_of_nil in Hv. }
  destruct (H es initialHook [] ltac:(left; done) ltac:(by left)
              ltac:(intros v Hv; by apply elem_of_nil in Hv)) as (Hg & Hs & Hq).
  split; [done|]. split; [|done].
  destruct Hg as [[_ ->]|[_ [v ->]]]; simpl; lia.
Qed.

Lemma handleScroll_cases p t triggered :
  Viewport.handleScroll p t triggered =
  let effects0 := [Viewport.SetScrollLeft (Viewport.targetScrollLeft t);
                   Viewport.UpdateScrollState (Viewport.targetScrollTop t)] in
  if Viewport.mayLoadMore p triggered && (Viewport.progressReached p || nearBottom t)
  then (true, effects0 ++ [Viewport.LoadMore])
  else (triggered, effects0).
Proof.
  unfold Viewport.handleScroll, nearBottom, Viewport.mayLoadMore.
  destruct (Viewport.progressReached p),
    (Viewport.scrollHeight t - Viewport.targetScrollTop t - Viewport.clientHeight t <? 500),
    (Viewport.hasMoreData p), (Viewport.isLoadingMore p), (Viewport.isLoading p),
    (Viewport.onLoadMore p), triggered; reflexivity.
Qed.

Lemma mayLoadMore_triggered p : Viewport.mayLoadMore p true = false.
Proof.
  unfold Viewport.mayLoadMore.
  by destruct (Viewport.hasMoreData p), (Viewport.isLoadingMore p), (Viewport.isLoading p).
Qed.

Lemma loadMoreCalls_app l1 l2 :
  Viewport.loadMoreCalls (l1 ++ l2) = (Viewport.loadMoreCalls l1 + Viewport.loadMoreCalls l2)%nat.
Proof. unfold Viewport.loadMoreCalls. by rewrite List.filter_app, length_app. Qed.

(** X25.  The load-more trigger of the table latches.  Over any run of
    scroll events handled under the same props and buffer length, starting
    with [loadMoreTriggeredRef] at [triggered]: [onLoadMore] is called once
    if loading is allowed (more data, no load in flight, ref not set,
    callback given) and some event finds the window end at 70% of the buffer
    or the viewport within 500 pixels of the bottom, and not at all
    otherwise; the ref is set afterwards exactly if it was set before or the
    call was made; and every event's scroll position is handed to the
    windowing hook, in order. *)
Theorem handleScrolls_load_more_once p targets triggered :
  let fired := Viewport.mayLoadMore p triggered
               && existsb (fun t => Viewport.progressReached p || nearBottom t) targets in
  let result := Viewport.handleScrolls p targets triggered in
  Viewport.loadMoreCalls result.2 = (if fired then 1 else 0)%nat /\
  result.1 = triggered || fired /\
  List.filter isUpdateScrollState result.2
    = map (fun t => Viewport.UpdateScrollState (Viewport.targetScrollTop t)) targets.
Proof.
  cbv zeta. revert triggered.
  induction targets as [|t targets IH]; intros triggered.
  - simpl. rewrite andb_false_r, orb_false_r. done.
  - cbn [Viewport.handleScrolls existsb map].
    rewrite handleScroll_cases. cbv zeta.
    destruct (Viewport.mayLoadMore p triggered) eqn:Hmay; cbn [andb].
    + destruct (Viewport.progressReached p || nearBottom t) eqn:Hnow.
      * specialize (IH true). rewrite mayLoadMore_triggered in IH. cbn [andb orb] in IH.
        destruct (Viewport.handleScrolls p targets true) as [tr2 eff2].
        simpl in IH. destruct IH as (Hc & -> & Hu).
        cbn [orb fst snd]. rewrite loadMoreCalls_app. rewrite Hc.
        split; [done|]. split; [by rewrite orb_true_r|].
        simpl. by rewrite Hu.
      * specialize (IH triggered). rewrite Hmay in IH. cbn [andb orb] in IH.
        destruct (Viewport.handleScrolls p targets triggered) as [tr2 eff2].
        simpl in IH. destruct IH as (Hc & -> & Hu).
        cbn [orb fst snd]. rewrite loadMoreCalls_app. rewrite Hc.
        split; [done|]. split; [done|].
        simpl. by rewrite Hu.
    + specialize (IH triggered). rewrite Hmay in IH. cbn [andb orb] in IH.
      destruct (Viewport.handleScrolls p targets triggered) as [tr2 eff2].
      simpl in IH. destruct IH as (Hc & -> & Hu).
      cbn [fst snd]. rewrite loadMoreCalls_app. rewrite Hc.
      split; [done|]. split; [done|].
      simpl. by rewrite Hu.
Qed.

(** X26.  The floating group label.  For a positive row height and
    viewport height and a group of at least one row: the label is hidden
    exactly when the pixel span of the group misses the viewport, and a
    shown label lies inside its group, meets the viewport, and sits at the
    scroll position unless that would leave the group, in which case it
    stops at the group's first or last row. *)
Theorem stickyLabel_geometry p :
  0 < Viewport.stickyRowHeight p -> 0 < Viewport.viewportHeight p ->
  Viewport.groupStartY p + Viewport.stickyRowHeight p <= Viewport.groupEndY p ->
  let top := Viewport.stickyScrollTop p in
  let bottom := top + Viewport.viewportHeight p in
  (Viewport.stickyLabel p = None <->
     Viewport.groupEndY p <= top \/ bottom <= Viewport.groupStartY p) /\
  (forall y, Viewport.stickyLabel p = Some y ->
     Viewport.groupStartY p <= y /\
     y + Viewport.stickyRowHeight p <= Viewport.groupEndY p /\
     top < y + Viewport.stickyRowHeight p /\ y < bottom /\
     (y = top \/
      (top < Viewport.groupStartY p /\ y = Viewport.groupStartY p) \/
      (Viewport.groupEndY p - Viewport.stickyRowHeight p < top /\
       y = Viewport.groupEndY p - Viewport.stickyRowHeight p))).
Proof.
  intros Hh Hv Hg. cbv zeta. unfold Viewport.stickyLabel.
  destruct (Z.leb_spec (Viewport.groupEndY p) (Viewport.stickyScrollTop p)) as [H1|H1];
    cbn [orb].
  - split; [split; [by left | done] | done].
  - rewrite Z.geb_leb.
    destruct (Z.leb_spec (Viewport.stickyScrollTop p + Viewport.viewportHeight p)
                (Viewport.groupStartY p)) as [H2|H2].
    + split; [split; [by right | done] | done].
    + split; [split; [done | lia]|].
      intros y [= <-]. lia.
Qed.

Lemma stickyLabel_geometry_witness :
  let p := Viewport.labelProps (RowSpan.mkGroup (CStr "A") 2 5) 40 100 600 in
  (0 < Viewport.stickyRowHeight p /\ 0 < Viewport.viewportHeight p /\
   Viewport.groupStartY p + Viewport.stickyRowHeight p <= Viewport.groupEndY p) /\
  (Viewport.stickyLabel p = Some 100 -> Viewport.groupStartY p <= 100).
Proof.
  cbv zeta. split; [vm_compute; repeat split; discriminate|].
  intros H.
  exact (proj1 (proj2 (stickyLabel_geometry
                 (Viewport.labelProps (RowSpan.mkGroup (CStr "A") 2 5) 40 100 600)
                 ltac:(simpl; lia) ltac:(simpl; lia) ltac:(simpl; lia)) 100 H)).
Defined.

End ViewportFacts.

(** ** The debounced callback *)

Section DebounceFacts.
Import Debounce TableShape.
Context {A : Type}.

Lemma run_app (st : State A) (es1 es2 : list (Event A)) :
  run st (es1 ++ es2) =
  let '(st1, calls1) := run st es1 in
  let '(st2, calls2) := run st1 es2 in
  (st2, calls1 ++ calls2).
Proof.
  revert st. induction es1 as [|e es1 IH]; intros st; simpl.
  - by destruct (run st es2).
  - destruct (step st e) as [st1 c1]. rewrite IH.
    destruct (run st1 es1) as [st2 c2]. destruct (run st2 es2) as [st3 c3].
    by rewrite app_assoc.
Qed.

Lemma run_calls (st : State A) (args : list A) (a : A) :
  run st (map Call (args ++ [a])) = (mkState (Some a), []).
Proof.
  revert st. induction args as [|x args IH]; intros st; simpl; [done|].
  by rewrite IH.
Qed.

Lemma run_pending_sublist (st : State A) (es : list (Event A)) :
  sublist ((run st es).2 ++ option_list (timer (run st es).1))
          (option_list (timer st) ++ callArgs es).
Proof.
  revert st. induction es as [|e es IH]; intros st.
  - simpl. by rewrite app_nil_r.
  - cbn [run]. destruct (step st e) as [st1 c1] eqn:Hstep.
    specialize (IH st1). destruct (run st1 es) as [st2 c2]. cbn [fst snd] in *.
    assert (Hkey : sublist (c1 ++ option_list (timer st1) ++ callArgs es)
                     (option_list (timer st) ++ callArgs (e :: es))).
    { destruct e as [a| |]; simpl in Hstep.
      - injection Hstep as <- <-. simpl. by apply sublist_inserts_l.
      - destruct (timer st) eqn:Ht; injection Hstep as <- <-; simpl; [done|].
        by rewrite Ht.
      - injection Hstep as <- <-. simpl. by apply sublist_inserts_l. }
    etrans; [|exact Hkey]. rewrite <- app_assoc. by apply sublist_app.
Qed.

Lemma run_elapses_idle (n : nat) :
  run (mkState (A := A) None) (replicate n Elapse) = (mkState None, []).
Proof. induction n as [|n IH]; simpl; [done|]. by rewrite IH. Qed.

(** X27.  The debounced callback fires on the trailing edge only.
    - A burst of calls followed by the timeout invokes [callback] once, with
      the arguments of the last call.
    - Over any sequence of calls, timeouts and unmounts from the idle state,
      the invocations of [callback] are a subsequence of the calls made:
      each call is forwarded at most once, with its own arguments, in call
      order.
    - After the unmount cleanup no timeout invokes [callback] any more. *)
Theorem debounce_trailing_edge (st : State A) (args : list A) (a : A)
    (es : list (Event A)) (n : nat) :
  run st (map Call (args ++ [a]) ++ [Elapse]) = (mkState None, [a]) /\
  sublist (run (mkState None) es).2 (callArgs es) /\
  (run st (es ++ Unmount :: replicate n Elapse)).2 = (run st es).2.
Proof.
  split; [|split].
  - rewrite run_app, run_calls. reflexivity.
  - pose proof (run_pending_sublist (mkState None) es) as H. simpl in H.
    etrans; [|exact H]. by apply sublist_inserts_r.
  - rewrite run_app. destruct (run st es) as [st1 c1]. cbn [run step].
    rewrite run_elapses_idle. cbn [snd]. by rewrite app_nil_r.
Qed.

End DebounceFacts.

(** ** Row groups: groupable columns, rendered cells, nesting *)

Section RowSpanLaws.
Import Data RowSpan.

Lemma spanningFrom_elem (index dimensionCount : nat) (names : list string) (c : nat) :
  c ∈ spanningFrom index dimensionCount names <->
  (index <= c)%nat /\ (c < dimensionCount)%nat /\
  exists name, names !! (c - index)%nat = Some name /\
               includes SPANNING_COLUMNS (toLowerCase name) = true.
Proof.
  revert index. induction names as [|name names IH]; intros index.
  - simpl. split; [intros H; by apply elem_of_nil in H | by intros (_ & _ & ? & ? & _)].
  - cbn [spanningFrom].
    assert (Htail : c ∈ spanningFrom (S index) dimensionCount names <->
              (index < c)%nat /\ (c < dimensionCount)%nat /\
              exists name', (name :: names) !! (c - index)%nat = Some name' /\
                            includes SPANNING_COLUMNS (toLowerCase name') = true).
    { rewrite IH. split.
      - intros (H1 & H2 & n' & H3 & H4). split; [lia|]. split; [done|]. exists n'.
        split; [|done]. replace (c - index)%nat with (S (c - S index)) by lia. done.
      - intros (H1 & H2 & n' & H3 & H4). split; [lia|]. split; [done|]. exists n'.
        split; [|done]. replace (c - index)%nat with (S (c - S index)) in H3 by lia. done. }
    destruct (includes SPANNING_COLUMNS (toLowerCase name)) eqn:Hinc; cbn [andb].
    + destruct (Nat.ltb_spec index dimensionCount) as [Hlt|Hge].
      * rewrite elem_of_cons, Htail. split.
        -- intros [->|(H1 & H2 & H3)].
           ++ split; [lia|]. split; [done|]. exists name. by rewrite Nat.sub_diag.
           ++ split; [lia|]. done.
        -- intros (H1 & H2 & H3).
           destruct (decide (c = index)) as [->|Hne]; [by left|]. right.
           split; [lia|]. done.
      * rewrite Htail. split.
        -- intros (H1 & H2 & H3). split; [lia|]. done.
        -- intros (H1 & H2 & H3). lia.
    + rewrite Htail. split.
      * intros (H1 & H2 & H3). split; [lia|]. done.
      * intros (H1 & H2 & n' & H3 & H4).
        destruct (decide (c = index)) as [->|Hne].
        -- rewrite Nat.sub_diag in H3. simpl in H3. injection H3 as <-. congruence.
        -- split; [lia|]. split; [done|]. by exists n'.
Qed.

Lemma spanningFrom_sorted (index dimensionCount : nat) (names : list string) :
  StronglySorted lt (spanningFrom index dimensionCount names).
Proof.
  revert index. induction names as [|name names IH]; intros index; cbn [spanningFrom].
  - constructor.
  - destruct (includes SPANNING_COLUMNS (toLowerCase name) && (index <? dimensionCount)%nat).
    + constructor; [apply IH|]. apply Forall_forall. intros c Hc.
      apply spanningFrom_elem in Hc. lia.
    + apply IH.
Qed.

(** X28.  The groupable columns of a table are exactly the positions
    below [dimensionCount] whose column name is, ignoring ASCII case, one of
    the four category names; they are listed in ascending order without
    repetition, whatever the order or repetition of the names. *)
Theorem spanningColIndices_spec (columnNames : list string) (dimensionCount : nat) :
  (forall c, c ∈ spanningColIndices columnNames dimensionCount <->
     (c < dimensionCount)%nat /\
     exists name, columnNames !! c = Some name /\
                  toLowerCase name ∈ SPANNING_COLUMNS) /\
  StronglySorted lt (spanningColIndices columnNames dimensionCount) /\
  NoDup (spanningColIndices columnNames dimensionCount).
Proof.
  assert (Hinc : forall n, includes SPANNING_COLUMNS n = true <-> n ∈ SPANNING_COLUMNS).
  { intros n. unfold includes. rewrite existsb_exists. split.
    - intros (x & Hx & Heq). apply String.eqb_eq in Heq as ->. by apply list_elem_of_In.
    - intros Hn. exists n. split; [by apply list_elem_of_In | apply String.eqb_refl]. }
  unfold spanningColIndices. split; [|split].
  - intros c. rewrite spanningFrom_elem, Nat.sub_0_r. split.
    + intros (_ & H & n & Hn & Hi). split; [done|]. exists n. by rewrite <- Hinc.
    + intros (H & n & Hn & Hi). split; [lia|]. split; [done|]. exists n. by rewrite Hinc.
  - apply spanningFrom_sorted.
  - pose proof (spanningFrom_sorted 0 dimensionCount columnNames) as Hs.
    induction Hs as [|x l Hs IH Hall]; constructor; [|done].
    intros Hx. rewrite Forall_forall in Hall. specialize (Hall x Hx). lia.
Qed.

(** The group of a row in a groupable column, with what the two maps hold
    for it. *)
Lemma groupEntry cfg c r :
  let d := data cfg in
  let cols := spanningColIndices (columnNames cfg) (dimensionCount cfg) in
  c ∈ cols -> (r < length d)%nat ->
  exists s e,
    (s <= r < e)%nat /\ (e <= length d)%nat /\
    (forall r', (s <= r' < e)%nat ->
       groupMap cfg !! (r', c) = Some (mkGroup (cellAt d s c) s (e - s)) /\
       sameGroup d cols c s r') /\
    (s = 0%nat \/ ~ sameGroup d cols c (s - 1) s) /\
    (e = length d \/ ~ sameGroup d cols c s e) /\
    spanMap cfg !! (s, c) = (if (1 <? e - s)%nat then Some (mkSpan s c (e - s)) else None).
Proof.
  intros d cols Hc Hr. unfold groupMap, spanMap. fold d cols.
  assert (Hd : d <> []) by (intros E; rewrite E in Hr; simpl in Hr; lia).
  assert (Hcols : cols <> []) by (intros E; rewrite E in Hc; by apply elem_of_nil in Hc).
  destruct (groupMapOf_fold d cols Hd Hcols) as [-> ->].
  destruct (groupCols d cols cols ∅ Hd) as [_ HG].
  destruct (spanCols d cols cols ∅ Hd) as [HSo HS].
  pose proof (runsOf_spec d cols c Hd) as Hruns.
  destruct (RunsFrom_cover _ _ _ _ _ Hruns r ltac:(lia)) as (s' & v & e' & Hin & Hrin).
  destruct (RunsFrom_elems _ _ _ _ _ Hruns ltac:(by left) _ _ _ Hin)
    as (-> & _ & Hse & Hsame & Hright & Hleft).
  exists s', e'. split; [done|]. split; [lia|].
  split; [intros r' Hr'; split; [by apply HG | by apply Hsame]|].
  split; [done|]. split; [done|].
  destruct (Nat.ltb_spec 1 (e' - s')) as [Hlong|Hshort].
  - by eapply HS.
  - rewrite HSo; [done|]. right. intros s2 v2 e2 Hin2 [-> Hlong].
    assert (Heq : (s', cellAt d s' c, e') = (s', v2, e2)).
    { eapply (RunsFrom_unique _ _ _ _ _ Hruns _ _ _ _ _ _ s'); [done | done | lia |].
      destruct (RunsFrom_elems _ _ _ _ _ Hruns ltac:(by left) _ _ _ Hin2)
        as (_ & _ & ? & _). lia. }
    injection Heq as _ <-. lia.
Qed.

Lemma groupable_cell cfg c r :
  c ∈ spanningColIndices (columnNames cfg) (dimensionCount cfg) ->
  forall s e,
    groupMap cfg !! (r, c) = Some (mkGroup (cellAt (data cfg) s c) s (e - s)) ->
    (s < e)%nat ->
    spanMap cfg !! (r, c) =
      (if decide (r = s) then if (1 <? e - s)%nat then Some (mkSpan s c (e - s)) else None
       else spanMap cfg !! (r, c)) ->
    shouldRender cfg r c = (r =? s)%nat /\
    (r = s -> getRowSpan cfg r c = (e - s)%nat).
Proof.
  intros Hc s e Hg Hse Hs.
  assert (Hlt : (c < dimensionCount cfg)%nat).
  { apply spanningFrom_elem in Hc. lia. }
  unfold shouldRender, getRowSpan, isGroupingColumn, has.
  rewrite bool_decide_eq_true_2 by done. cbn [negb].
  rewrite (proj2 (Nat.leb_gt _ _) Hlt), Hg. split; [done|].
  intros ->. rewrite Hs, decide_True by done.
  destruct (Nat.ltb_spec 1 (e - s)) as [Hlong|Hshort]; simpl.
  - by rewrite (proj2 (Nat.eqb_neq _ _)) by lia.
  - lia.
Qed.

(** X29.  The rendered cells of a groupable column tile it.  Every row of
    the buffer lies under exactly one cell of the column that
    [shouldRender] lets through, counted with the row span [getRowSpan]
    gives it; that cell starts a maximal run of rows agreeing in the column
    and in every groupable column to its left, and its span ends within the
    buffer. *)
Theorem rendered_cells_tile_column cfg c r :
  let d := data cfg in
  let cols := spanningColIndices (columnNames cfg) (dimensionCount cfg) in
  c ∈ cols -> (r < length d)%nat ->
  exists r0,
    shouldRender cfg r0 c = true /\
    (r0 <= r < r0 + getRowSpan cfg r0 c)%nat /\
    (r0 + getRowSpan cfg r0 c <= length d)%nat /\
    (forall r', (r0 <= r' < r0 + getRowSpan cfg r0 c)%nat ->
       sameGroup d cols c r0 r' /\ (r' <> r0 -> shouldRender cfg r' c = false)) /\
    (forall r1, (r1 < length d)%nat -> shouldRender cfg r1 c = true ->
       (r1 <= r < r1 + getRowSpan cfg r1 c)%nat -> r1 = r0).
Proof.
  intros d cols Hc Hr.
  destruct (groupEntry cfg c r Hc Hr) as (s & e & Hse & He & Hrows & _ & _ & Hspan).
  fold d cols in He, Hrows.
  destruct (Hrows s ltac:(lia)) as [Hgs _].
  destruct (groupable_cell cfg c s Hc s e Hgs ltac:(lia)) as [Hsr Hgr].
  { by rewrite decide_True. }
  specialize (Hgr eq_refl). rewrite Nat.eqb_refl in Hsr.
  exists s. rewrite Hgr. replace (s + (e - s))%nat with e by lia.
  split; [done|]. split; [done|]. split; [done|]. split.
  - intros r' Hr'. destruct (Hrows r' Hr') as [Hg' Hsame]. split; [done|].
    intros Hne.
    assert (Hlt : (c < dimensionCount cfg)%nat) by (apply spanningFrom_elem in Hc; lia).
    unfold shouldRender, isGroupingColumn, has.
    rewrite bool_decide_eq_true_2 by done. cbn [negb].
    rewrite (proj2 (Nat.leb_gt _ _) Hlt), Hg'. simpl. by apply Nat.eqb_neq.
  - intros r1 Hr1 Hsr1 Hin.
    destruct (groupEntry cfg c r1 Hc Hr1) as (s1 & e1 & Hse1 & He1 & Hrows1 & _ & _ & Hspan1).
    destruct (Hrows1 r1 Hse1) as [Hg1 _].
    assert (Hlt : (c < dimensionCount cfg)%nat) by (apply spanningFrom_elem in Hc; lia).
    assert (r1 = s1) as ->.
    { unfold shouldRender, isGroupingColumn, has in Hsr1.
      rewrite bool_decide_eq_true_2 in Hsr1 by done. cbn [negb] in Hsr1.
      rewrite (proj2 (Nat.leb_gt _ _) Hlt), Hg1 in Hsr1. simpl in Hsr1.
      by apply Nat.eqb_eq in Hsr1. }
    destruct (groupable_cell cfg c s1 Hc s1 e1 Hg1 ltac:(lia)) as [_ Hgr1].
    { by rewrite decide_True. }
    rewrite (Hgr1 eq_refl) in Hin.
    destruct (Hrows1 r ltac:(lia)) as [Hgr_1 _].
    destruct (Hrows r Hse) as [Hgr_0 _].
    rewrite Hgr_0 in Hgr_1. by injection Hgr_1 as _ -> _.
Qed.

Lemma rendered_cells_tile_column_witness :
  let cfg := mkRowSpanConfig
               [[CStr "A"; CStr "X"]; [CStr "A"; CStr "Y"]; [CStr "B"; CStr "X"]]
               2 ["category"; "sub_category"]%string in
  (0%nat ∈ spanningColIndices (columnNames cfg) (dimensionCount cfg) /\
   (1 < length (data cfg))%nat) /\
  exists r0, shouldRender cfg r0 0 = true /\ (r0 <= 1 < r0 + getRowSpan cfg r0 0)%nat.
Proof.
  cbv zeta. split; [split; [vm_compute; left | simpl; lia]|].
  destruct (rendered_cells_tile_column
              (mkRowSpanConfig
                 [[CStr "A"; CStr "X"]; [CStr "A"; CStr "Y"]; [CStr "B"; CStr "X"]]
                 2 ["category"; "sub_category"]%string) 0%nat 1%nat)
    as (r0 & H1 & H2 & _); [vm_compute; left | simpl; lia |].
  exists r0. by split.
Defined.

Lemma sameGroup_parent (d : list Row) (cols : list nat) (c1 c2 a b : nat) :
  (c1 < c2)%nat -> c1 ∈ cols -> sameGroup d cols c2 a b -> sameGroup d cols c1 a b.
Proof.
  intros Hlt Hin [_ H]. split; [by apply H|].
  intros c' Hc' Hin'. apply H; [lia | done].
Qed.

(** X30.  Groups nest.  For two groupable columns [c1 < c2], the group of
    a row in the child column [c2] lies inside the group of that row in the
    parent column [c1]: a child group never crosses a boundary of a column
    to its left. *)
Theorem child_group_within_parent cfg c1 c2 r g1 g2 :
  let cols := spanningColIndices (columnNames cfg) (dimensionCount cfg) in
  c1 ∈ cols -> c2 ∈ cols -> (c1 < c2)%nat ->
  getGroupInfo cfg r c1 = Some g1 -> getGroupInfo cfg r c2 = Some g2 ->
  (startRow g1 <= startRow g2)%nat /\
  (startRow g2 + rowCount g2 <= startRow g1 + rowCount g1)%nat.
Proof.
  intros cols Hc1 Hc2 Hlt Hg1 Hg2. unfold getGroupInfo in *.
  assert (Hr : (r < length (data cfg))%nat).
  { destruct (decide (r < length (data cfg))%nat) as [|Hge]; [done|].
    assert (Hnone : groupMap cfg !! (r, c1) = None); [|congruence].
    unfold groupMap.
    destruct (decide (data cfg = [])) as [He|Hne].
    { destruct (groupMapOf_empty (data cfg) cols (or_introl He)) as [E _].
      fold cols. by rewrite E, lookup_empty. }
    assert (Hcols : cols <> []) by (intros E; rewrite E in Hc1; by apply elem_of_nil in Hc1).
    destruct (groupMapOf_fold (data cfg) cols Hne Hcols) as [E _]. fold cols. rewrite E.
    destruct (groupCols (data cfg) cols cols ∅ Hne) as [HGo _].
    rewrite HGo; [done | right; lia]. }
  destruct (groupEntry cfg c1 r Hc1 Hr) as (s1 & e1 & Hse1 & He1 & Hrows1 & Hl1 & Hr1 & _).
  destruct (groupEntry cfg c2 r Hc2 Hr) as (s2 & e2 & Hse2 & He2 & Hrows2 & _ & _ & _).
  fold cols in Hrows1, Hrows2, Hl1, Hr1.
  destruct (Hrows1 r Hse1) as [E1 _]. destruct (Hrows2 r Hse2) as [E2 _].
  rewrite Hg1 in E1. rewrite Hg2 in E2. injection E1 as ->. injection E2 as ->. simpl.
  assert (Hchild : forall a b, (s2 <= a < e2)%nat -> (s2 <= b < e2)%nat ->
                     sameGroup (data cfg) cols c1 a b).
  { intros a b Ha Hb. apply (sameGroup_parent _ _ c1 c2); [done | done |].
    eapply sameGroup_trans; [apply sameGroup_sym|]; by apply Hrows2. }
  assert (Hs : (s1 <= s2)%nat).
  { destruct (decide (s1 <= s2)%nat) as [|Hgt]; [done|].
    destruct Hl1 as [->|Hl1]; [lia|]. exfalso. apply Hl1. apply Hchild; lia. }
  split; [done|].
  destruct (decide (e2 <= e1)%nat) as [|Hgt]; [lia|].
  destruct Hr1 as [->|Hr1]; [lia|]. exfalso. apply Hr1.
  apply (sameGroup_trans _ _ _ _ s2); [apply Hrows1; lia | apply Hchild; lia].
Qed.

Lemma child_group_within_parent_witness :
  let cfg := mkRowSpanConfig
               [[CStr "A"; CStr "X"]; [CStr "A"; CStr "Y"]; [CStr "B"; CStr "X"]]
               2 ["category"; "sub_category"]%string in
  match getGroupInfo cfg 1 0, getGroupInfo cfg 1 1 with
  | Some g1, Some g2 =>
      (0%nat ∈ spanningColIndices (columnNames cfg) (dimensionCount cfg) /\
       1%nat ∈ spanningColIndices (columnNames cfg) (dimensionCount cfg) /\ (0 < 1)%nat) /\
      (startRow g1 <= startRow g2)%nat /\
      (startRow g2 + rowCount g2 <= startRow g1 + rowCount g1)%nat
  | _, _ => False
  end.
Proof.
  cbv zeta.
  destruct (getGroupInfo _ 1 0) as [g1|] eqn:H1; [|vm_compute in H1; discriminate].
  destruct (getGroupInfo _ 1 1) as [g2|] eqn:H2; [|vm_compute in H2; discriminate].
  split; [split; [vm_compute; left | split; [vm_compute; right; left | lia]]|].
  apply (child_group_within_parent
           (mkRowSpanConfig
              [[CStr "A"; CStr "X"]; [CStr "A"; CStr "Y"]; [CStr "B"; CStr "X"]]
              2 ["category"; "sub_category"]%string) 0%nat 1%nat 1%nat g1 g2);
    [vm_compute; left | vm_compute; right; left | lia | exact H1 | exact H2].
Defined.

End RowSpanLaws.
